(** * watermark_script.py: a shallow embedding and its properties

    The script walks a source directory, pastes a resized, opacity-adjusted
    watermark on every image it finds and writes the result under a
    destination directory that mirrors the source tree.

    Python values are modelled as follows.
    - [int] is [Z]; [//] is [Z.div] (both round towards minus infinity).
    - [float] is IEEE binary64, taken from the Standard Library's executable
      specification ([spec_float] at precision 53, emax 1024).
    - [str] is [string]; only ASCII case mapping is modelled.
    - exceptions are an inductive type and every effectful function is a
      state-and-exception computation over a [world].
    - Pillow and [os] are an interface (type classes [Imaging] and [OS]);
      the script is defined once, for every implementation of it. *)

From Stdlib Require Import ZArith Lia String Ascii List Bool.
From Stdlib Require Import Floats.SpecFloat.
From Stdlib Require Import Reals Lra.
From stdpp Require Import base strings pretty gmap.

Open Scope string_scope.
Open Scope Z_scope.

(** ** Python exceptions and results *)

Module Py.

(** The exception classes the script names or can meet.  [KeyboardInterrupt]
    and [SystemExit] derive from [BaseException] only; all the others are
    subclasses of [Exception]. *)
Inductive exn : Type :=
| UnidentifiedImageError
| PermissionError
| FileNotFoundError
| FileExistsError
| AssertionError (msg : string)
| AttributeError (msg : string)
| ValueError (msg : string)
| OverflowError (msg : string)
| ZeroDivisionError (msg : string)
| OSError (msg : string)
| MemoryError
| KeyboardInterrupt
| SystemExit (code : Z).

Definition is_Exception (e : exn) : bool :=
  match e with
  | KeyboardInterrupt | SystemExit _ => false
  | _ => true
  end.

(** [str(e)], as interpolated in the log messages. *)
Definition str_exn (e : exn) : string :=
  match e with
  | UnidentifiedImageError => "cannot identify image file"
  | PermissionError => "Permission denied"
  | FileNotFoundError => "No such file or directory"
  | FileExistsError => "File exists"
  | AssertionError m | AttributeError m | ValueError m | OverflowError m
  | ZeroDivisionError m | OSError m => m
  | MemoryError => ""
  | KeyboardInterrupt => ""
  | SystemExit c => pretty c
  end.

Inductive result (A : Type) : Type :=
| Ok (a : A)
| Raise (e : exn).
Arguments Ok {A} a.
Arguments Raise {A} e.

Definition is_ok {A} (r : result A) : bool :=
  match r with Ok _ => true | Raise _ => false end.

End Py.
Export Py.

(** ** Python strings *)

Module PyStr.

Definition lower_ascii (c : ascii) : ascii :=
  let n := N_of_ascii c in
  if ((65 <=? n) && (n <=? 90))%N then ascii_of_N (n + 32) else c.

Definition upper_ascii (c : ascii) : ascii :=
  let n := N_of_ascii c in
  if ((97 <=? n) && (n <=? 122))%N then ascii_of_N (n - 32) else c.

Fixpoint map_string (f : ascii -> ascii) (s : string) : string :=
  match s with
  | EmptyString => EmptyString
  | String c s' => String (f c) (map_string f s')
  end.

(** [s.lower()] and [s.upper()]. *)
Definition lower (s : string) : string := map_string lower_ascii s.
Definition upper (s : string) : string := map_string upper_ascii s.

(** [s.endswith(suffix)]. *)
Definition endswith (s suffix : string) : bool :=
  let n := String.length s in
  let m := String.length suffix in
  (m <=? n)%nat && String.eqb (substring (n - m) m s) suffix.

(** [s.endswith(t)] for a tuple [t] of suffixes. *)
Definition endswith_any (s : string) (suffixes : list string) : bool :=
  existsb (endswith s) suffixes.

(** [s in l] for a list of strings. *)
Definition str_in (s : string) (l : list string) : bool :=
  existsb (String.eqb s) l.

(** [repr] of a pair of ints, as an f-string prints a tuple. *)
Definition repr_pair (p : Z * Z) : string :=
  "(" +:+ pretty (fst p) +:+ ", " +:+ pretty (snd p) +:+ ")".

End PyStr.

(** ** Python floats: IEEE binary64 *)

Module PyFloat.

Definition prec : Z := 53.
Definition emax : Z := 1024.

Abbreviation float := spec_float.

Definition zero : float := S754_zero false.
Definition one : float := S754_finite false 4503599627370496 (-52).

(** [float(n)] for an int [n]: correctly rounded, [OverflowError] when the
    int is too large for a double. *)
Definition float_of_int (n : Z) : result float :=
  match binary_normalize prec emax n 0 false with
  | S754_infinity _ => Raise (OverflowError "int too large to convert to float")
  | f => Ok f
  end.

(** [x * y] on floats. *)
Definition mul (x y : float) : float := SFmul prec emax x y.

Definition is_zero (x : float) : bool :=
  match x with S754_zero _ => true | _ => false end.

(** [x / y] on floats. *)
Definition truediv (x y : float) : result float :=
  if is_zero y then Raise (ZeroDivisionError "float division by zero")
  else Ok (SFdiv prec emax x y).

(** [int(x)]: truncation towards zero. *)
Definition int_of_float (x : float) : result Z :=
  match x with
  | S754_nan => Raise (ValueError "cannot convert float NaN to integer")
  | S754_infinity _ =>
      Raise (OverflowError "cannot convert float infinity to integer")
  | S754_zero _ => Ok 0
  | S754_finite s m e => Ok (cond_Zopp s (Z.shiftl (Z.pos m) e))
  end.

(** [n * y] with an int on the left: the int is converted first. *)
Definition int_mul_float (n : Z) (y : float) : result float :=
  match float_of_int n with
  | Ok x => Ok (mul x y)
  | Raise e => Raise e
  end.

(** [n / y] with an int on the left. *)
Definition int_truediv_float (n : Z) (y : float) : result float :=
  match float_of_int n with
  | Ok x => truediv x y
  | Raise e => Raise e
  end.

(** [a <= x] and [a < x] between floats (false on NaN). *)
Definition le (x y : float) : bool := SFleb x y.
Definition lt (x y : float) : bool := SFltb x y.

(** The floats that [float(...)] and arithmetic produce: canonical mantissa
    and exponent in range. *)
Definition valid (x : float) : bool := valid_binary prec emax x.

(** [math.isfinite(x)] *)
Definition is_finite (x : float) : bool :=
  match x with
  | S754_zero _ | S754_finite _ _ _ => true
  | _ => false
  end.

End PyFloat.

(** The real value of a power of two and of a float. *)
Definition pow2 (e : Z) : R := powerRZ 2 e.

Definition fval (x : spec_float) : R :=
  match x with
  | S754_finite s m e => (IZR (cond_Zopp s (Z.pos m)) * pow2 e)%R
  | _ => 0%R
  end.

(** ** [os.path] on POSIX (CPython's [posixpath]) *)

Module posixpath.

Definition sep : ascii := "/"%char.
Definition curdir : string := ".".
Definition pardir : string := "..".

(** [s.split('/')] *)
Fixpoint split_sep (s : string) : list string :=
  match s with
  | EmptyString => [EmptyString]
  | String c s' =>
      if Ascii.eqb c sep then EmptyString :: split_sep s'
      else match split_sep s' with
           | x :: xs => String c x :: xs
           | [] => [String c EmptyString]
           end
  end.

(** ['/'.join(l)] *)
Fixpoint join_sep (l : list string) : string :=
  match l with
  | [] => EmptyString
  | [x] => x
  | x :: xs => x +:+ String sep (join_sep xs)
  end.

Definition isabs (p : string) : bool :=
  match p with
  | String c _ => Ascii.eqb c sep
  | EmptyString => false
  end.

Definition all_sep (s : string) : bool :=
  forallb (Ascii.eqb sep) (list_ascii_of_string s).

Definition ends_with_sep (s : string) : bool :=
  match rev (list_ascii_of_string s) with
  | c :: _ => Ascii.eqb c sep
  | [] => false
  end.

Fixpoint drop_seps (l : list ascii) : list ascii :=
  match l with
  | c :: l' => if Ascii.eqb c sep then drop_seps l' else l
  | [] => []
  end.

(** [s.rstrip('/')] *)
Definition rstrip_sep (s : string) : string :=
  string_of_list_ascii (rev (drop_seps (rev (list_ascii_of_string s)))).

(** [os.path.join(a, b)] *)
Definition join (a b : string) : string :=
  if isabs b then b
  else if String.eqb a EmptyString || ends_with_sep a then a +:+ b
  else a +:+ String sep b.

(** The part of [p] up to and including its last ['/'] ([p[:i]] with
    [i = p.rfind('/') + 1]) and the part after it ([p[i:]]). *)
Definition rsplit_sep (p : string) : string * string :=
  let comps := split_sep p in
  let tail := List.last comps EmptyString in
  let head := substring 0 (String.length p - String.length tail) p in
  (head, tail).

(** [os.path.basename(p)] *)
Definition basename (p : string) : string := snd (rsplit_sep p).

(** [os.path.dirname(p)] *)
Definition dirname (p : string) : string :=
  let head := fst (rsplit_sep p) in
  if negb (String.eqb head EmptyString) && negb (all_sep head)
  then rstrip_sep head else head.

(** One step of the loop of [normpath] over the components: [new_comps] is
    kept in reverse order ([pop] and [append] act on its head). *)
Definition normpath_step (initial_slashes : bool) (new_comps : list string)
    (comp : string) : list string :=
  if String.eqb comp EmptyString || String.eqb comp curdir then new_comps
  else if negb (String.eqb comp pardir)
          || (negb initial_slashes && match new_comps with [] => true | _ => false end)
          || match new_comps with c :: _ => String.eqb c pardir | [] => false end
  then comp :: new_comps
  else match new_comps with
       | _ :: rest => rest
       | [] => new_comps
       end.

Definition starts_with (s pre : string) : bool := String.prefix pre s.

(** [os.path.normpath(path)] *)
Definition normpath (path : string) : string :=
  if String.eqb path EmptyString then curdir
  else
    let initial_slashes := isabs path in
    let slashes :=
      if initial_slashes && starts_with path "//" && negb (starts_with path "///")
      then "//" else if initial_slashes then "/" else "" in
    let comps := rev (fold_left (normpath_step initial_slashes) (split_sep path) []) in
    let path' := slashes +:+ join_sep comps in
    if String.eqb path' EmptyString then curdir else path'.

(** [os.path.abspath(path)], with the current directory [cwd]. *)
Definition abspath (cwd path : string) : string :=
  normpath (if isabs path then path else join cwd path).

(** [[x for x in s.split('/') if x]] *)
Definition nonempty_comps (s : string) : list string :=
  filter (fun x => negb (String.eqb x EmptyString)) (split_sep s).

(** The length of the longest common prefix of two lists of components. *)
Fixpoint commonprefix_len (l1 l2 : list string) : nat :=
  match l1, l2 with
  | x :: l1', y :: l2' => if String.eqb x y then S (commonprefix_len l1' l2') else O
  | _, _ => O
  end.

(** [os.path.join] applied to the elements of a non-empty list. *)
Definition join_list (l : list string) : string :=
  match l with
  | [] => EmptyString
  | x :: xs => fold_left join xs x
  end.

(** [os.path.relpath(path, start)], with the current directory [cwd]. *)
Definition relpath (cwd path start : string) : result string :=
  if String.eqb path EmptyString then Raise (ValueError "no path specified")
  else
    let start := if String.eqb start EmptyString then curdir else start in
    let start_list := nonempty_comps (abspath cwd start) in
    let path_list := nonempty_comps (abspath cwd path) in
    let i := commonprefix_len start_list path_list in
    let rel_list :=
      (repeat pardir (length start_list - i) ++ drop i path_list)%list in
    match rel_list with
    | [] => Ok curdir
    | _ => Ok (join_list rel_list)
    end.

End posixpath.

(** ** Logging, library calls and the world *)

Inductive level : Type := DEBUG | INFO | WARNING | ERROR | CRITICAL.

Record log_record : Type := LogRecord { levelno : level; message : string }.

(** The calls the script makes into Pillow and [os] that touch the outside
    world or can fail; the model records each of them, in order, together
    with the exception it raised, if any. *)
Inductive call : Type :=
| Call_parse_args
| Call_FileHandler (log_file : string)
| Call_open (path : string)
| Call_exif_transpose
| Call_resize (size : Z * Z)
| Call_convert (mode : string)
| Call_new (mode : string) (size : Z * Z)
| Call_paste (box : Z * Z)
| Call_alpha_composite
| Call_split
| Call_enhance (factor : PyFloat.float)
| Call_merge (mode : string)
| Call_makedirs (path : string) (exist_ok : bool)
| Call_save (path : string) (format : option string) (mode : string).

Record event : Type := Event { ev_call : call; ev_raised : option exn }.

(** The parsed command line ([argparse.Namespace]). *)
Record Namespace : Type := mkNamespace {
  source_dir : string;
  dest_dir : string;
  watermark : string;
  opacity : PyFloat.float;
  position : string;
  size : PyFloat.float;
  log_file : option string;
  verbose : bool
}.

(** Pillow, as far as the script uses it.  [S] is the state of the outside
    world (the file system, the process); every operation may change it and
    may raise. *)
Class Imaging (S : Type) : Type := {
  image : Type;
  im_mode : image -> string;
  im_format : image -> option string;
  im_size : image -> Z * Z;
  Image_open : string -> S -> result image * S;
  ImageOps_exif_transpose : image -> S -> result image * S;
  Image_resize : image -> Z * Z -> S -> result image * S;
  Image_convert : image -> string -> S -> result image * S;
  Image_new : string -> Z * Z -> Z * Z * Z * Z -> S -> result image * S;
  Image_paste : image -> image -> Z * Z -> S -> result image * S;
  Image_alpha_composite : image -> image -> S -> result image * S;
  Image_split : image -> S -> result (list image) * S;
  Brightness_enhance : image -> PyFloat.float -> S -> result image * S;
  Image_merge : string -> list image -> S -> result image * S;
  Image_save : image -> string -> option string -> S -> result unit * S
}.

(** [os], [argparse] and [logging.FileHandler], as far as the script uses
    them.  [os_walk] is the sequence of triples that [os.walk] yields. *)
Class OS (S : Type) : Type := {
  parse_args : S -> result Namespace * S;
  FileHandler : string -> S -> result unit * S;
  os_path_isdir : string -> S -> bool;
  os_path_isfile : string -> S -> bool;
  os_getcwd : S -> string;
  os_walk : string -> S -> list (string * list string * list string);
  os_makedirs : string -> bool -> S -> result unit * S
}.

Record world (S : Type) : Type := World {
  ext : S;
  log : list log_record;
  trace : list event
}.
Arguments World {S} ext log trace.
Arguments ext {S} w.
Arguments log {S} w.
Arguments trace {S} w.

(** ** The state-and-exception monad of the script *)

Definition M (S A : Type) : Type := world S -> result A * world S.

Definition ret {S A} (a : A) : M S A := fun w => (Ok a, w).

Definition bind {S A B} (m : M S A) (k : A -> M S B) : M S B :=
  fun w => match m w with
           | (Ok a, w') => k a w'
           | (Raise e, w') => (Raise e, w')
           end.

Definition raise {S A} (e : exn) : M S A := fun w => (Raise e, w).

(** [try: body except ...: handler]; [handler e] is [None] when no clause
    matches [e]. *)
Definition try_except {S A} (body : M S A) (handler : exn -> option (M S A))
    : M S A :=
  fun w => match body w with
           | (Ok a, w') => (Ok a, w')
           | (Raise e, w') =>
               match handler e with
               | Some h => h w'
               | None => (Raise e, w')
               end
           end.

(** A pure Python operation that can raise. *)
Definition lift {S A} (r : result A) : M S A := fun w => (r, w).

Definition exn_of {A} (r : result A) : option exn :=
  match r with Ok _ => None | Raise e => Some e end.

(** A library call: runs on the outside world and is recorded. *)
Definition do_call {S A} (c : call) (op : S -> result A * S) : M S A :=
  fun w => let '(r, s') := op (ext w) in
           (r, World s' (log w) (trace w ++ [Event c (exn_of r)])).

(** A read of the outside world. *)
Definition query {S A} (q : S -> A) : M S A := fun w => (Ok (q (ext w)), w).

Definition logging {S} (l : level) (msg : string) : M S unit :=
  fun w => (Ok tt, World (ext w) (log w ++ [LogRecord l msg]) (trace w)).

Definition sys_exit {S A} (code : Z) : M S A := raise (SystemExit code).

Notation "'let*' x ':=' m 'in' k" := (bind m (fun x => k))
  (at level 10, x name, k at level 200).
Notation "m ';;;' k" := (bind m (fun _ => k))
  (at level 100, k at level 200, right associativity).

Fixpoint for_each {S A} (l : list A) (body : A -> M S unit) : M S unit :=
  match l with
  | [] => ret tt
  | x :: l' => body x ;;; for_each l' body
  end.

(** ** The script *)

Section Script.

Context {S : Type} `{PIL : Imaging S} `{Os : OS S}.

Import PyFloat.

Definition setup_logging (log_file : option string) (verbose : bool)
    : M S unit :=
  match log_file with
  | Some f =>
      if String.eqb f "" then ret tt
      else do_call (Call_FileHandler f) (FileHandler f)
  | None => ret tt
  end.

Definition adjust_opacity (im : image) (opacity : float) : M S image :=
  try_except
    (if le zero opacity && le opacity one then ret tt
     else raise (AssertionError "Opacity must be between 0 and 1."))
    (fun e => match e with
              | AssertionError _ => Some (logging ERROR (str_exn e) ;;; sys_exit 1)
              | _ => None
              end) ;;;
  let* im :=
    (if negb (String.eqb (im_mode im) "RGBA") then
       let* im' := do_call (Call_convert "RGBA") (Image_convert im "RGBA") in
       logging DEBUG "Converted watermark image to RGBA mode for opacity adjustment." ;;;
       ret im'
     else ret im) in
  let* bands := do_call Call_split (Image_split im) in
  match bands with
  | [r; g; b; alpha] =>
      let* alpha := do_call (Call_enhance opacity) (Brightness_enhance alpha opacity) in
      let* im := do_call (Call_merge "RGBA") (Image_merge "RGBA" [r; g; b; alpha]) in
      logging DEBUG "Adjusted watermark opacity." ;;;
      ret im
  | _ => raise (ValueError "wrong number of values to unpack")
  end.

Definition parse_arguments : M S Namespace :=
  do_call Call_parse_args parse_args.

Definition validate_arguments (args : Namespace) : M S unit :=
  let* isdir := query (os_path_isdir (source_dir args)) in
  (if negb isdir then
     logging ERROR ("Source directory '" +:+ source_dir args
                    +:+ "' does not exist or is not a directory.") ;;;
     sys_exit 1
   else ret tt) ;;;
  let* isfile := query (os_path_isfile (watermark args)) in
  (if negb isfile then
     logging ERROR ("Watermark image '" +:+ watermark args
                    +:+ "' does not exist or is not a file.") ;;;
     sys_exit 1
   else ret tt) ;;;
  (if negb (le zero (opacity args) && le (opacity args) one) then
     logging ERROR "Opacity must be between 0 and 1." ;;; sys_exit 1
   else ret tt) ;;;
  (if negb (lt zero (size args) && le (size args) one) then
     logging ERROR "Size must be between 0 and 1." ;;; sys_exit 1
   else ret tt) ;;;
  logging DEBUG "All arguments validated successfully.".

Definition load_watermark (watermark_path : string) (opacity : float)
    : M S image :=
  let* watermark :=
    try_except
      (let* watermark := do_call (Call_open watermark_path) (Image_open watermark_path) in
       logging DEBUG ("Watermark image '" +:+ watermark_path +:+ "' loaded successfully.") ;;;
       ret watermark)
      (fun e => match e with
                | FileNotFoundError =>
                    Some (logging ERROR ("Watermark image '" +:+ watermark_path +:+ "' not found.") ;;;
                          sys_exit 1)
                | UnidentifiedImageError =>
                    Some (logging ERROR ("Watermark image '" +:+ watermark_path
                                         +:+ "' is not a valid image file.") ;;;
                          sys_exit 1)
                | _ =>
                    if is_Exception e then
                      Some (logging ERROR ("Unexpected error loading watermark image: " +:+ str_exn e) ;;;
                            sys_exit 1)
                    else None
                end) in
  adjust_opacity watermark opacity.

Definition margin : Z := 10.

Definition get_watermark_position (position : string) (image_size watermark_size : Z * Z)
    : M S (Z * Z) :=
  let '(im_width, im_height) := image_size in
  let '(wm_width, wm_height) := watermark_size in
  if String.eqb position "top-left" then
    ret (margin, margin)
  else if String.eqb position "top-right" then
    ret (im_width - wm_width - margin, margin)
  else if String.eqb position "bottom-left" then
    ret (margin, im_height - wm_height - margin)
  else if String.eqb position "bottom-right" then
    ret (im_width - wm_width - margin, im_height - wm_height - margin)
  else if String.eqb position "center" then
    ret ((im_width - wm_width) / 2, (im_height - wm_height) / 2)
  else
    logging WARNING ("Unknown position '" +:+ position +:+ "'. Defaulting to bottom-right.") ;;;
    ret (im_width - wm_width - margin, im_height - wm_height - margin).

Definition non_alpha_formats : list string := ["JPEG"; "JPG"; "BMP"; "WEBP"].

(** [original_format.upper()]; the format of an image that was not read
    from a file is [None]. *)
Definition format_upper (original_format : option string) : result string :=
  match original_format with
  | Some f => Ok (PyStr.upper f)
  | None => Raise (AttributeError "'NoneType' object has no attribute 'upper'")
  end.

(** The body of the [try] block of [process_image]. *)
Definition process_image_body (image_path : string) (watermark : image)
    (args : Namespace) : M S unit :=
  let* im := do_call (Call_open image_path) (Image_open image_path) in
  logging DEBUG ("Opened image '" +:+ image_path +:+ "'.") ;;;
  let original_mode := im_mode im in
  let original_format := im_format im in
  let* im := do_call Call_exif_transpose (ImageOps_exif_transpose im) in
  logging DEBUG ("Applied EXIF orientation to image '" +:+ image_path +:+ "'.") ;;;
  let '(im_width, im_height) := im_size im in
  let wm_ratio := size args in
  let* prod := lift (int_mul_float im_width wm_ratio) in
  let* wm_width := lift (int_of_float prod) in
  if Z.eqb wm_width 0 then
    logging WARNING ("Calculated watermark width is 0 for image '" +:+ image_path
                     +:+ "'. Skipping.")
  else
    let* fw := lift (float_of_int (fst (im_size watermark))) in
    let* w_percent := lift (int_truediv_float wm_width fw) in
    let* fh := lift (float_of_int (snd (im_size watermark))) in
    let* wm_height := lift (int_of_float (mul fh w_percent)) in
    let* wm_resized :=
      do_call (Call_resize (wm_width, wm_height))
              (Image_resize watermark (wm_width, wm_height)) in
    logging DEBUG ("Resized watermark to " +:+ PyStr.repr_pair (wm_width, wm_height) +:+ ".") ;;;
    let* position := get_watermark_position (position args) (im_size im) (im_size wm_resized) in
    logging DEBUG ("Watermark position for image '" +:+ image_path +:+ "': "
                   +:+ PyStr.repr_pair position +:+ ".") ;;;
    let* im :=
      (if negb (String.eqb (im_mode im) "RGBA") then
         let* im' := do_call (Call_convert "RGBA") (Image_convert im "RGBA") in
         logging DEBUG ("Converted image '" +:+ image_path +:+ "' to RGBA mode.") ;;;
         ret im'
       else ret im) in
    let* layer := do_call (Call_new "RGBA" (im_size im))
                          (Image_new "RGBA" (im_size im) (0, 0, 0, 0)) in
    let* layer := do_call (Call_paste position) (Image_paste layer wm_resized position) in
    logging DEBUG "Pasted resized watermark onto transparent layer." ;;;
    let* watermarked := do_call Call_alpha_composite (Image_alpha_composite im layer) in
    logging DEBUG "Composited watermark with the original image." ;;;
    let* fmt := lift (format_upper original_format) in
    let* watermarked :=
      (if PyStr.str_in fmt non_alpha_formats then
         let* wm' := do_call (Call_convert "RGB") (Image_convert watermarked "RGB") in
         logging DEBUG ("Converted watermarked image to 'RGB' mode for format '"
                        +:+ default "None" original_format +:+ "'.") ;;;
         ret wm'
       else if negb (String.eqb original_mode "RGBA") then
         let* wm' := do_call (Call_convert original_mode)
                             (Image_convert watermarked original_mode) in
         logging DEBUG ("Converted watermarked image back to original mode '"
                        +:+ original_mode +:+ "'.") ;;;
         ret wm'
       else ret watermarked) in
    let* cwd := query os_getcwd in
    let* relative_path :=
      lift (posixpath.relpath cwd (posixpath.dirname image_path) (source_dir args)) in
    let dest_path := posixpath.join (dest_dir args) relative_path in
    do_call (Call_makedirs dest_path true) (os_makedirs dest_path true) ;;;
    let dest_image_path := posixpath.join dest_path (posixpath.basename image_path) in
    logging DEBUG ("Destination path for watermarked image: '" +:+ dest_image_path +:+ "'.") ;;;
    do_call (Call_save dest_image_path original_format (im_mode watermarked))
            (Image_save watermarked dest_image_path original_format) ;;;
    logging INFO ("Saved watermarked image to: " +:+ dest_image_path).

Definition process_image_handler (image_path : string) (e : exn)
    : option (M S unit) :=
  match e with
  | UnidentifiedImageError =>
      Some (logging ERROR ("File '" +:+ image_path
                           +:+ "' is not a valid image or is corrupted."))
  | PermissionError =>
      Some (logging ERROR ("Permission denied when processing '" +:+ image_path +:+ "'."))
  | _ =>
      if is_Exception e then
        Some (logging ERROR ("Unexpected error processing image '" +:+ image_path
                             +:+ "': " +:+ str_exn e))
      else None
  end.

Definition process_image (image_path : string) (watermark : image)
    (args : Namespace) : M S unit :=
  try_except (process_image_body image_path watermark args)
             (process_image_handler image_path).

Definition IMAGE_EXTENSIONS : list string :=
  [".jpg"; ".jpeg"; ".png"; ".gif"; ".bmp"; ".tiff"; ".webp"].

(** The body of the inner loop of [main], for one file name of one
    directory. *)
Definition visit_file (watermark : image) (args : Namespace)
    (root file : string) : M S unit :=
  if PyStr.endswith_any (PyStr.lower file) IMAGE_EXTENSIONS then
    let image_path := posixpath.join root file in
    logging DEBUG ("Found image: '" +:+ image_path +:+ "'.") ;;;
    process_image image_path watermark args
  else
    logging DEBUG ("Skipped non-image file: '" +:+ posixpath.join root file +:+ "'.").

(** The two nested [for] loops of [main], over what [os.walk] yields. *)
Definition walk_loop (watermark : image) (args : Namespace)
    (triples : list (string * list string * list string)) : M S unit :=
  for_each triples (fun '(root, dirs, files) =>
    for_each files (visit_file watermark args root)).

Definition main : M S unit :=
  let* args := parse_arguments in
  setup_logging (log_file args) (verbose args) ;;;
  logging DEBUG "Logging is set up." ;;;
  validate_arguments args ;;;
  let* watermark := load_watermark (watermark args) (opacity args) in
  logging INFO ("Starting processing images from '" +:+ source_dir args
                +:+ "' to '" +:+ dest_dir args +:+ "'.") ;;;
  let* triples := query (os_walk (source_dir args)) in
  walk_loop watermark args triples ;;;
  logging INFO "Watermarking process completed.".

(** What [main] does after the command line is parsed and logging is set
    up: the same statements, named for the statements about them. *)
Definition main_rest (args : Namespace) : M S unit :=
  validate_arguments args ;;;
  let* watermark := load_watermark (watermark args) (opacity args) in
  logging INFO ("Starting processing images from '" +:+ source_dir args
                +:+ "' to '" +:+ dest_dir args +:+ "'.") ;;;
  let* triples := query (os_walk (source_dir args)) in
  walk_loop watermark args triples ;;;
  logging INFO "Watermarking process completed.".

(** The [if __name__ == '__main__'] block. *)
Definition script : M S unit :=
  try_except main
    (fun e => match e with
              | KeyboardInterrupt =>
                  Some (logging WARNING "Script interrupted by user." ;;; sys_exit 1)
              | _ =>
                  if is_Exception e then
                    Some (logging CRITICAL ("An unexpected error occurred: " +:+ str_exn e) ;;;
                          sys_exit 1)
                  else None
              end).

(** The exit status of the interpreter: 0 when the script runs to its end,
    the code of an escaping [SystemExit] otherwise. *)
Definition exit_status (r : result unit) : Z :=
  match r with
  | Ok _ => 0
  | Raise (SystemExit code) => code
  | Raise KeyboardInterrupt => 130
  | Raise _ => 1
  end.

End Script.

(** ** Definitions that follow the wording of the specification *)

Module Spec.

(** The extension of a file name: its suffix from the last dot on, empty
    when the name has no dot. *)
Fixpoint extension_from (s : string) : option string :=
  match s with
  | EmptyString => None
  | String c s' =>
      match extension_from s' with
      | Some e => Some e
      | None => if Ascii.eqb c "."%char then Some s else None
      end
  end.

Definition extension (name : string) : string :=
  default EmptyString (extension_from name).

Definition allowed_extensions : list string :=
  [".jpg"; ".jpeg"; ".png"; ".gif"; ".bmp"; ".tiff"; ".webp"].

(** The extension, compared case-insensitively, is on the allow-list. *)
Definition extension_allowed (name : string) : bool :=
  PyStr.str_in (PyStr.lower (extension name)) allowed_extensions.

(** A string without a dot. *)
Fixpoint dotless (s : string) : bool :=
  match s with
  | EmptyString => true
  | String c s' => negb (Ascii.eqb c "."%char) && dotless s'
  end.

(** The five position names. *)
Definition known_positions : list string :=
  ["top-left"; "top-right"; "bottom-left"; "bottom-right"; "center"].

(** The arguments pass validation: the source root is a directory, the
    watermark is a file, the opacity is in [0, 1] and the size in (0, 1]. *)
Definition args_valid {S} `{OS S} (args : Namespace) (s : S) : bool :=
  os_path_isdir (source_dir args) s
  && os_path_isfile (watermark args) s
  && (PyFloat.le PyFloat.zero (opacity args) && PyFloat.le (opacity args) PyFloat.one)
  && (PyFloat.lt PyFloat.zero (size args) && PyFloat.le (size args) PyFloat.one).

(** [floor(x)] for a finite float [x]. *)
Definition floor (x : PyFloat.float) : option Z :=
  match x with
  | S754_zero _ => Some 0
  | S754_finite s m e => Some (Z.shiftl (cond_Zopp s (Z.pos m)) e)
  | _ => None
  end.

End Spec.

(** ** Reasoning about runs

    [wp m Q w]: running [m] from the world [w] ends in a result and a world
    that satisfy [Q].  [extends w w' P]: the trace of [w'] is the trace of
    [w] followed by events that all satisfy [P]. *)

Definition wp {S A} (m : M S A) (Q : result A -> world S -> Prop)
    (w : world S) : Prop :=
  Q (fst (m w)) (snd (m w)).

Definition new_events {S} (w w' : world S) : list event :=
  drop (length (trace w)) (trace w').

Definition new_log {S} (w w' : world S) : list log_record :=
  drop (length (log w)) (log w').

Definition extends {S} (w w' : world S) : Prop :=
  trace w' = (trace w ++ new_events w w')%list
  /\ log w' = (log w ++ new_log w w')%list.

(** The paths that the recorded calls to [Image.open] were given, and the
    paths of the calls to [save] that returned. *)
Fixpoint opened_paths (evs : list event) : list string :=
  match evs with
  | [] => []
  | Event (Call_open p) _ :: evs' => p :: opened_paths evs'
  | _ :: evs' => opened_paths evs'
  end.

Fixpoint saved_paths (evs : list event) : list string :=
  match evs with
  | [] => []
  | Event (Call_save p _ _) None :: evs' => p :: saved_paths evs'
  | _ :: evs' => saved_paths evs'
  end.

(** The image paths that the walk selects: for every triple that [os.walk]
    yields, the files whose extension is on the allow-list, joined to the
    directory of the triple. *)
Definition selected_in (root : string) (files : list string) : list string :=
  flat_map (fun file => if Spec.extension_allowed file
                        then [posixpath.join root file] else []) files.

Definition selected_paths (triples : list (string * list string * list string))
    : list string :=
  flat_map (fun '(root, _, files) => selected_in root files) triples.

(** [dest_image_path] is where [process_image] writes [image_path]: the
    destination root, joined with the directory of the image relative to
    the source root, joined with the name of the image. *)
Definition mirrors (args : Namespace) (image_path dest_image_path : string)
    : Prop :=
  exists cwd rel,
    posixpath.relpath cwd (posixpath.dirname image_path) (source_dir args) = Ok rel
    /\ dest_image_path
       = posixpath.join (posixpath.join (dest_dir args) rel)
                        (posixpath.basename image_path).

(** What a part of the walk that is to process [paths] does: it opens a
    prefix of [paths] (all of them when it ends normally), every file it
    saves mirrors one of them, and only an exception of the library that is
    not an [Exception] ends it early. *)
Definition run_post {S} (args : Namespace) (paths : list string)
    (w : world S) (r : result unit) (w' : world S) : Prop :=
  extends w w'
  /\ (exists rest, paths = (opened_paths (new_events w w') ++ rest)%list)
  /\ (r = Ok tt -> opened_paths (new_events w w') = paths)
  /\ (forall d, In d (saved_paths (new_events w w')) ->
        exists p, In p paths /\ mirrors args p d)
  /\ (forall e, r = Raise e ->
        is_Exception e = false
        /\ exists c, In (Event c (Some e)) (new_events w w')).

(** Where an exception that leaves a part of the script can come from: the
    script's own [sys.exit(1)], an [Exception], or a library call recorded
    in the trace. *)
Definition known_exits {S A} (w : world S) (r : result A) (w' : world S)
    : Prop :=
  extends w w'
  /\ forall e, r = Raise e ->
       e = SystemExit 1 \/ is_Exception e = true
       \/ exists c, In (Event c (Some e)) (new_events w w').

(** The library never raises [KeyboardInterrupt] or [SystemExit] in this
    run: no call recorded in the list ended in one. *)
Definition no_interrupt (evs : list event) : Prop :=
  Forall (fun ev => match ev_raised ev with
                    | Some e => is_Exception e = true
                    | None => True
                    end) evs.

(** *** Paths

    A name as [os.walk] yields them for the entries of a directory: not
    empty, not [.] or [..], without ['/']. *)
Definition sep_free (s : string) : bool :=
  forallb (fun c => negb (Ascii.eqb c posixpath.sep)) (list_ascii_of_string s).

Definition name_ok (f : string) : bool :=
  negb (String.eqb f "") && negb (String.eqb f ".") && negb (String.eqb f "..")
  && sep_free f.

(** The loop of [normpath] over the components of [p], started with
    [new_comps = acc] (in reverse order, as in [normpath_step]). *)
Definition walk_comps (initial_slashes : bool) (p : string) (acc : list string)
    : list string :=
  fold_left (posixpath.normpath_step initial_slashes) (posixpath.split_sep p) acc.

(** The components of the absolute form of [p], as [relpath] compares
    them. *)
Definition components (cwd p : string) : list string :=
  posixpath.nonempty_comps (posixpath.abspath cwd p).

(** The relative path with the components [l]. *)
Definition render_rel (l : list string) : string :=
  match l with
  | [] => posixpath.curdir
  | _ => posixpath.join_list l
  end.

(** An operation that neither reads nor changes the state. *)
Definition stateless {S A} (op : S -> result A * S) : Prop :=
  forall s t, op t = (fst (op s), t).

(** ** A reference implementation of the interface

    A small in-memory file system with image headers (mode, format, size).
    It follows what Pillow and [os] do on the points the script relies on:
    [resize] rejects an empty target size, [makedirs] creates the missing
    ancestors, [save] needs an existing, writable directory. *)

Module Sim.

Record sim_image : Type := SimImage {
  s_mode : string;
  s_format : option string;
  s_size : Z * Z
}.

Inductive node : Type :=
| ImageFile (im : sim_image)
| DataFile.

Record state : Type := State {
  cwd : string;
  dirs : gset string;
  files : gmap string node;
  readonly : gset string;
  argv : result Namespace;
  listing : list (string * list string * list string)
}.

Definition resolve (s : state) (p : string) : string :=
  posixpath.abspath (cwd s) p.

Definition set_dirs (s : state) (d : gset string) : state :=
  State (cwd s) d (files s) (readonly s) (argv s) (listing s).

Definition set_files (s : state) (f : gmap string node) : state :=
  State (cwd s) (dirs s) f (readonly s) (argv s) (listing s).

Definition is_dir (s : state) (a : string) : bool := bool_decide (a ∈ dirs s).
Definition is_file (s : state) (a : string) : bool :=
  match files s !! a with Some _ => true | None => false end.

Definition sim_open (p : string) (s : state) : result sim_image * state :=
  match files s !! resolve s p with
  | Some (ImageFile im) =>
      if bool_decide (posixpath.dirname (resolve s p) ∈ readonly s)
      then (Raise PermissionError, s) else (Ok im, s)
  | Some DataFile => (Raise UnidentifiedImageError, s)
  | None =>
      if is_dir s (resolve s p) then (Raise (OSError "Is a directory"), s)
      else (Raise FileNotFoundError, s)
  end.

Definition sim_exif_transpose (im : sim_image) (s : state)
    : result sim_image * state :=
  (Ok (SimImage (s_mode im) None (s_size im)), s).

Definition sim_resize (im : sim_image) (sz : Z * Z) (s : state)
    : result sim_image * state :=
  if (fst sz <? 1) || (snd sz <? 1)
  then (Raise (ValueError "height and width must be > 0"), s)
  else (Ok (SimImage (s_mode im) None sz), s).

Definition sim_convert (im : sim_image) (mode : string) (s : state)
    : result sim_image * state :=
  (Ok (SimImage mode None (s_size im)), s).

Definition sim_new (mode : string) (sz : Z * Z) (color : Z * Z * Z * Z)
    (s : state) : result sim_image * state :=
  (Ok (SimImage mode None sz), s).

Definition sim_paste (layer im : sim_image) (box : Z * Z) (s : state)
    : result sim_image * state :=
  (Ok layer, s).

Definition sim_alpha_composite (im1 im2 : sim_image) (s : state)
    : result sim_image * state :=
  if String.eqb (s_mode im1) "RGBA" && String.eqb (s_mode im2) "RGBA"
     && Z.eqb (fst (s_size im1)) (fst (s_size im2))
     && Z.eqb (snd (s_size im1)) (snd (s_size im2))
  then (Ok (SimImage "RGBA" None (s_size im1)), s)
  else (Raise (ValueError "images do not match"), s).

Definition bands_of_mode (mode : string) : nat :=
  if String.eqb mode "RGBA" then 4
  else if String.eqb mode "RGB" then 3
  else if String.eqb mode "LA" then 2
  else 1.

Definition sim_split (im : sim_image) (s : state)
    : result (list sim_image) * state :=
  (Ok (repeat (SimImage "L" None (s_size im)) (bands_of_mode (s_mode im))), s).

Definition sim_enhance (im : sim_image) (factor : PyFloat.float) (s : state)
    : result sim_image * state :=
  (Ok im, s).

Definition sim_merge (mode : string) (bands : list sim_image) (s : state)
    : result sim_image * state :=
  match bands with
  | b :: _ =>
      if Nat.eqb (length bands) (bands_of_mode mode)
      then (Ok (SimImage mode None (s_size b)), s)
      else (Raise (ValueError "wrong number of bands"), s)
  | [] => (Raise (ValueError "wrong number of bands"), s)
  end.

Definition sim_save (im : sim_image) (p : string) (format : option string)
    (s : state) : result unit * state :=
  let a := resolve s p in
  let parent := posixpath.dirname a in
  match format with
  | None => (Raise (ValueError "unknown file extension"), s)
  | Some f =>
      if negb (is_dir s parent) then (Raise FileNotFoundError, s)
      else if bool_decide (parent ∈ readonly s) then (Raise PermissionError, s)
      else if is_dir s a then (Raise (OSError "Is a directory"), s)
      else if String.eqb (PyStr.upper f) "JPEG" && String.eqb (s_mode im) "RGBA"
      then (Raise (OSError "cannot write mode RGBA as JPEG"), s)
      else (Ok tt, set_files s (<[a := ImageFile (SimImage (s_mode im) format (s_size im))]> (files s)))
  end.

(** The proper ancestors of an absolute path, nearest first. *)
Fixpoint ancestors (fuel : nat) (a : string) : list string :=
  match fuel with
  | O => []
  | Datatypes.S fuel' =>
      let d := posixpath.dirname a in
      if String.eqb d a then [] else d :: ancestors fuel' d
  end.

Definition sim_makedirs (p : string) (exist_ok : bool) (s : state)
    : result unit * state :=
  let a := resolve s p in
  if is_dir s a then
    (if exist_ok then (Ok tt, s) else (Raise FileExistsError, s))
  else if is_file s a then (Raise FileExistsError, s)
  else
    let anc := ancestors (String.length a) a in
    if existsb (is_file s) anc then (Raise (OSError "Not a directory"), s)
    else
      match filter (fun d => is_dir s d = true) anc with
      | d :: _ =>
          if bool_decide (d ∈ readonly s) then (Raise PermissionError, s)
          else (Ok tt, set_dirs s ({[ a ]} ∪ list_to_set anc ∪ dirs s))
      | [] => (Ok tt, set_dirs s ({[ a ]} ∪ list_to_set anc ∪ dirs s))
      end.

Definition sim_FileHandler (f : string) (s : state) : result unit * state :=
  let a := resolve s f in
  if negb (is_dir s (posixpath.dirname a)) then (Raise FileNotFoundError, s)
  else if is_file s a then (Ok tt, s)
  else (Ok tt, set_files s (<[a := DataFile]> (files s))).

#[global] Instance sim_Imaging : Imaging state := {
  image := sim_image;
  im_mode := s_mode;
  im_format := s_format;
  im_size := s_size;
  Image_open := sim_open;
  ImageOps_exif_transpose := sim_exif_transpose;
  Image_resize := sim_resize;
  Image_convert := sim_convert;
  Image_new := sim_new;
  Image_paste := sim_paste;
  Image_alpha_composite := sim_alpha_composite;
  Image_split := sim_split;
  Brightness_enhance := sim_enhance;
  Image_merge := sim_merge;
  Image_save := sim_save
}.

#[global] Instance sim_OS : OS state := {
  parse_args := fun s => (argv s, s);
  FileHandler := sim_FileHandler;
  os_path_isdir := fun p s => is_dir s (resolve s p);
  os_path_isfile := fun p s => is_file s (resolve s p);
  os_getcwd := cwd;
  os_walk := fun top s => if is_dir s (resolve s top) then listing s else [];
  os_makedirs := sim_makedirs
}.

Definition start (s : state) : world state := World s [] [].

End Sim.

(** ** Pixels: the band operations of Pillow

    Images with 8-bit bands in the modes L, LA, RGB and RGBA, as lists of
    pixels.  [Brightness(band).enhance(factor)] is Pillow's
    [Image.blend(black, band, factor)]; libImaging blends in C single
    precision, [(UINT8)(in1 + alpha * (in2 - in1))], copying an operand when
    [alpha] is 0 or 1 and clipping when it is outside [0, 1]. *)

Module Pixel.

Import PyFloat.

Definition prec32 : Z := 24.
Definition emax32 : Z := 128.

Record pix_image : Type := PixImage {
  p_mode : string;
  p_size : Z * Z;
  p_data : list (list Z)
}.

(** The C cast [(float)x] of a double. *)
Definition single_of_double (x : float) : float :=
  match x with
  | S754_finite s m e => binary_round prec32 emax32 s m e
  | _ => x
  end.

Definition single_of_int (n : Z) : float :=
  binary_normalize prec32 emax32 n 0 false.

Definition one32 : float := S754_finite false 8388608 (-23).

(** The C cast [(UINT8)x] of a float in range. *)
Definition uint8_of_single (x : float) : Z :=
  match x with
  | S754_finite false m e => Z.shiftl (Z.pos m) e
  | _ => 0
  end.

(** [in1 + alpha * (in2 - in1)], in single precision. *)
Definition blend_value (alpha : float) (in1 in2 : Z) : float :=
  SFadd prec32 emax32 (single_of_int in1)
        (SFmul prec32 emax32 alpha (single_of_int (in2 - in1))).

Definition interpolate (alpha : float) (in1 in2 : Z) : Z :=
  uint8_of_single (blend_value alpha in1 in2).

Definition extrapolate (alpha : float) (in1 in2 : Z) : Z :=
  let temp := blend_value alpha in1 in2 in
  if SFleb temp zero then 0
  else if SFleb (single_of_int 255) temp then 255
  else uint8_of_single temp.

Fixpoint zip_with {A B C} (f : A -> B -> C) (l1 : list A) (l2 : list B)
    : list C :=
  match l1, l2 with
  | x :: l1', y :: l2' => f x y :: zip_with f l1' l2'
  | _, _ => []
  end.

(** [ImagingBlend(imIn1, imIn2, alpha)] on the pixel data. *)
Definition ImagingBlend (in1 in2 : list (list Z)) (alpha : float)
    : list (list Z) :=
  if SFeqb alpha zero then in1
  else if SFeqb alpha one32 then in2
  else if SFleb zero alpha && SFleb alpha one32
  then zip_with (zip_with (interpolate alpha)) in1 in2
  else zip_with (zip_with (extrapolate alpha)) in1 in2.

(** What the blend makes of one value [a] of an L band against black, the
    degenerate image of [Brightness] for such a band. *)
Definition blend_band (alpha : float) (a : Z) : Z :=
  if SFeqb alpha zero then 0
  else if SFeqb alpha one32 then a
  else if SFleb zero alpha && SFleb alpha one32 then interpolate alpha 0 a
  else extrapolate alpha 0 a.

Definition has_alpha (mode : string) : bool :=
  String.eqb mode "RGBA" || String.eqb mode "LA".

Definition bands_of_mode (mode : string) : option nat :=
  if String.eqb mode "RGBA" then Some 4%nat
  else if String.eqb mode "RGB" then Some 3%nat
  else if String.eqb mode "LA" then Some 2%nat
  else if String.eqb mode "L" then Some 1%nat
  else None.

(** The degenerate image of [ImageEnhance.Brightness]: black, with the alpha
    band of the image when it has one. *)
Definition degenerate_pixel (mode : string) (px : list Z) : list Z :=
  if has_alpha mode
  then (repeat 0 (length px - 1) ++ drop (length px - 1) px)%list
  else repeat 0 (length px).

Definition pix_enhance (im : pix_image) (factor : float) (s : unit)
    : result pix_image * unit :=
  (Ok (PixImage (p_mode im) (p_size im)
         (ImagingBlend (map (degenerate_pixel (p_mode im)) (p_data im))
                       (p_data im) (single_of_double factor))), s).

Definition to_RGBA (mode : string) (px : list Z) : list Z :=
  match px with
  | [l] => [l; l; l; 255]
  | [l; a] => [l; l; l; a]
  | [r; g; b] => [r; g; b; 255]
  | _ => px
  end.

Definition pix_convert (im : pix_image) (mode : string) (s : unit)
    : result pix_image * unit :=
  if String.eqb mode (p_mode im) then (Ok im, s)
  else if String.eqb mode "RGBA" then
    match bands_of_mode (p_mode im) with
    | Some _ => (Ok (PixImage "RGBA" (p_size im) (map (to_RGBA (p_mode im)) (p_data im))), s)
    | None => (Raise (ValueError "conversion not supported"), s)
    end
  else (Raise (ValueError "conversion not supported"), s).

(** Band [i] of every pixel, as an L image. *)
Definition getband (im : pix_image) (i : nat) : pix_image :=
  PixImage "L" (p_size im) (map (fun px => [nth i px 0]) (p_data im)).

Definition pix_split (im : pix_image) (s : unit)
    : result (list pix_image) * unit :=
  match bands_of_mode (p_mode im) with
  | Some n => (Ok (map (getband im) (seq 0 n)), s)
  | None => (Raise (ValueError "unsupported mode"), s)
  end.

(** The pixels of a merge: one value from each band, in order. *)
Fixpoint merge_data (bands : list (list (list Z))) : list (list Z) :=
  match bands with
  | [] => []
  | [b] => b
  | b :: rest => zip_with (fun px py => (px ++ py)%list) b (merge_data rest)
  end.

Definition same_size (b1 b2 : pix_image) : bool :=
  Z.eqb (fst (p_size b1)) (fst (p_size b2))
  && Z.eqb (snd (p_size b1)) (snd (p_size b2)).

Definition pix_merge (mode : string) (bands : list pix_image) (s : unit)
    : result pix_image * unit :=
  match bands with
  | [] => (Raise (ValueError "wrong number of bands"), s)
  | b :: _ =>
      if negb (match bands_of_mode mode with
               | Some n => Nat.eqb n (length bands)
               | None => false
               end)
      then (Raise (ValueError "wrong number of bands"), s)
      else if negb (forallb (fun x => String.eqb (p_mode x) "L") bands)
      then (Raise (ValueError "mode mismatch"), s)
      else if negb (forallb (same_size b) bands)
      then (Raise (ValueError "size mismatch"), s)
      else (Ok (PixImage mode (p_size b) (merge_data (map p_data bands))), s)
  end.

Definition unsupported {A} (s : unit) : result A * unit :=
  (Raise (OSError "outside the pixel model"), s).

#[global] Instance pix_Imaging : Imaging unit := {
  image := pix_image;
  im_mode := p_mode;
  im_format := fun _ => None;
  im_size := p_size;
  Image_open := fun _ => unsupported;
  ImageOps_exif_transpose := fun _ => unsupported;
  Image_resize := fun _ _ => unsupported;
  Image_convert := pix_convert;
  Image_new := fun _ _ _ => unsupported;
  Image_paste := fun _ _ _ => unsupported;
  Image_alpha_composite := fun _ _ => unsupported;
  Image_split := pix_split;
  Brightness_enhance := pix_enhance;
  Image_merge := pix_merge;
  Image_save := fun _ _ _ => unsupported
}.

(** Well-formed images of the model: a supported mode, as many pixels as
    the size says, every pixel with the bands of the mode, every band value
    a byte. *)
Definition byte_range (v : Z) : bool := (0 <=? v) && (v <=? 255).

Definition wf_image (im : pix_image) : bool :=
  match bands_of_mode (p_mode im) with
  | Some n =>
      Z.eqb (Z.of_nat (length (p_data im))) (fst (p_size im) * snd (p_size im))
      && forallb (fun px => Nat.eqb (length px) n && forallb byte_range px)
                 (p_data im)
  | None => false
  end.

(** The alpha band and the colour bands of an RGBA pixel. *)
Definition alpha_of (px : list Z) : Z := nth 3 px 0.
Definition rgb_of (px : list Z) : list Z := take 3 px.

(** An RGBA pixel with its alpha value blended against black. *)
Definition scale_alpha (alpha : float) (px : list Z) : list Z :=
  [nth 0 px 0; nth 1 px 0; nth 2 px 0; blend_band alpha (nth 3 px 0)].

End Pixel.

(** ** Concrete runs on the reference implementation *)

Module Scenario.

Import Sim.

(** The doubles nearest to 0.2, 0.5 and 0.3, and 2^-10. *)
Definition f02 : PyFloat.float := S754_finite false 7205759403792794 (-55).
Definition f05 : PyFloat.float := S754_finite false 4503599627370496 (-53).
Definition f03 : PyFloat.float := S754_finite false 5404319552844595 (-54).
Definition tiny : PyFloat.float := S754_finite false 4503599627370496 (-62).

Definition args0 : Namespace :=
  mkNamespace "/src" "/dest" "/wm.png" f05 "bottom-right" f02 None false.

(** A source tree with two images, a corrupt image and a text file. *)
Definition tree : gmap string node :=
  <[ "/src/a.png" := ImageFile (SimImage "RGBA" (Some "PNG") (500, 300)) ]>
  (<[ "/src/sub/b.jpg" := ImageFile (SimImage "L" (Some "JPEG") (640, 480)) ]>
  (<[ "/src/bad.png" := DataFile ]>
  (<[ "/src/readme.txt" := DataFile ]>
  (<[ "/wm.png" := ImageFile (SimImage "RGB" (Some "PNG") (100, 100)) ]> ∅)))).

Definition state0 : state :=
  State "/home" {[ "/"; "/home"; "/src"; "/src/sub" ]} tree ∅ (Ok args0)
        [("/src", ["sub"], ["a.png"; "bad.png"; "readme.txt"]);
         ("/src/sub", [], ["b.jpg"])].

Definition w0 : world state := start state0.

(** The watermark as [load_watermark] leaves it. *)
Definition overlay : @image state sim_Imaging :=
  SimImage "RGBA" None (100, 100).

(** An overlay much wider than high, and a run with it. *)
Definition wide_overlay : @image state sim_Imaging :=
  SimImage "RGBA" None (1000, 1).

(** A size fraction so small that the watermark would be 0 pixels wide. *)
Definition args_tiny : Namespace :=
  mkNamespace "/src" "/dest" "/wm.png" f05 "bottom-right" tiny None false.


(** A log file in a directory that does not exist. *)
Definition args_log : Namespace :=
  mkNamespace "/src" "/dest" "/wm.png" f05 "bottom-right" f02
              (Some "/nolog/run.log") false.

Definition state_log : state :=
  State "/home" {[ "/"; "/home"; "/src"; "/src/sub" ]} tree ∅ (Ok args_log)
        [("/src", ["sub"], ["a.png"; "bad.png"; "readme.txt"]);
         ("/src/sub", [], ["b.jpg"])].

(** A command line that [argparse] refuses. *)
Definition state_usage : state :=
  State "/home" {[ "/"; "/home" ]} ∅ ∅ (Raise (SystemExit 2)) [].

(** The same tree, run with the tiny size fraction. *)
Definition state_tiny : state :=
  State "/home" {[ "/"; "/home"; "/src"; "/src/sub" ]} tree ∅ (Ok args_tiny)
        [("/src", ["sub"], ["a.png"; "bad.png"; "readme.txt"]);
         ("/src/sub", [], ["b.jpg"])].

(** An image 10 pixels wide, and a run over it with the size 0.3. *)
Definition narrow : @image state sim_Imaging :=
  SimImage "RGB" (Some "PNG") (10, 10).

Definition args_03 : Namespace :=
  mkNamespace "/src" "/dest" "/wm.png" f05 "bottom-right" f03 None false.

Definition state_narrow : state :=
  State "/home" {[ "/"; "/home"; "/src" ]}
        (<[ "/src/n.png" := ImageFile narrow ]>
         (<[ "/wm.png" := ImageFile (SimImage "RGB" (Some "PNG") (100, 100)) ]> ∅))
        ∅ (Ok args_03) [("/src", [], ["n.png"])].

End Scenario.

(** * Properties *)

(** ** Rules for [wp] *)

Section WpRules.

Context {S : Type}.

Lemma world_eta (w : world S) : w = World (ext w) (log w) (trace w).
Proof. destruct w; reflexivity. Qed.

Lemma wp_elim {A} (m : M S A) Q w r w' :
  wp m Q w -> m w = (r, w') -> Q r w'.
Proof. unfold wp. intros HQ E. rewrite E in HQ. exact HQ. Qed.

Lemma wp_ret {A} (a : A) Q (w : world S) : Q (Ok a) w -> wp (ret a) Q w.
Proof. exact (fun H => H). Qed.

Lemma wp_raise {A} e (Q : result A -> world S -> Prop) w :
  Q (Raise e) w -> wp (raise e) Q w.
Proof. exact (fun H => H). Qed.

Lemma wp_lift {A} (r : result A) Q (w : world S) : Q r w -> wp (lift r) Q w.
Proof. exact (fun H => H). Qed.

Lemma wp_query {A} (q : S -> A) Q (w : world S) :
  Q (Ok (q (ext w))) w -> wp (query q) Q w.
Proof. exact (fun H => H). Qed.

Lemma wp_logging l msg Q (w : world S) :
  Q (Ok tt) (World (ext w) (log w ++ [LogRecord l msg]) (trace w)) ->
  wp (logging l msg) Q w.
Proof. exact (fun H => H). Qed.

Lemma wp_call {A} c (op : S -> result A * S) Q (w : world S) :
  (forall r s', op (ext w) = (r, s') ->
     Q r (World s' (log w) (trace w ++ [Event c (exn_of r)]))) ->
  wp (do_call c op) Q w.
Proof.
  unfold wp, do_call. intros HQ.
  destruct (op (ext w)) as [r s'] eqn:E. simpl. auto.
Qed.

Lemma wp_bind {A B} (m : M S A) (k : A -> M S B) Q w :
  wp m (fun r w1 => match r with
                    | Ok a => wp (k a) Q w1
                    | Raise e => Q (Raise e) w1
                    end) w ->
  wp (bind m k) Q w.
Proof. unfold wp, bind. destruct (m w) as [[a|e] w1]; simpl; auto. Qed.

Lemma wp_try {A} (body : M S A) handler Q w :
  wp body (fun r w1 => match r with
                       | Ok a => Q (Ok a) w1
                       | Raise e => match handler e with
                                    | Some h => wp h Q w1
                                    | None => Q (Raise e) w1
                                    end
                       end) w ->
  wp (try_except body handler) Q w.
Proof.
  unfold wp, try_except. destruct (body w) as [[a|e] w1]; simpl; auto.
  destruct (handler e); auto.
Qed.

Lemma wp_mono {A} (m : M S A) (Q Q' : result A -> world S -> Prop) w :
  wp m Q w -> (forall r w', Q r w' -> Q' r w') -> wp m Q' w.
Proof. unfold wp. auto. Qed.

Lemma wp_both {A} (m : M S A) (Q Q' : result A -> world S -> Prop) w :
  wp m Q w -> wp m Q' w -> wp m (fun r w' => Q r w' /\ Q' r w') w.
Proof. unfold wp. auto. Qed.

(** A loop keeps an invariant that every iteration keeps; an exception
    leaves the loop at once. *)
Lemma wp_for_each {A} (l : list A) (body : A -> M S unit)
    (I : world S -> Prop) (Q : result unit -> world S -> Prop) w :
  I w ->
  (forall x w1, In x l -> I w1 ->
     wp (body x) (fun r w2 => match r with
                              | Ok _ => I w2
                              | Raise e => Q (Raise e) w2
                              end) w1) ->
  (forall w2, I w2 -> Q (Ok tt) w2) ->
  wp (for_each l body) Q w.
Proof.
  revert w. induction l as [|x l IH]; intros w HI Hbody Hend.
  - apply Hend, HI.
  - simpl. apply wp_bind.
    eapply wp_mono; [apply (Hbody x w); [left; reflexivity | exact HI]|].
    intros [[]|e] w2 H2; [|exact H2].
    apply IH; auto. intros y w1 Hy. apply Hbody. right. exact Hy.
Qed.

Lemma drop_length_app {A} (l x : list A) : drop (length l) (l ++ x) = x.
Proof. induction l; simpl; auto. Qed.

Lemma new_events_app (w : world S) s l t :
  new_events w (World s l (trace w ++ t)) = t.
Proof. unfold new_events. simpl. apply drop_length_app. Qed.

Lemma new_log_app (w : world S) s l t :
  new_log w (World s (log w ++ l) t) = l.
Proof. unfold new_log. simpl. apply drop_length_app. Qed.

Lemma new_events_same (w : world S) s l :
  new_events w (World s l (trace w)) = [].
Proof. unfold new_events. simpl. apply drop_all. Qed.

Lemma new_log_same (w : world S) s t :
  new_log w (World s (log w) t) = [].
Proof. unfold new_log. simpl. apply drop_all. Qed.

Lemma extends_refl (w : world S) : extends w w.
Proof.
  unfold extends, new_events, new_log.
  rewrite !drop_all, !app_nil_r. auto.
Qed.

Lemma extends_trans (w w1 w2 : world S) :
  extends w w1 -> extends w1 w2 ->
  extends w w2
  /\ new_events w w2 = (new_events w w1 ++ new_events w1 w2)%list
  /\ new_log w w2 = (new_log w w1 ++ new_log w1 w2)%list.
Proof.
  intros [Ht1 Hl1] [Ht2 Hl2].
  assert (Ht : trace w2 = (trace w ++ (new_events w w1 ++ new_events w1 w2))%list)
    by (rewrite Ht2 at 1; rewrite Ht1 at 1; rewrite app_assoc; reflexivity).
  assert (Hl : log w2 = (log w ++ (new_log w w1 ++ new_log w1 w2))%list)
    by (rewrite Hl2 at 1; rewrite Hl1 at 1; rewrite app_assoc; reflexivity).
  assert (He : new_events w w2 = (new_events w w1 ++ new_events w1 w2)%list).
  { unfold new_events at 1. rewrite Ht. apply drop_length_app. }
  assert (Hg : new_log w w2 = (new_log w w1 ++ new_log w1 w2)%list).
  { unfold new_log at 1. rewrite Hl. apply drop_length_app. }
  repeat split; auto.
  - rewrite He. exact Ht.
  - rewrite Hg. exact Hl.
Qed.

Lemma extends_build (w : world S) s l t :
  extends w (World s (log w ++ l) (trace w ++ t)).
Proof.
  unfold extends. rewrite new_events_app, new_log_app. auto.
Qed.

(** The same rules for a world whose log and trace are written as initial
    lists followed by what the run has added so far. *)
Lemma wp_logging_acc lv msg Q (s : S) L l T t :
  Q (Ok tt) (World s (L ++ (l ++ [LogRecord lv msg])) (T ++ t)) ->
  wp (logging lv msg) Q (World s (L ++ l) (T ++ t)).
Proof. intros HQ. apply wp_logging. simpl. rewrite <- app_assoc. exact HQ. Qed.

Lemma wp_call_acc {A} c (op : S -> result A * S) Q (s : S) L l T t :
  (forall r s', op s = (r, s') ->
     Q r (World s' (L ++ l) (T ++ (t ++ [Event c (exn_of r)])))) ->
  wp (do_call c op) Q (World s (L ++ l) (T ++ t)).
Proof.
  intros HQ. apply wp_call. simpl. intros r s' E.
  rewrite <- app_assoc. auto.
Qed.

Lemma wp_start {A} (m : M S A) Q (w : world S) :
  wp m Q (World (ext w) (log w ++ []) (trace w ++ [])) -> wp m Q w.
Proof. rewrite !app_nil_r, <- (world_eta w). exact (fun H => H). Qed.

End WpRules.

Ltac wp_step :=
  lazymatch goal with
  | |- wp (bind _ _) _ _ => apply wp_bind
  | |- wp (ret _) _ _ => apply wp_ret
  | |- wp (raise _) _ _ => apply wp_raise
  | |- wp (sys_exit _) _ _ => apply wp_raise
  | |- wp (lift ?r) _ _ => apply wp_lift; destruct r as [?|?] eqn:?
  | |- wp (query _) _ _ => apply wp_query
  | |- wp (logging _ _) _ _ => apply wp_logging_acc
  | |- wp (do_call _ _) _ _ => apply wp_call_acc; intros [?|?] ? ?
  | |- wp (try_except _ _) _ _ => apply wp_try
  | |- wp (if ?b then _ else _) _ _ => destruct b eqn:?
  | |- wp (let '(_, _) := ?p in _) _ _ => destruct p as [? ?] eqn:?
  | |- wp (match ?p with (_, _) => _ end) _ _ => destruct p as [? ?] eqn:?
  end; cbn beta iota; cbn [ext exn_of app].

(** ** Python strings *)

Section Strings.

Lemma substring_0_length (s : string) : substring 0 (String.length s) s = s.
Proof. induction s; simpl; congruence. Qed.

Lemma substring_skip (p s : string) (m : nat) :
  substring (String.length p) m (p +:+ s) = substring 0 m s.
Proof. induction p; simpl; auto. Qed.

Lemma length_app_string (p s : string) :
  String.length (p +:+ s) = (String.length p + String.length s)%nat.
Proof. induction p; simpl; auto. Qed.

Lemma endswith_app (p suf : string) : PyStr.endswith (p +:+ suf) suf = true.
Proof.
  unfold PyStr.endswith. rewrite length_app_string.
  replace (String.length p + String.length suf - String.length suf)%nat
    with (String.length p) by lia.
  rewrite substring_skip, substring_0_length, String.eqb_refl.
  rewrite andb_true_r. apply Nat.leb_le. lia.
Qed.

Lemma substring_split (s : string) (k : nat) :
  (k <= String.length s)%nat ->
  s = substring 0 k s +:+ substring k (String.length s - k) s.
Proof.
  revert k. induction s as [|c s IH]; intros [|k] Hk; simpl in *; try lia.
  - reflexivity.
  - rewrite substring_0_length. reflexivity.
  - change (String c s
            = String c (substring 0 k s +:+ substring k (String.length s - k) s)).
    f_equal. apply IH. lia.
Qed.

Lemma endswith_inv (s suf : string) :
  PyStr.endswith s suf = true -> exists p, s = p +:+ suf.
Proof.
  unfold PyStr.endswith. intros H.
  apply andb_true_iff in H as [Hle Heq].
  apply Nat.leb_le in Hle. apply String.eqb_eq in Heq.
  exists (substring 0 (String.length s - String.length suf) s).
  rewrite (substring_split s (String.length s - String.length suf)) at 1 by lia.
  f_equal. rewrite <- Heq at 3. f_equal. lia.
Qed.

Lemma extension_from_dotless (s : string) :
  Spec.dotless s = true -> Spec.extension_from s = None.
Proof.
  induction s as [|c s IH]; simpl; auto.
  intros H. apply andb_true_iff in H as [Hc Hs].
  rewrite (IH Hs). destruct (Ascii.eqb c "."%char); [discriminate|reflexivity].
Qed.

Lemma extension_from_app (p e : string) :
  Spec.dotless e = true ->
  Spec.extension_from (p +:+ String "."%char e) = Some (String "."%char e).
Proof.
  intros He. induction p as [|c p IH]; simpl.
  - rewrite (extension_from_dotless e He). reflexivity.
  - fold (p +:+ String "."%char e). rewrite IH. reflexivity.
Qed.

Lemma extension_from_suffix (s x : string) :
  Spec.extension_from s = Some x -> exists p, s = p +:+ x.
Proof.
  revert x. induction s as [|c s IH]; simpl; intros x H; [discriminate|].
  destruct (Spec.extension_from s) as [e|] eqn:E.
  - injection H as <-. destruct (IH e eq_refl) as [p ->].
    exists (String c p). reflexivity.
  - destruct (Ascii.eqb c "."%char); [|discriminate].
    injection H as <-. exists EmptyString. reflexivity.
Qed.

(** [endswith] with a suffix made of a dot and dotless characters tests the
    extension. *)
Lemma endswith_extension (s e : string) :
  Spec.dotless e = true ->
  PyStr.endswith s (String "."%char e)
  = String.eqb (Spec.extension s) (String "."%char e).
Proof.
  intros He. apply eq_true_iff_eq. split; intros H.
  - apply endswith_inv in H as [p ->].
    unfold Spec.extension. rewrite (extension_from_app p e He). simpl.
    apply String.eqb_refl.
  - apply String.eqb_eq in H. unfold Spec.extension in H.
    destruct (Spec.extension_from s) as [x|] eqn:E; simpl in H; [|discriminate].
    subst x. destruct (extension_from_suffix _ _ E) as [p ->].
    apply endswith_app.
Qed.

Lemma lower_ascii_dot (c : ascii) :
  Ascii.eqb (PyStr.lower_ascii c) "."%char = Ascii.eqb c "."%char.
Proof.
  destruct c as [[] [] [] [] [] [] [] []]; reflexivity.
Qed.

Lemma extension_from_lower (s : string) :
  Spec.extension_from (PyStr.lower s)
  = option_map PyStr.lower (Spec.extension_from s).
Proof.
  induction s as [|c s IH]; simpl; auto.
  fold (PyStr.lower s). rewrite IH.
  destruct (Spec.extension_from s); simpl; auto.
  rewrite lower_ascii_dot. destruct (Ascii.eqb c "."%char); reflexivity.
Qed.

Lemma extension_lower (s : string) :
  Spec.extension (PyStr.lower s) = PyStr.lower (Spec.extension s).
Proof.
  unfold Spec.extension. rewrite extension_from_lower.
  destruct (Spec.extension_from s); reflexivity.
Qed.

(** The test of [main] is the test of the specification. *)
Lemma endswith_any_extension (file : string) :
  PyStr.endswith_any (PyStr.lower file) IMAGE_EXTENSIONS
  = Spec.extension_allowed file.
Proof.
  unfold PyStr.endswith_any, Spec.extension_allowed, PyStr.str_in,
    IMAGE_EXTENSIONS, Spec.allowed_extensions.
  rewrite <- extension_lower. cbn [existsb].
  rewrite !endswith_extension by reflexivity. reflexivity.
Qed.

End Strings.

(** ** Floating-point rounding *)

Section Pow2.

Lemma pow2_pos (e : Z) : (0 < pow2 e)%R.
Proof. apply powerRZ_lt. lra. Qed.

Lemma pow2_add (a b : Z) : pow2 (a + b) = (pow2 a * pow2 b)%R.
Proof. apply powerRZ_add. lra. Qed.

Lemma pow2_IZR (k : Z) : 0 <= k -> pow2 k = IZR (2 ^ k).
Proof.
  intros Hk. destruct k as [|p|p]; try lia.
  - reflexivity.
  - unfold pow2. symmetry. apply (Zpower_pos_powerRZ 2 p).
Qed.

Lemma pow2_opp (k : Z) : pow2 (- k) = (/ pow2 k)%R.
Proof. apply powerRZ_neg'. Qed.

Lemma pow2_ge_1 (k : Z) : 0 <= k -> (1 <= pow2 k)%R.
Proof.
  intros Hk. rewrite pow2_IZR by lia. apply IZR_le.
  pose proof (Z.pow_pos_nonneg 2 k ltac:(lia) Hk). lia.
Qed.

Lemma pow2_le (a b : Z) : a <= b -> (pow2 a <= pow2 b)%R.
Proof.
  intros Hab. replace b with (a + (b - a)) by lia. rewrite pow2_add.
  pose proof (pow2_pos a). pose proof (pow2_ge_1 (b - a) ltac:(lia)).
  rewrite <- (Rmult_1_r (pow2 a)) at 1.
  apply Rmult_le_compat_l; lra.
Qed.

Lemma pow2_shift (a b : Z) : (pow2 a * pow2 (b - a) = pow2 b)%R.
Proof. rewrite <- pow2_add. f_equal. lia. Qed.

(** Integer division by a power of two, in the reals. *)
Lemma div_pow2_bounds (m k : Z) :
  0 <= k ->
  (IZR (m / 2 ^ k) * pow2 k <= IZR m < (IZR (m / 2 ^ k) + 1) * pow2 k)%R.
Proof.
  intros Hk. rewrite pow2_IZR by lia.
  pose proof (Z.pow_pos_nonneg 2 k ltac:(lia) Hk) as Hp.
  pose proof (Z.mul_div_le m (2 ^ k) Hp).
  pose proof (Z.mul_succ_div_gt m (2 ^ k) Hp).
  rewrite <- plus_IZR, <- !mult_IZR. split.
  - apply IZR_le. lia.
  - apply IZR_lt. lia.
Qed.

End Pow2.

Section FloatRounding.

Variables prec emax : Z.
Hypothesis prec_pos : 0 < prec.
Hypothesis prec_lt_emax : prec < emax.

Lemma digits2_pos_size (p : positive) : digits2_pos p = Pos.size p.
Proof. induction p; simpl; congruence. Qed.

Lemma Zdigits2_log2 (p : positive) : Zdigits2 (Z.pos p) = Z.log2 (Z.pos p) + 1.
Proof.
  simpl. rewrite digits2_pos_size.
  destruct p; simpl; lia.
Qed.

Lemma Zdigits2_bounds (p : positive) :
  2 ^ (Zdigits2 (Z.pos p) - 1) <= Z.pos p < 2 ^ Zdigits2 (Z.pos p).
Proof.
  rewrite Zdigits2_log2.
  replace (Z.log2 (Z.pos p) + 1 - 1) with (Z.log2 (Z.pos p)) by lia.
  pose proof (Z.log2_spec (Z.pos p) ltac:(lia)) as H.
  unfold Z.succ in H. exact H.
Qed.

Lemma Zdigits2_pos (p : positive) : 0 < Zdigits2 (Z.pos p).
Proof. simpl. lia. Qed.

(** digits is determined by the bounds *)
Lemma Zdigits2_unique (p : positive) (d : Z) :
  2 ^ (d - 1) <= Z.pos p < 2 ^ d -> Zdigits2 (Z.pos p) = d.
Proof.
  intros [Hlo Hhi].
  assert (0 < d).
  { destruct (Z.lt_ge_cases 0 d); auto.
    assert (2 ^ d <= 2 ^ 0) by (destruct (Z.eq_dec d 0); [subst; lia|rewrite Z.pow_neg_r by lia; simpl; lia]).
    simpl in *. lia. }
  rewrite Zdigits2_log2.
  assert (Z.log2 (Z.pos p) = d - 1); [|lia].
  apply Z.log2_unique; [lia|]. unfold Z.succ.
  replace (d - 1 + 1) with d by lia. auto.
Qed.

Lemma shr_1_m (mrs : shr_record) :
  0 <= shr_m mrs -> shr_m (shr_1 mrs) = shr_m mrs / 2 /\ 0 <= shr_m (shr_1 mrs).
Proof.
  destruct mrs as [m r s]. cbn [shr_m]. intros Hm.
  destruct m as [|[p|p|]|p]; cbn [shr_1 shr_m]; try lia.
  - split; [reflexivity|lia].
  - split; [|lia]. apply Z.div_unique with 1; lia.
  - split; [|lia]. apply Z.div_unique with 0; lia.
  - split; [reflexivity|lia].
Qed.

Lemma iter_pos_shr_1 (p : positive) (mrs : shr_record) :
  0 <= shr_m mrs ->
  shr_m (SpecFloat.iter_pos shr_1 p mrs) = shr_m mrs / 2 ^ Z.pos p
  /\ 0 <= shr_m (SpecFloat.iter_pos shr_1 p mrs).
Proof.
  assert (Hpow : forall q : positive, 0 < 2 ^ Z.pos q)
    by (intros q; apply Z.pow_pos_nonneg; lia).
  revert mrs. induction p as [p IH|p IH|]; intros mrs Hm; simpl.
  - destruct (shr_1_m mrs Hm) as [E1 P1].
    destruct (IH _ P1) as [E2 P2].
    destruct (IH _ P2) as [E3 P3].
    split; [|exact P3].
    rewrite E3, E2, E1.
    rewrite !Z.div_div by (try apply Hpow; lia).
    f_equal. rewrite <- Z.pow_add_r by lia.
    change 2 with (2 ^ 1) at 1. rewrite <- Z.pow_add_r by lia.
    f_equal. lia.
  - destruct (IH _ Hm) as [E2 P2].
    destruct (IH _ P2) as [E3 P3].
    split; [|exact P3].
    rewrite E3, E2.
    rewrite !Z.div_div by (try apply Hpow; lia).
    f_equal. rewrite <- Z.pow_add_r by lia. f_equal. lia.
  - destruct (shr_1_m mrs Hm) as [E1 P1]. split; [|exact P1].
    rewrite E1. reflexivity.
Qed.

(** [shr]: the mantissa is divided by [2^n] and the exponent grows by [n],
    when [n] is positive; nothing happens otherwise. *)
Lemma shr_spec (mrs : shr_record) (e n : Z) :
  0 <= shr_m mrs ->
  shr_m (fst (shr mrs e n)) = shr_m mrs / 2 ^ (Z.max n 0)
  /\ snd (shr mrs e n) = e + Z.max n 0.
Proof.
  intros Hm. unfold shr. destruct n as [|p|p].
  - simpl. rewrite Z.div_1_r. lia.
  - destruct (iter_pos_shr_1 p mrs Hm) as [E _].
    rewrite Z.max_l by lia. auto.
  - rewrite Z.max_r by lia. simpl. rewrite Z.div_1_r. lia.
Qed.

Lemma shr_m_of_loc (m : Z) (l : location) : shr_m (shr_record_of_loc m l) = m.
Proof. destruct l as [|[]]; reflexivity. Qed.

Lemma round_nearest_even_range (m : Z) (l : location) :
  round_nearest_even m l = m \/ round_nearest_even m l = m + 1.
Proof.
  destruct l as [|[]]; simpl; auto.
  destruct (Z.even m); auto.
Qed.

Lemma Zdigits2_le (m d : Z) : 0 < m -> m < 2 ^ d -> Zdigits2 m <= d.
Proof.
  intros Hm Hd. destruct m as [|p|p]; try lia.
  destruct (Zdigits2_bounds p) as [Hlo _].
  destruct (Z.le_gt_cases (Zdigits2 (Z.pos p)) d) as [|Hgt]; auto.
  exfalso. assert (2 ^ d <= 2 ^ (Zdigits2 (Z.pos p) - 1)); [|lia].
  assert (0 <= d).
  { destruct (Z.le_gt_cases 0 d); auto. rewrite Z.pow_neg_r in Hd; lia. }
  apply Z.pow_le_mono_r; lia.
Qed.

Lemma Zdigits2_ge (m d : Z) : 0 <= d -> 2 ^ d <= m -> d + 1 <= Zdigits2 m.
Proof.
  intros Hd Hm.
  assert (0 < m) by (pose proof (Z.pow_pos_nonneg 2 d); lia).
  destruct m as [|p|p]; try lia.
  destruct (Zdigits2_bounds p) as [_ Hhi].
  destruct (Z.le_gt_cases (d + 1) (Zdigits2 (Z.pos p))) as [|Hgt]; auto.
  exfalso. assert (2 ^ Zdigits2 (Z.pos p) <= 2 ^ d); [|lia].
  apply Z.pow_le_mono_r; lia.
Qed.

Lemma fexp_ge_emin (e : Z) : emin prec emax <= fexp prec emax e.
Proof. unfold fexp. lia. Qed.

Lemma fexp_le (e e' : Z) :
  e - prec <= e' -> emin prec emax <= e' -> fexp prec emax e <= e'.
Proof. unfold fexp. lia. Qed.

(** The result of [binary_round_aux] on a mantissa that has at least the
    digits of the format: the mantissa is shifted to the exponent of the
    format and rounded to one of its two neighbours; a carry out of the
    mantissa moves to the next exponent; a too large exponent overflows. *)
Lemma binary_round_aux_spec (s : bool) (mx ex : Z) (lx : location) :
  0 < mx ->
  ex <= fexp prec emax (Zdigits2 mx + ex) ->
  let E := fexp prec emax (Zdigits2 mx + ex) in
  let m1 := mx / 2 ^ (E - ex) in
  exists m2,
    (m2 = m1 \/ m2 = m1 + 1)
    /\ m2 <= 2 ^ prec
    /\ binary_round_aux prec emax s mx ex lx
       = if m2 =? 0 then S754_zero s
         else if m2 <? 2 ^ prec then
           if E <=? emax - prec then S754_finite s (Z.to_pos m2) E
           else S754_infinity s
         else
           if E + 1 <=? emax - prec
           then S754_finite s (Z.to_pos (2 ^ (prec - 1))) (E + 1)
           else S754_infinity s.
Proof.
  intros Hmx Hex E m1.
  assert (Hm1 : 0 <= m1 < 2 ^ prec).
  { unfold m1. split; [apply Z.div_pos; [lia|apply Z.pow_pos_nonneg; lia]|].
    apply Z.div_lt_upper_bound; [apply Z.pow_pos_nonneg; lia|].
    rewrite <- Z.pow_add_r by lia.
    destruct mx as [|p|p]; try lia.
    destruct (Zdigits2_bounds p) as [_ Hhi].
    eapply Z.lt_le_trans; [exact Hhi|].
    apply Z.pow_le_mono_r; [lia|].
    unfold E, fexp. pose proof (Zdigits2_pos p). lia. }
  unfold binary_round_aux, shr_fexp. fold E.
  pose proof (shr_spec (shr_record_of_loc mx lx) ex (E - ex)) as H1.
  rewrite shr_m_of_loc in H1. specialize (H1 ltac:(lia)).
  destruct (shr (shr_record_of_loc mx lx) ex (E - ex)) as [mrs1 e1].
  cbn [fst snd] in H1. destruct H1 as [Hm Hee]. rewrite Z.max_l in Hm, Hee by lia.
  replace (ex + (E - ex)) with E in Hee by lia. subst e1.
  fold m1 in Hm.
  set (m2 := round_nearest_even (shr_m mrs1) (loc_of_shr_record mrs1)).
  assert (Hm2 : m2 = m1 \/ m2 = m1 + 1).
  { unfold m2. rewrite <- Hm. apply round_nearest_even_range. }
  exists m2. split; [exact Hm2|]. split; [lia|].
  pose proof (fexp_ge_emin (Zdigits2 mx + ex)) as HEmin. fold E in HEmin.
  pose proof (shr_spec (Build_shr_record m2 false false) E
                (fexp prec emax (Zdigits2 m2 + E) - E)) as H2.
  cbn [shr_m] in H2. specialize (H2 ltac:(lia)).
  cbn [shr_record_of_loc].
  destruct (shr (Build_shr_record m2 false false) E
              (fexp prec emax (Zdigits2 m2 + E) - E)) as [mrs2 e2].
  cbn [fst snd] in H2. destruct H2 as [Hm3 He3].
  destruct (Z.eqb_spec m2 0) as [H0|H0].
  { rewrite H0 in Hm3. rewrite Z.div_0_l in Hm3
      by (apply Z.pow_nonzero; lia).
    rewrite Hm3. reflexivity. }
  destruct (Z.ltb_spec m2 (2 ^ prec)) as [Hlt|Hge].
  - assert (Hd : Zdigits2 m2 <= prec) by (apply Zdigits2_le; lia).
    assert (Hn : fexp prec emax (Zdigits2 m2 + E) - E <= 0).
    { assert (fexp prec emax (Zdigits2 m2 + E) <= E); [|lia].
      apply fexp_le; lia. }
    rewrite Z.max_r in Hm3, He3 by lia.
    rewrite Z.div_1_r in Hm3. rewrite Hm3. subst e2.
    replace (E + 0) with E by lia.
    destruct m2 as [|p|p]; try lia. reflexivity.
  - assert (Heq : m2 = 2 ^ prec) by lia.
    assert (Hd : Zdigits2 m2 = prec + 1).
    { assert (0 < m2) by lia. destruct m2 as [|p|p]; try lia.
      apply Zdigits2_unique. rewrite Heq.
      replace (prec + 1 - 1) with prec by lia. split; [lia|].
      apply Z.pow_lt_mono_r; lia. }
    assert (Hn : fexp prec emax (Zdigits2 m2 + E) - E = 1).
    { rewrite Hd. unfold fexp. lia. }
    rewrite Hn in Hm3, He3. rewrite Z.max_l in Hm3, He3 by lia.
    subst e2. rewrite Hm3, Heq.
    replace (2 ^ prec / 2 ^ 1) with (2 ^ (prec - 1)).
    2:{ replace prec with (prec - 1 + 1) at 2 by lia.
        rewrite Z.pow_add_r by lia. rewrite Z.div_mul; [reflexivity|].
        simpl. lia. }
    pose proof (Z.pow_pos_nonneg 2 (prec - 1) ltac:(lia) ltac:(lia)) as Hp.
    destruct (2 ^ (prec - 1)) as [|p|p]; try lia. reflexivity.
Qed.

(** The value of the result of [binary_round_aux], when the exponent cannot
    overflow: it is within one unit of the exponent of the format from any
    real [x] that the mantissa, the exponent and the location stand for. *)
Lemma binary_round_aux_value (mx ex : Z) (lx : location) (x : R) :
  0 < mx ->
  let E := fexp prec emax (Zdigits2 mx + ex) in
  ex <= E ->
  E + 1 <= emax - prec ->
  (IZR mx * pow2 ex <= x < (IZR mx + 1) * pow2 ex)%R ->
  let r := binary_round_aux prec emax false mx ex lx in
  (r = S754_zero false /\ Zdigits2 mx + ex - prec < emin prec emax
   \/ exists m e, r = S754_finite false m e
                  /\ Z.pos m < 2 ^ prec
                  /\ (e = E \/ e = E + 1)
                  /\ (emin prec emax <= Zdigits2 mx + ex - prec ->
                      2 ^ (prec - 1) <= Z.pos m))
  /\ (Rabs (fval r - x) <= pow2 E)%R.
Proof.
  intros Hmx E Hex Hov Hx r.
  destruct (binary_round_aux_spec false mx ex lx Hmx Hex) as (m2 & Hm2 & Hle & Hr).
  fold E in Hm2, Hr. fold r in Hr.
  set (k := E - ex) in *. set (m1 := mx / 2 ^ k) in *.
  assert (Hk : 0 <= k) by (unfold k; lia).
  pose proof (Z.pow_pos_nonneg 2 k ltac:(lia) Hk) as Hpk.
  pose proof (Z.pow_pos_nonneg 2 (prec - 1) ltac:(lia) ltac:(lia)) as Hpp.
  assert (Hpow : 2 ^ prec = 2 * 2 ^ (prec - 1)).
  { replace prec with (1 + (prec - 1)) at 1 by lia.
    rewrite Z.pow_add_r by lia. reflexivity. }
  assert (Hm1 : 0 <= m1) by (apply Z.div_pos; lia).
  assert (Hz1 : 2 ^ k * m1 <= mx) by (apply Z.mul_div_le; lia).
  assert (Hz2 : mx < 2 ^ k * Z.succ m1) by (apply Z.mul_succ_div_gt; lia).
  assert (HE : pow2 E = (pow2 k * pow2 ex)%R).
  { rewrite <- pow2_add. f_equal. unfold k. lia. }
  pose proof (pow2_pos ex) as Hpe. pose proof (pow2_pos E) as HpE.
  assert (Hb : (IZR m1 * pow2 E <= x < (IZR m1 + 1) * pow2 E)%R).
  { rewrite HE, (pow2_IZR k Hk). split.
    - apply Rle_trans with (IZR mx * pow2 ex)%R; [|lra].
      rewrite <- Rmult_assoc, <- mult_IZR.
      apply Rmult_le_compat_r; [lra|]. apply IZR_le. lia.
    - apply Rlt_le_trans with ((IZR mx + 1) * pow2 ex)%R; [lra|].
      rewrite <- Rmult_assoc, <- !plus_IZR, <- mult_IZR.
      apply Rmult_le_compat_r; [lra|]. apply IZR_le. lia. }
  assert (Hnorm : emin prec emax <= Zdigits2 mx + ex - prec -> 2 ^ (prec - 1) <= m1).
  { intros Hn. unfold m1.
    apply Z.div_le_lower_bound; [lia|].
    rewrite <- Z.pow_add_r by lia.
    destruct mx as [|p|p]; try lia.
    destruct (Zdigits2_bounds p) as [Hlo _].
    eapply Z.le_trans; [|exact Hlo].
    apply Z.pow_le_mono_r; [lia|].
    unfold k, E, fexp. lia. }
  assert (Hval : (fval r = IZR m2 * pow2 E)%R
                 /\ (r = S754_zero false
                       /\ Zdigits2 mx + ex - prec < emin prec emax
                     \/ exists m e, r = S754_finite false m e
                                    /\ Z.pos m < 2 ^ prec
                                    /\ (e = E \/ e = E + 1)
                                    /\ (emin prec emax <= Zdigits2 mx + ex - prec ->
                                        2 ^ (prec - 1) <= Z.pos m))).
  { rewrite Hr.
    destruct (Z.eqb_spec m2 0) as [H0|H0].
    { split; [rewrite H0; simpl; lra|]. left. split; [reflexivity|].
      destruct (Z.lt_ge_cases (Zdigits2 mx + ex - prec) (emin prec emax))
        as [Hsub|Hn]; [exact Hsub|].
      specialize (Hnorm Hn). lia. }
    assert (H2pos : 0 < m2) by lia.
    destruct (Z.ltb_spec m2 (2 ^ prec)) as [Hlt|Hge].
    - destruct (Z.leb_spec E (emax - prec)) as [_|Hbad]; [|lia].
      split.
      + simpl. rewrite Z2Pos.id by lia. reflexivity.
      + right. exists (Z.to_pos m2), E. rewrite Z2Pos.id by lia.
        repeat split; auto. intros Hn. specialize (Hnorm Hn). lia.
    - destruct (Z.leb_spec (E + 1) (emax - prec)) as [_|Hbad]; [|lia].
      assert (Heq : m2 = 2 ^ prec) by lia.
      split.
      + simpl. rewrite Z2Pos.id by lia.
        rewrite Heq, Hpow, mult_IZR, pow2_add.
        assert (H21 : pow2 1 = 2%R) by (unfold pow2; simpl; lra).
        rewrite H21. lra.
      + right. exists (Z.to_pos (2 ^ (prec - 1))), (E + 1).
        rewrite Z2Pos.id by lia. repeat split; auto; lia. }
  destruct Hval as [Hv Hshape]. split; [exact Hshape|].
  rewrite Hv. apply Rabs_le.
  destruct Hm2 as [-> | ->]; rewrite ?plus_IZR; lra.
Qed.

(** Nothing is lost when the mantissa already fits the format. *)
Lemma binary_round_aux_exact (s : bool) (m : positive) (e : Z) :
  Zdigits2 (Z.pos m) <= prec ->
  fexp prec emax (Zdigits2 (Z.pos m) + e) = e ->
  e <= emax - prec ->
  binary_round_aux prec emax s (Z.pos m) e loc_Exact = S754_finite s m e.
Proof.
  intros Hd Hf He.
  unfold binary_round_aux, shr_fexp. rewrite Hf, Z.sub_diag.
  cbn [shr shr_record_of_loc shr_m loc_of_shr_record round_nearest_even].
  rewrite Hf, Z.sub_diag. cbn [shr shr_m].
  destruct (Z.leb_spec e (emax - prec)); [reflexivity|lia].
Qed.

Lemma iter_xO (p k : positive) : Z.pos (Pos.iter xO p k) = Z.pos p * 2 ^ Z.pos k.
Proof.
  induction k as [|k IH] using Pos.peano_ind.
  - simpl. lia.
  - rewrite Pos.iter_succ, Pos2Z.inj_xO, IH, Pos2Z.inj_succ, Z.pow_succ_r by lia.
    lia.
Qed.

Lemma Zdigits2_mul_pow2 (p : positive) (k : Z) :
  0 <= k -> Zdigits2 (Z.pos p * 2 ^ k) = Zdigits2 (Z.pos p) + k.
Proof.
  intros Hk.
  pose proof (Z.pow_pos_nonneg 2 k ltac:(lia) Hk) as Hp.
  destruct (Zdigits2_bounds p) as [Hlo Hhi].
  pose proof (Zdigits2_pos p) as Hd.
  assert (Hpos : 0 < Z.pos p * 2 ^ k) by lia.
  destruct (Z.pos p * 2 ^ k) as [|q|q] eqn:Eq; try lia.
  apply Zdigits2_unique. rewrite <- Eq.
  replace (Zdigits2 (Z.pos p) + k - 1) with (Zdigits2 (Z.pos p) - 1 + k) by lia.
  rewrite !Z.pow_add_r by lia. split.
  - apply Z.mul_le_mono_nonneg_r; lia.
  - apply Z.mul_lt_mono_pos_r; lia.
Qed.

Hypothesis emax_ge : 2 <= emax.

(** [float(n)] is exact for an int that fits the mantissa; the result is
    normalised. *)
Lemma binary_normalize_int (n : Z) :
  0 < n < 2 ^ prec ->
  exists m e,
    binary_normalize prec emax n 0 false = S754_finite false m e
    /\ Zdigits2 (Z.pos m) = prec
    /\ e = Zdigits2 n - prec
    /\ Z.pos m = n * 2 ^ (- e)
    /\ fval (S754_finite false m e) = IZR n.
Proof.
  intros [Hn Hlt]. destruct n as [|p|p]; try lia.
  assert (Hd : Zdigits2 (Z.pos p) <= prec) by (apply Zdigits2_le; lia).
  pose proof (Zdigits2_pos p) as Hdp.
  assert (Hf : fexp prec emax (Zdigits2 (Z.pos p) + 0) = Zdigits2 (Z.pos p) - prec).
  { unfold fexp, emin. lia. }
  unfold binary_normalize, binary_round.
  change (Z.pos (digits2_pos p)) with (Zdigits2 (Z.pos p)).
  rewrite Hf. unfold shl_align.
  destruct (Zdigits2 (Z.pos p) - prec - 0) as [|k|k] eqn:Ek; try lia.
  - assert (Hdd : Zdigits2 (Z.pos p) = prec) by lia.
    exists p, 0.
    rewrite binary_round_aux_exact;
      [|lia|rewrite Hdd; unfold fexp, emin; lia|lia].
    repeat split; auto; try lia. simpl. unfold pow2. simpl. lra.
  - assert (Hk : Z.pos k = prec - Zdigits2 (Z.pos p)) by lia.
    assert (Hm : Z.pos (Pos.iter xO p k) = Z.pos p * 2 ^ Z.pos k) by apply iter_xO.
    assert (Hdm : Zdigits2 (Z.pos (Pos.iter xO p k)) = prec).
    { rewrite Hm, Zdigits2_mul_pow2 by lia. lia. }
    exists (Pos.iter xO p k), (Zdigits2 (Z.pos p) - prec).
    rewrite binary_round_aux_exact;
      [|lia|rewrite Hdm; unfold fexp, emin; lia|lia].
    repeat split; auto.
    + rewrite Hm. f_equal. f_equal. lia.
    + cbn [fval cond_Zopp]. rewrite Hm, mult_IZR, <- (pow2_IZR (Z.pos k)) by lia.
      rewrite Rmult_assoc, <- pow2_add.
      replace (Z.pos k + (Zdigits2 (Z.pos p) - prec)) with 0 by lia.
      unfold pow2. simpl. lra.
Qed.

Lemma Zdigits2_mul (a b : positive) :
  Zdigits2 (Z.pos a) + Zdigits2 (Z.pos b) - 1 <= Zdigits2 (Z.pos (a * b))
  <= Zdigits2 (Z.pos a) + Zdigits2 (Z.pos b).
Proof.
  destruct (Zdigits2_bounds a) as [La Ha], (Zdigits2_bounds b) as [Lb Hb].
  pose proof (Zdigits2_pos a). pose proof (Zdigits2_pos b).
  rewrite Pos2Z.inj_mul. split.
  - assert (Zdigits2 (Z.pos a) - 1 + (Zdigits2 (Z.pos b) - 1) + 1
            <= Zdigits2 (Z.pos a * Z.pos b)); [|lia].
    apply Zdigits2_ge; [lia|]. rewrite Z.pow_add_r by lia.
    apply Z.mul_le_mono_nonneg; lia.
  - apply Zdigits2_le; [lia|]. rewrite Z.pow_add_r by lia.
    apply Z.mul_lt_mono_nonneg; lia.
Qed.




(** [int(x)] is the floor of a positive float. *)
Lemma shiftl_floor (m : positive) (e : Z) :
  (IZR (Z.shiftl (Z.pos m) e) <= fval (S754_finite false m e)
   < IZR (Z.shiftl (Z.pos m) e) + 1)%R.
Proof.
  cbn [fval cond_Zopp]. destruct (Z.le_gt_cases 0 e) as [He|He].
  - rewrite Z.shiftl_mul_pow2, mult_IZR, <- pow2_IZR by lia. lra.
  - rewrite Z.shiftl_div_pow2 by lia.
    destruct (div_pow2_bounds (Z.pos m) (- e) ltac:(lia)) as [H1 H2].
    pose proof (pow2_pos e) as Hp.
    assert (Hinv : (pow2 (- e) * pow2 e = 1)%R).
    { rewrite <- pow2_add. replace (- e + e) with 0 by lia. reflexivity. }
    split.
    + apply Rmult_le_compat_r with (r := pow2 e) in H1; [|lra].
      rewrite Rmult_assoc, Hinv in H1. lra.
    + apply Rmult_lt_compat_r with (r := pow2 e) in H2; [|lra].
      rewrite Rmult_assoc, Hinv in H2. lra.
Qed.

End FloatRounding.

(** ** Python floats: the sizes of the resized watermark *)

Section Binary64.

Import PyFloat.

Lemma prec_pos64 : 0 < prec. Proof. reflexivity. Qed.
Lemma prec_lt_emax64 : prec < emax. Proof. reflexivity. Qed.
Lemma emax_ge64 : 2 <= emax. Proof. unfold emax. lia. Qed.

(** [float(n)] for a positive int below 2^53. *)
Lemma float_of_int_exact (n : Z) :
  0 < n < 2 ^ 53 ->
  exists m e,
    float_of_int n = Ok (S754_finite false m e)
    /\ Zdigits2 (Z.pos m) = 53
    /\ -52 <= e <= 0
    /\ fval (S754_finite false m e) = IZR n.
Proof.
  intros Hn.
  destruct (binary_normalize_int prec emax prec_pos64 prec_lt_emax64 emax_ge64 n Hn)
    as (m & e & Hr & Hd & He & _ & Hv).
  exists m, e. unfold float_of_int. rewrite Hr.
  repeat split; auto.
  - assert (0 < Zdigits2 n) by (destruct n; try lia; apply Zdigits2_pos).
    unfold prec in He. lia.
  - assert (Zdigits2 n <= 53) by (apply Zdigits2_le; lia).
    unfold prec in He. lia.
Qed.

Lemma Rabs_le_bounds (x a : R) : (Rabs x <= a)%R -> (- a <= x <= a)%R.
Proof. unfold Rabs. destruct (Rcase_abs x); lra. Qed.


(** A size fraction in (0, 1] is a positive finite float below 2. *)
Lemma fraction_shape (f : float) :
  valid f = true -> lt zero f = true -> le f one = true ->
  exists m e, f = S754_finite false m e /\ Zdigits2 (Z.pos m) + e <= 1.
Proof.
  intros Hv Hlt Hle.
  destruct f as [s|s| |s m e]; try discriminate Hlt.
  - destruct s; discriminate.
  - destruct s; [discriminate Hlt|]. exists m, e. split; [reflexivity|].
    unfold valid, valid_binary, bounded, canonical_mantissa in Hv.
    apply andb_true_iff in Hv as [Hc _]. apply Z.eqb_eq in Hc.
    change (Z.pos (digits2_pos m)) with (Zdigits2 (Z.pos m)) in Hc.
    unfold le, SFleb, SFcompare, one in Hle.
    destruct (Z.compare_spec e (-52)) as [He|He|He]; try discriminate Hle;
      unfold fexp in Hc; unfold prec in Hc; lia.
Qed.

(** The width that [process_image] computes for the resized watermark:
    [int(im_width * size)] is the floor of the float product, and it is not
    negative. *)
Lemma wm_width_floor (im_width : Z) (f : float) :
  0 <= im_width < 2 ^ 53 ->
  valid f = true -> lt zero f = true -> le f one = true ->
  exists prod wm_width,
    int_mul_float im_width f = Ok prod
    /\ int_of_float prod = Ok wm_width
    /\ Spec.floor prod = Some wm_width
    /\ 0 <= wm_width.
Proof.
  intros Hn Hv Hlt Hle.
  destruct (fraction_shape f Hv Hlt Hle) as (my & ey & -> & Hd).
  destruct (Z.eq_dec im_width 0) as [->|Hn0].
  - exists (S754_zero false), 0. repeat split; auto; lia.
  - destruct (float_of_int_exact im_width ltac:(lia))
      as (mn & en & En & Dn & Rn & _).
    unfold int_mul_float. rewrite En. unfold mul. cbn [SFmul xorb].
    pose proof (Zdigits2_mul mn my) as Hdm.
    pose proof (Zdigits2_pos my) as Hpy.
    destruct (binary_round_aux_spec prec emax prec_pos64 false
                (Z.pos (mn * my)) (en + ey) loc_Exact)
      as (m2 & Hm2 & Hle2 & Hr).
    { lia. }
    { unfold fexp, prec in *. lia. }
    rewrite Hr.
    assert (Hm2pos : 0 <= m2).
    { assert (0 <= Z.pos (mn * my)
                   / 2 ^ (fexp prec emax (Zdigits2 (Z.pos (mn * my)) + (en + ey))
                          - (en + ey))).
      { apply Z.div_pos; [lia|]. apply Z.pow_pos_nonneg; [lia|].
        unfold fexp, prec in *. lia. }
      lia. }
    assert (HE : fexp prec emax (Zdigits2 (Z.pos (mn * my)) + (en + ey)) + 1
                 <= emax - prec).
    { unfold fexp, emin, prec, emax in *. lia. }
    destruct (Z.eqb_spec m2 0) as [H0|H0].
    { exists (S754_zero false), 0. repeat split; auto; lia. }
    destruct (Z.ltb_spec m2 (2 ^ prec)) as [Hlt2|Hge2].
    + destruct (Z.leb_spec (fexp prec emax (Zdigits2 (Z.pos (mn * my)) + (en + ey)))
                  (emax - prec)) as [_|Hbad]; [|lia].
      eexists _, _. split; [reflexivity|]. split; [reflexivity|].
      split; [reflexivity|]. cbn [cond_Zopp]. apply Z.shiftl_nonneg. lia.
    + destruct (Z.leb_spec (fexp prec emax (Zdigits2 (Z.pos (mn * my)) + (en + ey)) + 1)
                  (emax - prec)) as [_|Hbad]; [|lia].
      eexists _, _. split; [reflexivity|]. split; [reflexivity|].
      split; [reflexivity|]. cbn [cond_Zopp]. apply Z.shiftl_nonneg. lia.
Qed.

End Binary64.

(** ** The script: one image *)

Section ScriptProperties.

Context {S : Type} `{PIL : Imaging S} `{Os : OS S}.

Lemma wp_get_watermark_position position isz wsz Q (s : S) L l T t :
  (forall pos l', Q (Ok pos) (World s (L ++ (l ++ l')) (T ++ t))) ->
  wp (get_watermark_position position isz wsz) Q (World s (L ++ l) (T ++ t)).
Proof.
  intros HQ. unfold get_watermark_position.
  destruct isz as [iw ih], wsz as [ww wh].
  assert (Hw : forall pos, Q (Ok pos) (World s (L ++ l) (T ++ t))).
  { intros pos. specialize (HQ pos []). rewrite app_nil_r in HQ. exact HQ. }
  repeat (lazymatch goal with
          | |- wp (if ?b then _ else _) _ _ => destruct b
          end; [apply wp_ret, Hw|]).
  apply wp_bind, wp_logging_acc. apply wp_ret, HQ.
Qed.

Lemma float_of_int_exn n e :
  PyFloat.float_of_int n = Raise e -> is_Exception e = true.
Proof.
  unfold PyFloat.float_of_int.
  destruct (binary_normalize _ _ _ _ _); intros H; inversion H; reflexivity.
Qed.

Lemma int_of_float_exn x e :
  PyFloat.int_of_float x = Raise e -> is_Exception e = true.
Proof. destruct x; intros H; inversion H; reflexivity. Qed.

Lemma int_mul_float_exn n y e :
  PyFloat.int_mul_float n y = Raise e -> is_Exception e = true.
Proof.
  unfold PyFloat.int_mul_float.
  destruct (PyFloat.float_of_int n) eqn:E; intros H; inversion H; subst.
  eapply float_of_int_exn, E.
Qed.

Lemma int_truediv_float_exn n y e :
  PyFloat.int_truediv_float n y = Raise e -> is_Exception e = true.
Proof.
  unfold PyFloat.int_truediv_float, PyFloat.truediv.
  destruct (PyFloat.float_of_int n) eqn:E.
  - destruct (PyFloat.is_zero y); intros H; inversion H; reflexivity.
  - intros H; inversion H; subst. eapply float_of_int_exn, E.
Qed.

Lemma format_upper_exn f e :
  format_upper f = Raise e -> is_Exception e = true.
Proof. destruct f; intros H; inversion H; reflexivity. Qed.

Lemma relpath_exn cwd p st e :
  posixpath.relpath cwd p st = Raise e -> is_Exception e = true.
Proof.
  unfold posixpath.relpath. destruct (String.eqb p EmptyString).
  - intros H; inversion H; reflexivity.
  - destruct (_ ++ _)%list; intros H; inversion H.
Qed.

End ScriptProperties.

Ltac wp_go :=
  repeat first
    [ lazymatch goal with
      | |- wp (get_watermark_position _ _ _) _ _ =>
          apply wp_get_watermark_position; intros ? ?;
          cbn beta iota; cbn [ext exn_of app]
      end
    | wp_step ].

Ltac pure_exn :=
  match goal with
  | H : PyFloat.float_of_int _ = Raise _ |- _ => apply float_of_int_exn in H
  | H : PyFloat.int_of_float _ = Raise _ |- _ => apply int_of_float_exn in H
  | H : PyFloat.int_mul_float _ _ = Raise _ |- _ => apply int_mul_float_exn in H
  | H : PyFloat.int_truediv_float _ _ = Raise _ |- _ =>
      apply int_truediv_float_exn in H
  | H : format_upper _ = Raise _ |- _ => apply format_upper_exn in H
  | H : posixpath.relpath _ _ _ = Raise _ |- _ => apply relpath_exn in H
  end.

Section BodyShape.

Context {S : Type} `{PIL : Imaging S} `{Os : OS S}.

(** What every run of the body of [process_image] looks like from outside:
    it opens the image it was given and nothing else, an exception that is
    not an [Exception] comes from a library call, and after a failure no
    [save] has returned. *)
Lemma process_image_body_shape image_path watermark args (w : world S) :
  wp (process_image_body image_path watermark args)
     (fun r w' =>
        extends w w'
        /\ opened_paths (new_events w w') = [image_path]
        /\ (forall e, r = Raise e ->
              saved_paths (new_events w w') = []
              /\ (is_Exception e = true
                  \/ exists c, In (Event c (Some e)) (new_events w w')))
        /\ (r = Ok tt -> no_interrupt (new_events w w'))) w.
Proof.
  apply wp_start. unfold process_image_body.
  wp_go.
  all: unfold extends; rewrite new_events_app, new_log_app; cbn [log trace].
  all: split; [split; reflexivity|].
  all: split; [reflexivity|].
  all: split; [intros e' He'; try discriminate He'; injection He' as <-
              | intros Hok; try discriminate Hok; repeat constructor].
  all: split; [reflexivity|].
  all: first [ left; pure_exn; assumption
             | right; eexists; cbn [In]; eauto 12 ].
Qed.

End BodyShape.

Ltac in_cases H :=
  repeat (destruct H as [H|H]; [try discriminate H|]); try contradiction H.

Section BodySave.

Context {S : Type} `{PIL : Imaging S} `{Os : OS S}.

(** Where the body of [process_image] saves: a call to [save] is the last
    call of the run, it follows a successful [makedirs(..., exist_ok=True)]
    on its directory, and its path is the destination root joined with the
    directory of the image relative to the source root and with the name of
    the image. *)
Lemma process_image_body_save_path image_path watermark args (w : world S) :
  wp (process_image_body image_path watermark args)
     (fun r w' =>
        forall p f m o,
          In (Event (Call_save p f m) o) (new_events w w') ->
          exists cwd rel pre,
            posixpath.relpath cwd (posixpath.dirname image_path) (source_dir args)
            = Ok rel
            /\ p = posixpath.join (posixpath.join (dest_dir args) rel)
                                  (posixpath.basename image_path)
            /\ new_events w w'
               = (pre ++ [Event (Call_makedirs
                                   (posixpath.join (dest_dir args) rel) true) None;
                          Event (Call_save p f m) o])%list
            /\ saved_paths pre = []
            /\ (r = Ok tt <-> o = None)) w.
Proof.
  apply wp_start. unfold process_image_body.
  wp_go.
  all: rewrite new_events_app.
  all: intros p0 f0 m0 o0 Hin; cbn [In] in Hin; in_cases Hin.
  all: injection Hin as <- <- <- <-.
  all: eexists _, _, _; split; [eassumption|]; split; [reflexivity|].
  all: split; [match goal with
               | |- ?l = _ => instantiate (1 := take (length l - 2) l); reflexivity
               end|].
  all: split; [reflexivity|]; split; intros; congruence.
Qed.

(** What the body of [process_image] saves, for a library whose [convert]
    returns an image of the mode it was asked for. *)
Lemma process_image_body_save_mode image_path watermark args (w : world S) :
  (forall x md s y s', Image_convert x md s = (Ok y, s') -> im_mode y = md) ->
  wp (process_image_body image_path watermark args)
     (fun r w' =>
        forall p f m o,
          In (Event (Call_save p f m) o) (new_events w w') ->
          exists im s1 fmt,
            Image_open image_path (ext w) = (Ok im, s1)
            /\ f = im_format im
            /\ format_upper (im_format im) = Ok fmt
            /\ (PyStr.str_in fmt non_alpha_formats = true -> m = "RGB")
            /\ (PyStr.str_in fmt non_alpha_formats = false ->
                String.eqb (im_mode im) "RGBA" = false -> m = im_mode im)) w.
Proof.
  intros Hconv.
  apply wp_start. unfold process_image_body.
  wp_go.
  all: rewrite new_events_app.
  all: intros p0 f0 m0 o0 Hin; cbn [In] in Hin; in_cases Hin.
  all: injection Hin as <- <- <- <-.
  all: eexists _, _, _; split; [eassumption|]; split; [reflexivity|].
  all: split; [eassumption|].
  all: split; intros; try congruence.
  all: try (eapply Hconv; eassumption).
  all: match goal with
       | Hn : negb ?b = false, Hp : ?b = false |- _ =>
           rewrite Hp in Hn; discriminate Hn
       end.
Qed.

End BodySave.

(** ** The script: the walk *)

Section Walk.

Context {S : Type} `{PIL : Imaging S} `{Os : OS S}.

Lemma opened_paths_app (l1 l2 : list event) :
  opened_paths (l1 ++ l2) = (opened_paths l1 ++ opened_paths l2)%list.
Proof.
  induction l1 as [|[c o] l1 IH]; simpl; auto.
  destruct c; simpl; rewrite IH; reflexivity.
Qed.

Lemma saved_paths_app (l1 l2 : list event) :
  saved_paths (l1 ++ l2) = (saved_paths l1 ++ saved_paths l2)%list.
Proof.
  induction l1 as [|[c o] l1 IH]; simpl; auto.
  destruct c, o; simpl; rewrite ?IH; reflexivity.
Qed.

Lemma saved_paths_In (d : string) (evs : list event) :
  In d (saved_paths evs) ->
  exists f m, In (Event (Call_save d f m) None) evs.
Proof.
  induction evs as [|[c o] evs IH]; simpl; [tauto|].
  intros Hin.
  assert (Hrec : In d (saved_paths evs) ->
                 exists f m, Event c o = Event (Call_save d f m) None
                             \/ In (Event (Call_save d f m) None) evs).
  { intros Hd. destruct (IH Hd) as (f & m & Hfm). eauto. }
  destruct c; auto. destruct o; auto.
  destruct Hin as [<-|Hin]; eauto.
Qed.

Lemma extends_log_app (w w1 : world S) s l :
  extends w w1 ->
  let w2 := World s (log w1 ++ l) (trace w1) in
  extends w w2
  /\ new_events w w2 = new_events w w1
  /\ new_log w w2 = (new_log w w1 ++ l)%list.
Proof.
  intros [Ht Hl]. simpl.
  assert (Hn : new_log w (World s (log w1 ++ l) (trace w1))
               = (new_log w w1 ++ l)%list).
  { unfold new_log at 1. simpl. rewrite Hl at 1.
    rewrite <- app_assoc. apply drop_length_app. }
  unfold extends. rewrite Hn. cbn [trace log].
  change (new_events w (World s (log w1 ++ l) (trace w1))) with (new_events w w1).
  repeat split; auto.
  rewrite Hl at 1. rewrite app_assoc. reflexivity.
Qed.

Ltac rp_split := unfold run_post; split; [|split; [|split; [|split]]].

(** [process_image] on one path. *)
Lemma process_image_run image_path watermark args (w : world S) :
  wp (process_image image_path watermark args)
     (run_post args [image_path] w) w.
Proof.
  unfold process_image. apply wp_try.
  eapply wp_mono.
  { apply wp_both; [apply process_image_body_shape
                   |apply process_image_body_save_path]. }
  intros r w1 [(Hext & Hop & Hraise & Hok) Hsave].
  assert (Hmir : forall d, In d (saved_paths (new_events w w1)) ->
                 exists p, In p [image_path] /\ mirrors args p d).
  { intros d Hd. apply saved_paths_In in Hd as (f & m & Hd).
    destruct (Hsave _ _ _ _ Hd) as (cwd & rel & pre & Hrel & Hp & _).
    exists image_path. split; [left; reflexivity|]. exists cwd, rel. auto. }
  destruct r as [[]|e].
  - rp_split; auto.
    + exists []. rewrite Hop. reflexivity.
    + intros e He. discriminate He.
  - destruct (Hraise e eq_refl) as [Hnone Hsrc].
    assert (Hlog : forall msg,
               wp (logging ERROR msg) (run_post args [image_path] w) w1).
    { intros msg. apply wp_logging.
      destruct (extends_log_app w w1 (ext w1) [LogRecord ERROR msg] Hext)
        as (Hext' & Hev & _).
      rp_split; rewrite ?Hev; auto.
      - exists []. rewrite Hop. reflexivity.
      - intros e0 He0; discriminate He0. }
    unfold process_image_handler.
    destruct e; cbn [is_Exception]; try apply Hlog.
    all: rp_split; auto.
    all: try (exists []; rewrite Hop; reflexivity).
    all: try (intros ?; discriminate).
    all: intros e0 He0; injection He0 as <-; destruct Hsrc as [Hex|Hsrc];
      [discriminate Hex|split; [reflexivity|exact Hsrc]].
Qed.

Lemma new_events_refl (w : world S) : new_events w w = [].
Proof. unfold new_events. apply drop_all. Qed.

Lemma run_post_nil args (w : world S) : run_post args [] w (Ok tt) w.
Proof.
  rp_split; rewrite ?new_events_refl; auto.
  - apply extends_refl.
  - exists []. reflexivity.
  - intros d [].
  - intros e He; discriminate He.
Qed.

Lemma run_post_log args (w : world S) l :
  run_post args [] w (Ok tt) (World (ext w) (log w ++ l) (trace w)).
Proof.
  destruct (extends_log_app w w (ext w) l (extends_refl w)) as (Hext & Hev & _).
  rp_split; rewrite ?Hev, ?new_events_refl; auto.
  - exists []. reflexivity.
  - intros d [].
  - intros e He; discriminate He.
Qed.

(** A part that ends normally, followed by another part. *)
Lemma run_post_seq args paths1 paths2 (w w1 w2 : world S) r :
  run_post args paths1 w (Ok tt) w1 ->
  run_post args paths2 w1 r w2 ->
  run_post args (paths1 ++ paths2) w r w2.
Proof.
  intros (Hext1 & _ & Hop1 & Hsv1 & _) (Hext2 & [rest Hpre2] & Hop2 & Hsv2 & Hr2).
  destruct (extends_trans w w1 w2 Hext1 Hext2) as (Hext & Hev & _).
  rp_split; rewrite ?Hev, ?opened_paths_app, ?saved_paths_app, ?(Hop1 eq_refl); auto.
  - exists rest. rewrite <- app_assoc. f_equal. exact Hpre2.
  - intros Hr. rewrite (Hop2 Hr). reflexivity.
  - intros d Hd. apply in_app_or in Hd as [Hd|Hd].
    + destruct (Hsv1 d Hd) as (p & Hp & Hm). exists p. split; auto.
      apply in_or_app. left. exact Hp.
    + destruct (Hsv2 d Hd) as (p & Hp & Hm). exists p. split; auto.
      apply in_or_app. right. exact Hp.
  - intros e He. destruct (Hr2 e He) as (Hx & c & Hc). split; auto.
    exists c. apply in_or_app. right. exact Hc.
Qed.

(** A part that an exception ended: what was still to do is not done. *)
Lemma run_post_raise args paths1 paths2 (w w1 : world S) e :
  run_post args paths1 w (Raise e) w1 ->
  run_post args (paths1 ++ paths2) w (Raise e) w1.
Proof.
  intros (Hext & [rest Hpre] & Hop & Hsv & Hr).
  rp_split; auto.
  - exists (rest ++ paths2)%list. rewrite app_assoc, <- Hpre. reflexivity.
  - intros He; discriminate He.
  - intros d Hd. destruct (Hsv d Hd) as (p & Hp & Hm). exists p. split; auto.
    apply in_or_app. left. exact Hp.
Qed.

Lemma for_each_run {A} args (sel : A -> list string) (body : A -> M S unit)
    (l : list A) :
  (forall x w1, wp (body x) (run_post args (sel x) w1) w1) ->
  forall w, wp (for_each l body) (run_post args (flat_map sel l) w) w.
Proof.
  intros Hbody. induction l as [|x l IH]; intros w.
  - apply wp_ret, run_post_nil.
  - simpl. apply wp_bind. eapply wp_mono; [apply Hbody|].
    intros [[]|e] w1 H1.
    + eapply wp_mono; [apply IH|]. intros r w2 H2.
      eapply run_post_seq; eauto.
    + apply run_post_raise. exact H1.
Qed.

Lemma visit_file_run watermark args root file (w : world S) :
  wp (visit_file watermark args root file)
     (run_post args (if Spec.extension_allowed file
                     then [posixpath.join root file] else []) w) w.
Proof.
  unfold visit_file. rewrite endswith_any_extension.
  destruct (Spec.extension_allowed file).
  - apply wp_bind, wp_logging.
    eapply wp_mono; [apply process_image_run|].
    intros r w2 H2. change [posixpath.join root file]
      with ([] ++ [posixpath.join root file])%list.
    eapply run_post_seq; [|exact H2]. apply run_post_log.
  - apply wp_logging, run_post_log.
Qed.

Lemma walk_loop_run watermark args triples (w : world S) :
  wp (walk_loop watermark args triples)
     (run_post args (selected_paths triples) w) w.
Proof.
  unfold walk_loop, selected_paths.
  apply for_each_run. intros [[root dirs] files] w1.
  unfold selected_in. apply for_each_run. intros file w2.
  apply visit_file_run.
Qed.

End Walk.

(** ** Claims about the placement and the walk *)

(** C1.  [get_watermark_position] returns, for each of the five position
    names, the coordinate of the specification with margin 10, and for any
    other name the bottom-right coordinate (after logging a warning). *)
Theorem get_watermark_position_formulas {S : Type} (position : string)
    (im_width im_height wm_width wm_height : Z) (w : world S) :
  let run := get_watermark_position position (im_width, im_height)
                                    (wm_width, wm_height) w in
  (position = "top-left" -> run = (Ok (10, 10), w))
  /\ (position = "top-right" -> run = (Ok (im_width - wm_width - 10, 10), w))
  /\ (position = "bottom-left" ->
      run = (Ok (10, im_height - wm_height - 10), w))
  /\ (position = "bottom-right" ->
      run = (Ok (im_width - wm_width - 10, im_height - wm_height - 10), w))
  /\ (position = "center" ->
      run = (Ok ((im_width - wm_width) / 2, (im_height - wm_height) / 2), w))
  /\ (PyStr.str_in position Spec.known_positions = false ->
      run = (Ok (im_width - wm_width - 10, im_height - wm_height - 10),
             World (ext w)
                   (log w ++ [LogRecord WARNING
                                ("Unknown position '" +:+ position
                                 +:+ "'. Defaulting to bottom-right.")])
                   (trace w))).
Proof.
  cbv zeta. repeat split; intros Hp.
  1-5: subst position; reflexivity.
  unfold PyStr.str_in, Spec.known_positions in Hp. cbn [existsb] in Hp.
  rewrite !orb_false_iff in Hp.
  destruct Hp as (H1 & H2 & H3 & H4 & H5 & _).
  unfold get_watermark_position. rewrite H1, H2, H3, H4, H5. reflexivity.
Qed.

Lemma get_watermark_position_formulas_witness :
  PyStr.str_in "middle" Spec.known_positions = false
  /\ fst (get_watermark_position "middle" (500, 300) (100, 100) Scenario.w0)
     = Ok (390, 190).
Proof.
  split; [reflexivity|].
  destruct (get_watermark_position_formulas "middle" 500 300 100 100 Scenario.w0)
    as (_ & _ & _ & _ & _ & Hfallback).
  rewrite (Hfallback eq_refl). reflexivity.
Defined.

Section WalkClaims.

Context {S : Type} `{PIL : Imaging S} `{Os : OS S}.

(** C4.  The walk selects a file exactly when its extension, compared
    case-insensitively, is on the allow-list.  A selected file is handed to
    [process_image]; any other file only leaves a debug record in the log:
    no library call is made for it.  Over a whole walk, the files opened are
    the selected ones, in order, and every file saved mirrors one of them. *)
Theorem walk_selects_by_extension (watermark : image) (args : Namespace) :
  (forall file,
     PyStr.endswith_any (PyStr.lower file) IMAGE_EXTENSIONS
     = Spec.extension_allowed file)
  /\ (forall root file (w : world S),
        Spec.extension_allowed file = true ->
        visit_file watermark args root file w
        = (logging DEBUG ("Found image: '" +:+ posixpath.join root file +:+ "'.") ;;;
           process_image (posixpath.join root file) watermark args) w)
  /\ (forall root file (w : world S),
        Spec.extension_allowed file = false ->
        visit_file watermark args root file w
        = (Ok tt,
           World (ext w)
                 (log w ++ [LogRecord DEBUG
                              ("Skipped non-image file: '"
                               +:+ posixpath.join root file +:+ "'.")])
                 (trace w)))
  /\ (forall triples (w : world S),
        let r := fst (walk_loop watermark args triples w) in
        let w' := snd (walk_loop watermark args triples w) in
        (exists rest,
           selected_paths triples = (opened_paths (new_events w w') ++ rest)%list)
        /\ (r = Ok tt -> opened_paths (new_events w w') = selected_paths triples)
        /\ (forall d, In d (saved_paths (new_events w w')) ->
              exists p, In p (selected_paths triples) /\ mirrors args p d)).
Proof.
  split; [apply endswith_any_extension|].
  split; [|split].
  - intros root file w Hsel. unfold visit_file.
    rewrite endswith_any_extension, Hsel. reflexivity.
  - intros root file w Hsel. unfold visit_file.
    rewrite endswith_any_extension, Hsel. reflexivity.
  - intros triples w. cbv zeta.
    destruct (walk_loop_run watermark args triples w) as (_ & Hpre & Hall & Hsv & _).
    auto.
Qed.


End WalkClaims.

Lemma walk_selects_by_extension_witness :
  Spec.extension_allowed "readme.txt" = false
  /\ Spec.extension_allowed "A.PNG" = true
  /\ trace (snd (visit_file (PIL := Sim.sim_Imaging) Scenario.overlay
                            Scenario.args0 "/src" "readme.txt" Scenario.w0)) = [].
Proof.
  split; [reflexivity|]. split; [reflexivity|].
  destruct (walk_selects_by_extension (PIL := Sim.sim_Imaging)
              Scenario.overlay Scenario.args0)
    as (_ & _ & Hskip & _).
  rewrite (Hskip "/src" "readme.txt" Scenario.w0 eq_refl). reflexivity.
Defined.


(** ** Claims about one image *)

Ltac known_call :=
  match goal with
  | Hk : ?op = (_, _), Hr : ?op = (_, _) |- _ =>
      rewrite Hk in Hr; injection Hr as <- <-
  end.

Section ImageClaims.

Context {S : Type} `{PIL : Imaging S} `{Os : OS S}.

Lemma process_image_trace image_path watermark args (w : world S) :
  trace (snd (process_image image_path watermark args w))
  = trace (snd (process_image_body image_path watermark args w)).
Proof.
  unfold process_image, try_except.
  destruct (process_image_body image_path watermark args w) as [[[]|e] w1];
    [reflexivity|].
  unfold process_image_handler.
  destruct e; reflexivity.
Qed.

Lemma process_image_new_events image_path watermark args (w : world S) :
  new_events w (snd (process_image image_path watermark args w))
  = new_events w (snd (process_image_body image_path watermark args w)).
Proof. unfold new_events. rewrite process_image_trace. reflexivity. Qed.

(** The size that the body of [process_image] asks [resize] for. *)
Lemma process_image_body_resize image_path watermark args (w : world S) :
  wp (process_image_body image_path watermark args)
     (fun r w' =>
        forall wm_width wm_height o,
          In (Event (Call_resize (wm_width, wm_height)) o) (new_events w w') ->
          exists im s1 im2 s2 prod fw w_percent fh,
            Image_open image_path (ext w) = (Ok im, s1)
            /\ ImageOps_exif_transpose im s1 = (Ok im2, s2)
            /\ PyFloat.int_mul_float (fst (im_size im2)) (size args) = Ok prod
            /\ PyFloat.int_of_float prod = Ok wm_width
            /\ wm_width <> 0
            /\ PyFloat.float_of_int (fst (im_size watermark)) = Ok fw
            /\ PyFloat.int_truediv_float wm_width fw = Ok w_percent
            /\ PyFloat.float_of_int (snd (im_size watermark)) = Ok fh
            /\ PyFloat.int_of_float (PyFloat.mul fh w_percent) = Ok wm_height) w.
Proof.
  apply wp_start. unfold process_image_body.
  wp_go.
  all: rewrite new_events_app.
  all: intros ww hh o0 Hin; cbn [In] in Hin; in_cases Hin.
  all: injection Hin as <- <- <-.
  all: match goal with Hsz : im_size _ = (_, _) |- _ => idtac end.
  all: eexists _, _, _, _, _, _, _, _.
  all: split; [eassumption|]; split; [eassumption|].
  all: match goal with
       | Hsz : im_size ?i = (?a, _) |- context [fst (im_size ?i)] =>
           rewrite Hsz; cbn [fst]
       end.
  all: split; [eassumption|]; split; [eassumption|].
  all: split; [apply Z.eqb_neq; assumption|].
  all: repeat (split; [first [eassumption|reflexivity]|]);
    first [eassumption|reflexivity].
Qed.

End ImageClaims.

Section SizeClaims.

Context {S : Type} `{PIL : Imaging S} `{Os : OS S}.

Import PyFloat.

(** A run of [process_image] in which the computed width is 0. *)
Lemma process_image_skip image_path watermark args (w : world S)
    im s1 im2 s2 prod :
  Image_open image_path (ext w) = (Ok im, s1) ->
  ImageOps_exif_transpose im s1 = (Ok im2, s2) ->
  int_mul_float (fst (im_size im2)) (size args) = Ok prod ->
  int_of_float prod = Ok 0 ->
  process_image image_path watermark args w
  = (Ok tt,
     World s2
       (log w ++ [LogRecord DEBUG ("Opened image '" +:+ image_path +:+ "'.");
                  LogRecord DEBUG ("Applied EXIF orientation to image '"
                                   +:+ image_path +:+ "'.");
                  LogRecord WARNING ("Calculated watermark width is 0 for image '"
                                     +:+ image_path +:+ "'. Skipping.")])
       (trace w ++ [Event (Call_open image_path) None;
                    Event Call_exif_transpose None])).
Proof.
  intros Hopen Hexif Hprod Hint.
  unfold process_image, try_except, process_image_body, bind, do_call, logging, lift.
  rewrite Hopen. cbn [ext log trace exn_of]. rewrite Hexif. cbn [ext log trace exn_of].
  destruct (im_size im2) as [iw ih]. cbn [fst] in Hprod.
  rewrite Hprod, Hint. cbn [Z.eqb ext log trace].
  rewrite <- !app_assoc. reflexivity.
Qed.


(** C3.  What is saved, for a library whose [convert] returns an image of
    the mode it was asked for.  The file is saved in the format of the
    source.  For the formats JPEG, BMP and WEBP the saved image is in RGB
    mode; for a format outside [non_alpha_formats] and a source that was not
    RGBA, it is in the mode of the source.  A JPEG source gives a JPEG file
    in RGB mode. *)
Theorem output_mode_and_format image_path watermark args (w : world S)
    im s1 p f m o :
  (forall x md s y s', Image_convert x md s = (Ok y, s') -> im_mode y = md) ->
  Image_open image_path (ext w) = (Ok im, s1) ->
  In (Event (Call_save p f m) o)
     (new_events w (snd (process_image image_path watermark args w))) ->
  f = im_format im
  /\ (forall fmt, im_format im = Some fmt ->
        In (PyStr.upper fmt) ["JPEG"; "BMP"; "WEBP"] -> m = "RGB")
  /\ (forall fmt, im_format im = Some fmt ->
        PyStr.str_in (PyStr.upper fmt) non_alpha_formats = false ->
        im_mode im <> "RGBA" -> m = im_mode im)
  /\ (im_format im = Some "JPEG" -> f = Some "JPEG" /\ m = "RGB").
Proof.
  intros Hconv Hopen Hin.
  rewrite process_image_new_events in Hin.
  pose proof (process_image_body_save_mode image_path watermark args w Hconv) as Hsave.
  unfold wp in Hsave.
  destruct (Hsave p f m o Hin) as (im' & s1' & fmt' & Ho & Hf & Hup & Hrgb & Hback).
  rewrite Hopen in Ho. injection Ho as <- <-.
  assert (Hjpeg : forall fmt, im_format im = Some fmt ->
                  In (PyStr.upper fmt) ["JPEG"; "BMP"; "WEBP"] -> m = "RGB").
  { intros fmt Hfmt Hmem. rewrite Hfmt in Hup. injection Hup as <-.
    apply Hrgb. cbn [In] in Hmem.
    destruct Hmem as [<-|[<-|[<-|[]]]]; reflexivity. }
  split; [exact Hf|]. split; [exact Hjpeg|]. split.
  - intros fmt Hfmt Hnon Hmode. rewrite Hfmt in Hup. injection Hup as <-.
    apply Hback; [exact Hnon|]. apply String.eqb_neq. exact Hmode.
  - intros Hfmt. split; [congruence|].
    apply (Hjpeg "JPEG" Hfmt). left. reflexivity.
Qed.

End SizeClaims.

(** C10.  The guard against an empty watermark looks at the width only.
    For an overlay of 1000 x 1 pixels, a source image 500 pixels wide and
    the size fraction 0.2, the computed width is 100 and the computed
    height is 0; the file is not skipped, [resize] is called with the size
    (100, 0), Pillow rejects it, and [process_image] ends in its last
    [except] clause with an error in the log. *)
Theorem zero_height_reaches_error_branch :
  exists (overlay : @image Sim.state Sim.sim_Imaging) (st : Sim.state)
         (image_path : string) (args : Namespace),
    snd (im_size overlay) < fst (im_size overlay)
    /\ (exists fw w_percent fh,
          PyFloat.float_of_int (fst (im_size overlay)) = Ok fw
          /\ PyFloat.int_truediv_float 100 fw = Ok w_percent
          /\ PyFloat.float_of_int (snd (im_size overlay)) = Ok fh
          /\ PyFloat.int_of_float (PyFloat.mul fh w_percent) = Ok 0)
    /\ let run := process_image image_path overlay args (Sim.start st) in
       fst run = Ok tt
       /\ trace (snd run)
          = [Event (Call_open image_path) None;
             Event Call_exif_transpose None;
             Event (Call_resize (100, 0))
                   (Some (ValueError "height and width must be > 0"))]
       /\ log (snd run)
          = [LogRecord DEBUG "Opened image '/src/a.png'.";
             LogRecord DEBUG "Applied EXIF orientation to image '/src/a.png'.";
             LogRecord ERROR
               "Unexpected error processing image '/src/a.png': height and width must be > 0"].
Proof.
  exists Scenario.wide_overlay, Scenario.state0, "/src/a.png", Scenario.args0.
  split; [reflexivity|]. split.
  - eexists _, _, _. repeat split; vm_compute; reflexivity.
  - vm_compute. repeat split; reflexivity.
Qed.


Lemma output_mode_and_format_witness :
  Some "JPEG" = Some "JPEG" /\ "RGB" = "RGB".
Proof.
  destruct (output_mode_and_format (PIL := Sim.sim_Imaging) (Os := Sim.sim_OS)
              "/src/sub/b.jpg" Scenario.overlay Scenario.args0 Scenario.w0
              (Sim.SimImage "L" (Some "JPEG") (640, 480)) Scenario.state0
              "/dest/sub/b.jpg" (Some "JPEG") "RGB" None)
    as (_ & _ & _ & Hjpeg).
  - intros x md s y s' Hc. injection Hc as <- _. reflexivity.
  - reflexivity.
  - vm_compute. repeat (first [left; reflexivity | right]).
  - apply Hjpeg. reflexivity.
Defined.

(** ** The script: exit status *)

Section Exits.

Context {S : Type} `{PIL : Imaging S} `{Os : OS S}.

Lemma known_exits_trans {A B} (w w1 w2 : world S) (a : A) (r : result B) :
  known_exits w (Ok a) w1 -> known_exits w1 r w2 -> known_exits w r w2.
Proof.
  intros [Hext1 _] [Hext2 Hr].
  destruct (extends_trans w w1 w2 Hext1 Hext2) as (Hext & Hev & _).
  split; [exact Hext|].
  intros e He. destruct (Hr e He) as [H1|[H2|(c & Hc)]]; auto.
  right. right. exists c. rewrite Hev. apply in_or_app. right. exact Hc.
Qed.

Lemma known_exits_after {A B} (w w1 w2 : world S) (r1 : result A) (r : result B) :
  extends w w1 -> known_exits w1 r w2 -> known_exits w r w2.
Proof.
  intros Hext1 [Hext2 Hr].
  destruct (extends_trans w w1 w2 Hext1 Hext2) as (Hext & Hev & _).
  split; [exact Hext|].
  intros e He. destruct (Hr e He) as [H1|[H2|(c & Hc)]]; auto.
  right. right. exists c. rewrite Hev. apply in_or_app. right. exact Hc.
Qed.

Lemma ke_ret {A} (a : A) (w : world S) : wp (ret a) (known_exits w) w.
Proof. split; [apply extends_refl|]. intros e He. discriminate He. Qed.

Lemma ke_query {A} (q : S -> A) (w : world S) : wp (query q) (known_exits w) w.
Proof. split; [apply extends_refl|]. intros e He. discriminate He. Qed.

Lemma ke_raise {A} e (w : world S) :
  e = SystemExit 1 \/ is_Exception e = true ->
  wp (@raise S A e) (known_exits w) w.
Proof.
  intros He. split; [apply extends_refl|].
  intros e' He'. injection He' as <-. tauto.
Qed.

Lemma ke_logging l msg (w : world S) : wp (logging l msg) (known_exits w) w.
Proof.
  apply wp_logging.
  destruct (extends_log_app w w (ext w) [LogRecord l msg] (extends_refl w))
    as (Hext & _).
  split; [exact Hext|]. intros e He. discriminate He.
Qed.

Lemma ke_call {A} c (op : S -> result A * S) (w : world S) :
  wp (do_call c op) (known_exits w) w.
Proof.
  apply wp_call. intros r s' Hop.
  assert (Hev : new_events w (World s' (log w) (trace w ++ [Event c (exn_of r)]))
                = [Event c (exn_of r)]) by apply new_events_app.
  split.
  - unfold extends. rewrite Hev. cbn [trace log]. split; [reflexivity|].
    rewrite new_log_same, app_nil_r. reflexivity.
  - intros e He. subst r. right. right. exists c. rewrite Hev. left. reflexivity.
Qed.

Lemma ke_bind {A B} (m : M S A) (k : A -> M S B) (w : world S) :
  wp m (known_exits w) w ->
  (forall a w1, wp (k a) (known_exits w1) w1) ->
  wp (bind m k) (known_exits w) w.
Proof.
  intros Hm Hk. apply wp_bind. eapply wp_mono; [exact Hm|].
  intros [a|e] w1 H1.
  - eapply wp_mono; [apply Hk|]. intros r w2 H2.
    eapply known_exits_trans; eauto.
  - destruct H1 as [Hext Hr]. split; [exact Hext|].
    intros e' He'. injection He' as <-. apply Hr. reflexivity.
Qed.

Lemma ke_try {A} (body : M S A) handler (w : world S) :
  wp body (known_exits w) w ->
  (forall e h w1, handler e = Some h -> wp h (known_exits w1) w1) ->
  wp (try_except body handler) (known_exits w) w.
Proof.
  intros Hb Hh. apply wp_try. eapply wp_mono; [exact Hb|].
  intros [a|e] w1 H1; [exact H1|].
  destruct (handler e) as [h|] eqn:Eh; [|exact H1].
  eapply wp_mono; [apply (Hh e h w1 Eh)|]. intros r w2 H2.
  eapply (known_exits_after w w1 w2 (Raise e : result A)); [apply H1|exact H2].
Qed.

End Exits.

Ltac ke_step :=
  lazymatch goal with
  | |- wp (bind _ _) (known_exits _) _ => apply ke_bind; [|intros ? ?]
  | |- wp (ret _) (known_exits _) _ => apply ke_ret
  | |- wp (query _) (known_exits _) _ => apply ke_query
  | |- wp (logging _ _) (known_exits _) _ => apply ke_logging
  | |- wp (do_call _ _) (known_exits _) _ => apply ke_call
  | |- wp (sys_exit 1) (known_exits _) _ => apply ke_raise; left; reflexivity
  | |- wp (raise _) (known_exits _) _ =>
      apply ke_raise; right; reflexivity
  | |- wp (if ?b then _ else _) (known_exits _) _ => destruct b
  end.

Section ExitStatus.

Context {S : Type} `{PIL : Imaging S} `{Os : OS S}.

Lemma ke_setup_logging log_file verbose (w : world S) :
  wp (setup_logging log_file verbose) (known_exits w) w.
Proof. unfold setup_logging. destruct log_file; repeat ke_step. Qed.

Lemma ke_validate_arguments args (w : world S) :
  wp (validate_arguments args) (known_exits w) w.
Proof. unfold validate_arguments. repeat ke_step. Qed.

Lemma ke_adjust_opacity im o (w : world S) :
  wp (adjust_opacity im o) (known_exits w) w.
Proof.
  unfold adjust_opacity. ke_step.
  - apply ke_try; [repeat ke_step|].
    intros e h w1 Hh. destruct e; try discriminate Hh.
    injection Hh as <-. repeat ke_step.
  - ke_step; [repeat ke_step|]. ke_step; [ke_step|].
    destruct a1 as [|r [|g [|b [|alpha [|x rest]]]]]; repeat ke_step.
Qed.

Lemma ke_load_watermark path o (w : world S) :
  wp (load_watermark path o) (known_exits w) w.
Proof.
  unfold load_watermark. ke_step; [|apply ke_adjust_opacity].
  apply ke_try; [repeat ke_step|].
  intros e h w1 Hh.
  destruct e; cbn [is_Exception] in Hh; try discriminate Hh;
    injection Hh as <-; repeat ke_step.
Qed.

Lemma ke_walk_loop watermark args triples (w : world S) :
  wp (walk_loop watermark args triples) (known_exits w) w.
Proof.
  eapply wp_mono; [apply walk_loop_run|].
  intros r w' (Hext & _ & _ & _ & Hr). split; [exact Hext|].
  intros e He. destruct (Hr e He) as (_ & c & Hc). right. right. eauto.
Qed.

Lemma ke_main (w : world S) : wp main (known_exits w) w.
Proof.
  unfold main, parse_arguments.
  ke_step; [ke_step|]. ke_step; [apply ke_setup_logging|].
  ke_step; [ke_step|]. ke_step; [apply ke_validate_arguments|].
  ke_step; [apply ke_load_watermark|]. ke_step; [ke_step|].
  ke_step; [ke_step|]. ke_step; [apply ke_walk_loop|]. ke_step.
Qed.

(** [validate_arguments] makes no library call: it logs, and exits with
    code 1 when a check fails. *)
Lemma validate_arguments_spec args (w : world S) :
  exists msg,
    validate_arguments args w
    = if Spec.args_valid args (ext w)
      then (Ok tt, World (ext w)
                     (log w ++ [LogRecord DEBUG "All arguments validated successfully."])
                     (trace w))
      else (Raise (SystemExit 1),
            World (ext w) (log w ++ [LogRecord ERROR msg]) (trace w)).
Proof.
  unfold validate_arguments, Spec.args_valid, bind, query, logging, sys_exit, raise, ret.
  cbn [ext log trace].
  destruct (os_path_isdir (source_dir args) (ext w)); cbn [negb andb];
    [|eexists; reflexivity].
  destruct (os_path_isfile (watermark args) (ext w)); cbn [negb andb];
    [|eexists; reflexivity].
  destruct (PyFloat.le PyFloat.zero (opacity args) && PyFloat.le (opacity args) PyFloat.one);
    cbn [negb andb]; [|eexists; reflexivity].
  destruct (PyFloat.lt PyFloat.zero (size args) && PyFloat.le (size args) PyFloat.one);
    cbn [negb andb]; [|eexists; reflexivity].
  exists "". reflexivity.
Qed.

Lemma setup_logging_opens_nothing log_file verbose (w w2 : world S) r :
  setup_logging log_file verbose w = (r, w2) ->
  extends w w2 /\ opened_paths (new_events w w2) = [].
Proof.
  unfold setup_logging. intros Hrun.
  assert (Hret : forall w0 : world S, extends w0 w0 /\ opened_paths (new_events w0 w0) = []).
  { intros w0. split; [apply extends_refl|]. rewrite new_events_refl. reflexivity. }
  destruct log_file as [f|]; [|injection Hrun as <- <-; apply Hret].
  destruct (String.eqb f ""); [injection Hrun as <- <-; apply Hret|].
  unfold do_call in Hrun. destruct (FileHandler f (ext w)) as [r0 s'].
  injection Hrun as <- <-.
  unfold extends. rewrite new_events_app, new_log_same. cbn [trace log].
  rewrite app_nil_r. auto.
Qed.

End ExitStatus.

Section ExitClaims.

Context {S : Type} `{PIL : Imaging S} `{Os : OS S}.

Lemma main_after_setup (w w2 : world S) args s1 :
  parse_args (ext w) = (Ok args, s1) ->
  setup_logging (log_file args) (verbose args)
                (World s1 (log w) (trace w ++ [Event Call_parse_args None]))
  = (Ok tt, w2) ->
  main w
  = main_rest args
      (World (ext w2) (log w2 ++ [LogRecord DEBUG "Logging is set up."]) (trace w2)).
Proof.
  intros Hparse Hsetup.
  unfold main, parse_arguments.
  unfold bind at 1. unfold do_call. rewrite Hparse. cbn [exn_of].
  unfold bind at 1. rewrite Hsetup.
  unfold bind at 1. reflexivity.
Qed.

Lemma script_of_main (w : world S) :
  (forall w', main w = (Ok tt, w') -> script w = (Ok tt, w'))
  /\ (forall c w', main w = (Raise (SystemExit c), w') ->
        script w = (Raise (SystemExit c), w'))
  /\ (forall e w', main w = (Raise e, w') -> (forall c, e <> SystemExit c) ->
        exists l msg,
          script w = (Raise (SystemExit 1),
                      World (ext w') (log w' ++ [LogRecord l msg]) (trace w'))).
Proof.
  unfold script, try_except. repeat split.
  - intros w' ->. reflexivity.
  - intros c w' ->. reflexivity.
  - intros e w' -> Hne.
    destruct e; cbn [is_Exception];
      try (eexists _, _; reflexivity).
    exfalso. eapply Hne. reflexivity.
Qed.


End ExitClaims.


(** ** Paths: where the copies go *)

Section Paths.

Import posixpath.

Lemma split_sep_nonnil s : split_sep s <> [].
Proof.
  destruct s as [|c s]; simpl; [discriminate|].
  destruct (Ascii.eqb c sep); [discriminate|].
  destruct (split_sep s); discriminate.
Qed.

Lemma split_sep_app_sep a b :
  split_sep (a +:+ String sep b) = (split_sep a ++ split_sep b)%list.
Proof.
  induction a as [|c a IH]; simpl.
  - reflexivity.
  - rewrite IH. destruct (Ascii.eqb c sep); [reflexivity|].
    pose proof (split_sep_nonnil a). destruct (split_sep a); [congruence|reflexivity].
Qed.

Lemma split_sep_sep_free s : sep_free s = true -> split_sep s = [s].
Proof.
  unfold sep_free. induction s as [|c s IH]; simpl; [reflexivity|].
  intros H. apply andb_prop in H as [Hc Hs].
  destruct (Ascii.eqb c sep); [discriminate|]. rewrite (IH Hs). reflexivity.
Qed.

Lemma split_sep_all_sep_free s : Forall (fun c => sep_free c = true) (split_sep s).
Proof.
  induction s as [|c s IH]; simpl.
  - constructor; [reflexivity|constructor].
  - destruct (Ascii.eqb c sep) eqn:Hc.
    + constructor; [reflexivity|exact IH].
    + destruct (split_sep s) as [|x xs]; [repeat constructor; unfold sep_free; simpl; rewrite Hc; reflexivity|].
      inversion IH; subst. constructor; [|assumption].
      unfold sep_free in *. simpl. rewrite Hc. assumption.
Qed.

Lemma name_ok_inv f :
  name_ok f = true ->
  String.eqb f "" = false /\ String.eqb f "." = false
  /\ String.eqb f ".." = false /\ sep_free f = true.
Proof.
  unfold name_ok. intros H.
  apply andb_prop in H as [H H4]. apply andb_prop in H as [H H3].
  apply andb_prop in H as [H1 H2].
  apply negb_true_iff in H1, H2, H3. auto.
Qed.

Lemma name_ok_not_abs f : name_ok f = true -> isabs f = false.
Proof.
  intros H. apply name_ok_inv in H as (H1 & _ & _ & H4).
  destruct f as [|c f]; [reflexivity|].
  unfold sep_free in H4. simpl in H4. apply andb_prop in H4 as [Hc _].
  apply negb_true_iff in Hc. exact Hc.
Qed.

Lemma normpath_step_name abs acc f :
  name_ok f = true -> normpath_step abs acc f = f :: acc.
Proof.
  intros H. apply name_ok_inv in H as (H1 & H2 & H3 & _).
  unfold normpath_step, curdir, pardir. rewrite H1, H2, H3. reflexivity.
Qed.

Lemma walk_comps_name abs acc f :
  name_ok f = true -> walk_comps abs f acc = f :: acc.
Proof.
  intros H. unfold walk_comps.
  rewrite split_sep_sep_free by (apply name_ok_inv in H; tauto).
  simpl. apply normpath_step_name, H.
Qed.

Lemma walk_comps_app_sep abs a b acc :
  walk_comps abs (a +:+ String sep b) acc = walk_comps abs b (walk_comps abs a acc).
Proof. unfold walk_comps. rewrite split_sep_app_sep, fold_left_app. reflexivity. Qed.

Lemma walk_comps_empty abs acc : walk_comps abs "" acc = acc.
Proof. reflexivity. Qed.

Lemma rev_head_nonempty (c : ascii) l :
  l <> [] -> hd_error (rev (c :: l)) = hd_error (rev l).
Proof.
  intros Hl. simpl. destruct (rev l) as [|x t] eqn:Hr; [|reflexivity].
  exfalso. apply Hl. rewrite <- (rev_involutive l), Hr. reflexivity.
Qed.

Lemma ends_with_sep_inv a :
  ends_with_sep a = true -> exists a', a = a' +:+ String sep "".
Proof.
  induction a as [|c a IH]; [discriminate|].
  destruct a as [|d a].
  - unfold ends_with_sep. simpl. intros H. apply Ascii.eqb_eq in H as ->.
    exists "". reflexivity.
  - intros H.
    assert (Ha : ends_with_sep (String d a) = true).
    { unfold ends_with_sep in *.
      pose proof (rev_head_nonempty c (list_ascii_of_string (String d a))) as E.
      simpl list_ascii_of_string in *.
      specialize (E ltac:(discriminate)).
      destruct (rev (c :: d :: list_ascii_of_string a)) as [|x t];
        destruct (rev (d :: list_ascii_of_string a)) as [|y u];
        simpl in E; try discriminate; congruence. }
    destruct (IH Ha) as [a' Ea]. exists (String c a').
    change (String c (String d a) = String c (a' +:+ String sep "")).
    rewrite Ea. reflexivity.
Qed.

Lemma append_cons x (a b : string) : String x a +:+ b = String x (a +:+ b).
Proof. reflexivity. Qed.

Lemma append_assoc (a b c : string) : (a +:+ b) +:+ c = a +:+ (b +:+ c).
Proof.
  induction a as [|x a IH]; [reflexivity|].
  rewrite !append_cons, IH. reflexivity.
Qed.

Lemma append_empty_r (a : string) : a +:+ "" = a.
Proof.
  induction a as [|x a IH]; [reflexivity|].
  rewrite append_cons, IH. reflexivity.
Qed.

(** [os.path.join(a, b)] inserts its ['/'] unless [a] brings it. *)
Lemma join_shape a b :
  isabs b = false -> a <> "" ->
  exists r, join a b = r +:+ String sep b
            /\ (a = r \/ a = r +:+ String sep "").
Proof.
  intros Hb Ha. unfold join. rewrite Hb.
  destruct (String.eqb a "") eqn:E; [apply String.eqb_eq in E; contradiction|].
  simpl. destruct (ends_with_sep a) eqn:Hs.
  - destruct (ends_with_sep_inv a Hs) as [r ->]. exists r.
    rewrite append_assoc. simpl. auto.
  - exists a. auto.
Qed.

Lemma walk_comps_join abs a b acc :
  isabs b = false ->
  walk_comps abs (join a b) acc = walk_comps abs b (walk_comps abs a acc).
Proof.
  intros Hb. destruct (string_dec a "") as [->|Ha].
  - unfold join. rewrite Hb. reflexivity.
  - destruct (join_shape a b Hb Ha) as (r & -> & [->| ->]).
    + apply walk_comps_app_sep.
    + rewrite !walk_comps_app_sep. reflexivity.
Qed.

Lemma isabs_app a b : a <> "" -> isabs (a +:+ b) = isabs a.
Proof. destruct a; [contradiction|reflexivity]. Qed.

Lemma isabs_join a b : isabs b = false -> isabs (join a b) = isabs a.
Proof.
  intros Hb. destruct (string_dec a "") as [->|Ha].
  - unfold join. rewrite Hb. simpl. exact Hb.
  - destruct (join_shape a b Hb Ha) as (r & -> & [->| ->]).
    + apply isabs_app, Ha.
    + destruct r; reflexivity.
Qed.

Lemma join_nonempty a b : b <> "" -> join a b <> "".
Proof.
  intros Hb. unfold join. destruct (isabs b); [exact Hb|].
  destruct a as [|x a]; [exact Hb|].
  destruct (String.eqb (String x a) "" || ends_with_sep (String x a));
    rewrite append_cons; discriminate.
Qed.


(** *** [normpath] of an absolute path *)

Lemma normpath_step_ok acc c :
  Forall (fun x => name_ok x = true) acc -> sep_free c = true ->
  Forall (fun x => name_ok x = true) (normpath_step true acc c).
Proof.
  intros Hacc Hc. unfold normpath_step, curdir, pardir.
  destruct (String.eqb c "") eqn:E1; [exact Hacc|].
  destruct (String.eqb c ".") eqn:E2; [exact Hacc|].
  destruct (String.eqb c "..") eqn:E3; cbn [negb orb andb].
  - destruct acc as [|x acc]; [exact Hacc|].
    inversion Hacc as [|? ? Hx Hrest]; subst.
    apply name_ok_inv in Hx as (_ & _ & -> & _). exact Hrest.
  - constructor; [|exact Hacc]. unfold name_ok. rewrite E1, E2, E3, Hc. reflexivity.
Qed.

Lemma walk_comps_ok p acc :
  Forall (fun x => name_ok x = true) acc ->
  Forall (fun x => name_ok x = true) (walk_comps true p acc).
Proof.
  unfold walk_comps. pose proof (split_sep_all_sep_free p) as H.
  revert acc. induction H as [|c l Hc _ IH]; intros acc Hacc; [exact Hacc|].
  simpl. apply IH, normpath_step_ok; assumption.
Qed.

Lemma split_sep_join_sep l :
  Forall (fun x => sep_free x = true) l -> l <> [] -> split_sep (join_sep l) = l.
Proof.
  induction 1 as [|x l Hx Hl IH]; [congruence|]. intros _.
  destruct l as [|y l].
  - simpl. apply split_sep_sep_free, Hx.
  - change (join_sep (x :: y :: l)) with (x +:+ String sep (join_sep (y :: l))).
    rewrite split_sep_app_sep, IH by discriminate.
    rewrite split_sep_sep_free by exact Hx. reflexivity.
Qed.

Lemma nonempty_comps_join_sep l :
  Forall (fun x => name_ok x = true) l -> nonempty_comps (join_sep l) = l.
Proof.
  intros H. unfold nonempty_comps. destruct l as [|x l]; [reflexivity|].
  rewrite split_sep_join_sep; [| |discriminate].
  - induction H as [|y k Hy _ IH]; [reflexivity|].
    apply name_ok_inv in Hy as (Hy & _).
    rewrite filter_cons_True by (rewrite Hy; exact I).
    rewrite IH. reflexivity.
  - eapply List.Forall_impl; [|exact H]. intros y Hy. apply name_ok_inv in Hy. tauto.
Qed.

Lemma nonempty_comps_sep s : nonempty_comps (String sep s) = nonempty_comps s.
Proof. reflexivity. Qed.

Lemma nonempty_comps_normpath q :
  isabs q = true -> nonempty_comps (normpath q) = rev (walk_comps true q []).
Proof.
  intros Hq. unfold normpath. rewrite Hq.
  destruct q as [|c q]; [discriminate|].
  change (String.eqb (String c q) "") with false. cbv iota.
  assert (Hok : Forall (fun x => name_ok x = true)
                       (rev (walk_comps true (String c q) []))).
  { apply Forall_rev, walk_comps_ok. constructor. }
  fold (walk_comps true (String c q) []).
  set (comps := rev (walk_comps true (String c q) [])) in *.
  cbn [andb].
  destruct (starts_with (String c q) "//" && negb (starts_with (String c q) "///")).
  - change ("//" +:+ join_sep comps) with (String sep (String sep (join_sep comps))).
    change (String.eqb (String sep (String sep (join_sep comps))) "") with false.
    cbv iota. rewrite !nonempty_comps_sep. apply nonempty_comps_join_sep, Hok.
  - change ("/" +:+ join_sep comps) with (String sep (join_sep comps)).
    change (String.eqb (String sep (join_sep comps)) "") with false.
    cbv iota. rewrite nonempty_comps_sep. apply nonempty_comps_join_sep, Hok.
Qed.

(** The components of the absolute form of [p]: those of the current
    directory, unless [p] is absolute, followed by those of [p], with [.]
    and [..] resolved. *)
Lemma components_walk cwd p :
  isabs cwd = true ->
  components cwd p
  = rev (walk_comps true p (if isabs p then [] else walk_comps true cwd [])).
Proof.
  intros Hcwd. unfold components, abspath.
  destruct (isabs p) eqn:Hp.
  - apply nonempty_comps_normpath, Hp.
  - rewrite nonempty_comps_normpath by (rewrite isabs_join; assumption).
    rewrite walk_comps_join by exact Hp. reflexivity.
Qed.

Lemma components_ok cwd p :
  isabs cwd = true -> Forall (fun x => name_ok x = true) (components cwd p).
Proof.
  intros Hcwd. rewrite components_walk by exact Hcwd.
  apply Forall_rev, walk_comps_ok.
  destruct (isabs p); [constructor|]. apply walk_comps_ok. constructor.
Qed.

(** Two paths that are absolute or not together, and that [normpath] walks
    alike, have the same components. *)
Lemma components_same cwd p q :
  isabs cwd = true -> isabs p = isabs q ->
  (forall acc, walk_comps true p acc = walk_comps true q acc) ->
  components cwd p = components cwd q.
Proof.
  intros Hcwd Habs Hwalk. rewrite !components_walk by exact Hcwd.
  rewrite Habs, Hwalk. reflexivity.
Qed.

Lemma components_join cwd a b :
  isabs cwd = true -> isabs b = false ->
  components cwd (join a b)
  = rev (walk_comps true b (rev (components cwd a))).
Proof.
  intros Hcwd Hb. rewrite !components_walk by exact Hcwd.
  rewrite isabs_join, walk_comps_join, rev_involutive by exact Hb. reflexivity.
Qed.

Lemma components_join_name cwd a f :
  isabs cwd = true -> name_ok f = true ->
  components cwd (join a f) = (components cwd a ++ [f])%list.
Proof.
  intros Hcwd Hf. rewrite components_join by auto using name_ok_not_abs.
  rewrite walk_comps_name by exact Hf. simpl. rewrite rev_involutive. reflexivity.
Qed.

Lemma components_join_names cwd a names :
  isabs cwd = true -> Forall (fun x => name_ok x = true) names ->
  components cwd (fold_left join names a) = (components cwd a ++ names)%list.
Proof.
  intros Hcwd H. revert a. induction H as [|f names Hf _ IH]; intros a.
  - simpl. rewrite app_nil_r. reflexivity.
  - simpl. rewrite IH, components_join_name, <- app_assoc by assumption.
    reflexivity.
Qed.


(** *** [dirname] and [basename] of a joined path *)

Lemma walk_comps_all_sep abs t acc : all_sep t = true -> walk_comps abs t acc = acc.
Proof.
  unfold all_sep. revert acc. induction t as [|c t IH]; intros acc H; [reflexivity|].
  cbn [list_ascii_of_string forallb] in H.
  apply andb_prop in H as [Hc Ht]. apply Ascii.eqb_eq in Hc as <-.
  change (String sep t) with ("" +:+ String sep t).
  rewrite walk_comps_app_sep. apply IH, Ht.
Qed.

Lemma walk_comps_app_all_sep abs r t acc :
  all_sep t = true -> walk_comps abs (r +:+ t) acc = walk_comps abs r acc.
Proof.
  intros H. destruct t as [|c t]; [rewrite append_empty_r; reflexivity|].
  unfold all_sep in H. cbn [list_ascii_of_string forallb] in H.
  apply andb_prop in H as [Hc Ht].
  apply Ascii.eqb_eq in Hc as <-.
  rewrite walk_comps_app_sep. apply walk_comps_all_sep, Ht.
Qed.

Lemma drop_seps_split m :
  exists pre, m = (pre ++ drop_seps m)%list /\ forallb (Ascii.eqb sep) pre = true.
Proof.
  induction m as [|c m (pre & E & Hpre)]; [exists []; split; reflexivity|].
  cbn [drop_seps]. destruct (Ascii.eqb c sep) eqn:Hc.
  - exists (c :: pre). split; [cbn [app]; rewrite <- E; reflexivity|].
    cbn [forallb]. rewrite Hpre, Ascii.eqb_sym, Hc. reflexivity.
  - exists []. split; reflexivity.
Qed.

Lemma string_of_list_ascii_append l k :
  string_of_list_ascii (l ++ k) = string_of_list_ascii l +:+ string_of_list_ascii k.
Proof.
  induction l as [|c l IH]; [reflexivity|].
  simpl. rewrite IH. reflexivity.
Qed.

Lemma forallb_rev_true {A} (f : A -> bool) l :
  forallb f l = true -> forallb f (rev l) = true.
Proof.
  rewrite !forallb_forall. intros H x Hx. apply H, in_rev, Hx.
Qed.

(** [s.rstrip('/')] takes a run of ['/'] off the end of [s]. *)
Lemma rstrip_sep_split h :
  exists t, h = rstrip_sep h +:+ t /\ all_sep t = true.
Proof.
  unfold rstrip_sep.
  destruct (drop_seps_split (rev (list_ascii_of_string h))) as (pre & E & Hpre).
  exists (string_of_list_ascii (rev pre)). split.
  - rewrite <- string_of_list_ascii_append.
    rewrite <- rev_app_distr, <- E, rev_involutive.
    symmetry. apply string_of_list_ascii_of_string.
  - unfold all_sep. rewrite list_ascii_of_string_of_list_ascii.
    apply forallb_rev_true, Hpre.
Qed.

(** What [dirname] makes of the head [h] of a path: the same directory. *)
Lemma dirname_head h :
  h <> "" ->
  let d := if negb (String.eqb h "") && negb (all_sep h) then rstrip_sep h else h in
  d <> "" /\ isabs d = isabs h
  /\ forall abs acc, walk_comps abs d acc = walk_comps abs h acc.
Proof.
  intros Hh. cbv zeta.
  destruct (String.eqb h "") eqn:E; [apply String.eqb_eq in E; contradiction|].
  cbn [negb andb]. destruct (all_sep h) eqn:Hall; cbn [negb]; [auto|].
  destruct (rstrip_sep_split h) as (t & Eh & Ht).
  assert (Hne : rstrip_sep h <> "").
  { intros E0. rewrite E0 in Eh. change ("" +:+ t) with t in Eh.
    rewrite Eh, Ht in Hall. discriminate. }
  split; [exact Hne|]. split.
  - rewrite Eh at 2. symmetry. apply isabs_app, Hne.
  - intros abs acc. rewrite Eh at 2. symmetry. apply walk_comps_app_all_sep, Ht.
Qed.

Lemma length_append (a b : string) :
  String.length (a +:+ b) = (String.length a + String.length b)%nat.
Proof.
  induction a as [|c a IH]; [reflexivity|].
  rewrite append_cons. simpl. rewrite IH. reflexivity.
Qed.

Lemma substring_prefix (a b : string) :
  substring 0 (String.length (a +:+ b) - String.length b) (a +:+ b) = a.
Proof.
  rewrite length_append, Nat.add_sub.
  induction a as [|c a IH].
  - destruct b; reflexivity.
  - rewrite append_cons. simpl. rewrite IH. reflexivity.
Qed.

Lemma rsplit_sep_name r f :
  name_ok f = true ->
  rsplit_sep (r +:+ String sep f) = (r +:+ String sep "", f).
Proof.
  intros Hf. unfold rsplit_sep.
  rewrite split_sep_app_sep.
  rewrite (split_sep_sep_free f) by (apply name_ok_inv in Hf; tauto).
  rewrite last_last.
  change (String sep f) with (String sep "" +:+ f).
  rewrite <- append_assoc, substring_prefix. reflexivity.
Qed.

(** The directory and the name of [os.path.join(root, file)]. *)
Lemma split_join root f :
  root <> "" -> name_ok f = true ->
  basename (join root f) = f
  /\ dirname (join root f) <> ""
  /\ isabs (dirname (join root f)) = isabs root
  /\ forall abs acc,
       walk_comps abs (dirname (join root f)) acc = walk_comps abs root acc.
Proof.
  intros Hroot Hf.
  destruct (join_shape root f (name_ok_not_abs f Hf) Hroot) as (r & Ej & Er).
  unfold basename, dirname. rewrite Ej, rsplit_sep_name by exact Hf.
  cbn [fst snd]. split; [reflexivity|].
  assert (Hh : r +:+ String sep "" <> "") by (destruct r; discriminate).
  destruct (dirname_head _ Hh) as (Hd & Habs & Hwalk).
  split; [exact Hd|].
  assert (Hroot' : isabs (r +:+ String sep "") = isabs root
                   /\ forall abs acc, walk_comps abs (r +:+ String sep "") acc
                                      = walk_comps abs root acc).
  { destruct Er as [<-| ->]; [|auto]. split.
    - apply isabs_app, Hroot.
    - intros abs acc. rewrite walk_comps_app_sep. reflexivity. }
  destruct Hroot' as [Habs' Hwalk']. split.
  - rewrite Habs. exact Habs'.
  - intros abs acc. rewrite Hwalk. apply Hwalk'.
Qed.

(** *** [relpath] *)

Lemma commonprefix_len_app l k : commonprefix_len l (l ++ k) = length l.
Proof.
  induction l as [|x l IH]; [destruct k; reflexivity|].
  simpl. rewrite String.eqb_refl, IH. reflexivity.
Qed.

Lemma components_start cwd start :
  isabs cwd = true ->
  components cwd (if String.eqb start "" then curdir else start)
  = components cwd start.
Proof.
  intros Hcwd. destruct (String.eqb start "") eqn:E; [|reflexivity].
  apply String.eqb_eq in E as ->.
  apply components_same; [exact Hcwd|reflexivity|reflexivity].
Qed.

(** The relative path of a path below [start]. *)
Lemma relpath_under cwd path start sub :
  isabs cwd = true -> path <> "" ->
  components cwd path = (components cwd start ++ sub)%list ->
  relpath cwd path start = Ok (render_rel sub).
Proof.
  intros Hcwd Hpath Hsub. unfold relpath.
  destruct (String.eqb path "") eqn:E; [apply String.eqb_eq in E; contradiction|].
  fold (components cwd path).
  fold (components cwd (if String.eqb start "" then curdir else start)).
  rewrite components_start, Hsub by exact Hcwd.
  rewrite commonprefix_len_app, Nat.sub_diag, drop_app_length.
  destruct sub; reflexivity.
Qed.

Lemma fold_join_names abs names a acc :
  Forall (fun x => name_ok x = true) names ->
  isabs (fold_left join names a) = isabs a
  /\ walk_comps abs (fold_left join names a) acc
     = (rev names ++ walk_comps abs a acc)%list.
Proof.
  intros H. revert a. induction H as [|f names Hf _ IH]; intros a; [auto|].
  simpl. destruct (IH (join a f)) as [-> ->].
  rewrite isabs_join, walk_comps_join by auto using name_ok_not_abs.
  rewrite walk_comps_name, <- app_assoc by exact Hf. auto.
Qed.

Lemma render_rel_names abs names acc :
  Forall (fun x => name_ok x = true) names ->
  isabs (render_rel names) = false
  /\ walk_comps abs (render_rel names) acc = (rev names ++ acc)%list.
Proof.
  intros H. destruct names as [|x names]; [auto|].
  inversion H as [|? ? Hx Hrest]; subst. unfold render_rel, join_list.
  destruct (fold_join_names abs names x acc Hrest) as [-> ->].
  rewrite walk_comps_name by exact Hx. simpl. rewrite <- app_assoc.
  auto using name_ok_not_abs.
Qed.

(** The destination of an image mirrors its source: for the image [file]
    that [os.walk] finds in the directory [names] below the source root,
    the path of the copy relative to the destination root is the path of
    the image relative to the source root. *)
Lemma destination_mirrors_source cwd src dest names file :
  isabs cwd = true -> src <> "" ->
  Forall (fun x => name_ok x = true) names -> name_ok file = true ->
  let image_path := join (fold_left join names src) file in
  let rel := render_rel names in
  let dest_image_path := join (join dest rel) (basename image_path) in
  relpath cwd (dirname image_path) src = Ok rel
  /\ relpath cwd image_path src = Ok (join_list (names ++ [file]))
  /\ relpath cwd dest_image_path dest = Ok (join_list (names ++ [file])).
Proof.
  intros Hcwd Hsrc Hnames Hfile. cbv zeta.
  set (root := fold_left join names src).
  assert (Hroot : root <> "").
  { unfold root. clear - Hsrc Hnames. revert src Hsrc.
    induction Hnames as [|f names Hf _ IH]; intros src Hsrc; [exact Hsrc|].
    simpl. apply IH, join_nonempty. apply name_ok_inv in Hf as (Hf & _).
    intros ->. discriminate. }
  assert (Hfne : file <> "").
  { apply name_ok_inv in Hfile as (Hf & _). intros ->. discriminate. }
  destruct (split_join root file Hroot Hfile) as (Hbase & Hdne & Hdabs & Hdwalk).
  assert (Hcroot : components cwd root = (components cwd src ++ names)%list)
    by (apply components_join_names; assumption).
  assert (Hrender : forall l x, render_rel (l ++ [x]) = join_list (l ++ [x]))
    by (intros [|? ?] ?; reflexivity).
  split; [|split].
  - apply relpath_under; [assumption..|].
    rewrite <- Hcroot.
    apply components_same; [exact Hcwd|exact Hdabs|apply Hdwalk].
  - rewrite <- Hrender. apply relpath_under; [exact Hcwd|apply join_nonempty, Hfne|].
    rewrite components_join_name, Hcroot, <- app_assoc by assumption. reflexivity.
  - rewrite Hbase, <- Hrender.
    apply relpath_under; [exact Hcwd|apply join_nonempty, Hfne|].
    destruct (render_rel_names true names (rev (components cwd dest)) Hnames)
      as [Hrabs Hrwalk].
    rewrite components_join_name, components_join by assumption.
    rewrite Hrwalk, rev_app_distr, !rev_involutive, <- app_assoc. reflexivity.
Qed.

End Paths.

(** ** Claims about the destination *)

Section MakedirsSim.

(** [os.makedirs(p, exist_ok=True)] of the reference implementation: once
    it has succeeded, calling it again succeeds and changes nothing. *)
Lemma sim_makedirs_exist_ok_again p s s' :
  Sim.sim_makedirs p true s = (Ok tt, s') ->
  Sim.sim_makedirs p true s' = (Ok tt, s').
Proof.
  unfold Sim.sim_makedirs. cbv zeta.
  assert (Hres : forall d, Sim.resolve (Sim.set_dirs s d) p = Sim.resolve s p)
    by reflexivity.
  assert (Hin : forall X d,
             Sim.is_dir (Sim.set_dirs s ({[ Sim.resolve s p ]} ∪ X ∪ d))
                        (Sim.resolve s p) = true).
  { intros X d. unfold Sim.is_dir. apply bool_decide_eq_true. simpl. set_solver. }
  destruct (Sim.is_dir s (Sim.resolve s p)) eqn:Hd.
  - intros H. injection H as <-. rewrite Hd. reflexivity.
  - destruct (Sim.is_file s (Sim.resolve s p)); [discriminate|].
    destruct (existsb _ _); [discriminate|].
    destruct (filter _ _) as [|d ds].
    + intros H. injection H as <-. rewrite Hres, Hin. reflexivity.
    + destruct (bool_decide _); [discriminate|].
      intros H. injection H as <-. rewrite Hres, Hin. reflexivity.
Qed.

End MakedirsSim.

Section SimFileSystem.

Import Sim.

Lemma stateless_inv {A} (op : state -> result A * state) s r s' :
  stateless op -> op s = (r, s') -> s' = s /\ forall t, op t = (r, t).
Proof.
  intros Hp H. split.
  - pose proof (Hp s s) as E. rewrite H in E. injection E as E. exact E.
  - intros t. rewrite (Hp s t), H. reflexivity.
Qed.

Lemma sim_exif_transpose_stateless im : stateless (sim_exif_transpose im).
Proof. intros s t. reflexivity. Qed.

Lemma sim_resize_stateless im sz : stateless (sim_resize im sz).
Proof. intros s t. unfold sim_resize. destruct (_ || _); reflexivity. Qed.

Lemma sim_convert_stateless im m : stateless (sim_convert im m).
Proof. intros s t. reflexivity. Qed.

Lemma sim_new_stateless m sz c : stateless (sim_new m sz c).
Proof. intros s t. reflexivity. Qed.

Lemma sim_paste_stateless l im b : stateless (sim_paste l im b).
Proof. intros s t. reflexivity. Qed.

Lemma sim_alpha_composite_stateless a b : stateless (sim_alpha_composite a b).
Proof.
  intros s t. unfold sim_alpha_composite. destruct (_ && _); reflexivity.
Qed.

Lemma sim_open_state p s r s' : sim_open p s = (r, s') -> s' = s.
Proof.
  unfold sim_open.
  destruct (files s !! resolve s p) as [[im|]|].
  - destruct (bool_decide _); intros [= _ <-]; reflexivity.
  - intros [= _ <-]; reflexivity.
  - destruct (is_dir s _); intros [= _ <-]; reflexivity.
Qed.

(** [Image.open] finds the same image in a state that has the same file at
    that path. *)
Lemma sim_open_again p s im s' t :
  sim_open p s = (Ok im, s') ->
  cwd t = cwd s -> readonly t = readonly s ->
  files t !! resolve s p = files s !! resolve s p ->
  sim_open p t = (Ok im, t).
Proof.
  unfold sim_open, resolve. intros H Hc Hr Hf. rewrite Hc, Hr, Hf.
  destruct (files s !! posixpath.abspath (cwd s) p) as [[im0|]|].
  - destruct (bool_decide _); [discriminate|]. injection H as -> _. reflexivity.
  - discriminate.
  - destruct (is_dir s _); discriminate.
Qed.

(** [os.makedirs(p, exist_ok=True)] that succeeded: the directory exists
    afterwards, no directory is lost, no file is touched, and calling it
    again succeeds and changes nothing. *)
Lemma sim_makedirs_ok p s s' :
  sim_makedirs p true s = (Ok tt, s') ->
  cwd s' = cwd s /\ files s' = files s /\ readonly s' = readonly s
  /\ dirs s ⊆ dirs s'
  /\ is_dir s' (resolve s p) = true.
Proof.
  unfold sim_makedirs. cbv zeta.
  assert (Hin : forall X d,
             is_dir (set_dirs s ({[ resolve s p ]} ∪ X ∪ d)) (resolve s p) = true).
  { intros X d. unfold is_dir. apply bool_decide_eq_true. simpl. set_solver. }
  destruct (is_dir s (resolve s p)) eqn:Hd.
  - intros [= <-]. repeat split; try reflexivity. exact Hd.
  - destruct (is_file s (resolve s p)); [discriminate|].
    destruct (existsb _ _); [discriminate|].
    destruct (filter _ _) as [|d ds].
    + intros [= <-]. repeat split; try reflexivity; [simpl; set_solver|apply Hin].
    + destruct (bool_decide _); [discriminate|].
      intros [= <-]. repeat split; try reflexivity; [simpl; set_solver|apply Hin].
Qed.

(** [save] that succeeded: it wrote one file, the image it was given, at
    the path it was given, below a directory that exists. *)
Lemma sim_save_ok im p f s s' :
  sim_save im p f s = (Ok tt, s') ->
  s' = set_files s (<[ resolve s p := ImageFile (SimImage (s_mode im) f (s_size im)) ]>
                      (files s))
  /\ is_dir s (posixpath.dirname (resolve s p)) = true.
Proof.
  unfold sim_save. cbv zeta.
  destruct f as [f|]; [|discriminate].
  destruct (is_dir s (posixpath.dirname (resolve s p))); [|discriminate].
  cbn [negb].
  destruct (bool_decide _); [discriminate|].
  destruct (is_dir s (resolve s p)); [discriminate|].
  destruct (_ && _); [discriminate|].
  intros [= <-]. split; reflexivity.
Qed.

(** Saving the same image at the same path again leaves the state as it
    is. *)
Lemma sim_save_again im p f s s' :
  sim_save im p f s = (Ok tt, s') -> sim_save im p f s' = (Ok tt, s').
Proof.
  intros H. destruct (sim_save_ok _ _ _ _ _ H) as [-> _].
  revert H. unfold sim_save. cbv zeta.
  destruct f as [f|]; [|discriminate].
  change (resolve (set_files s ?x) p) with (resolve s p).
  change (is_dir (set_files s ?x) ?a) with (is_dir s a).
  change (readonly (set_files s ?x)) with (readonly s).
  destruct (negb _); [discriminate|].
  destruct (bool_decide _); [discriminate|].
  destruct (is_dir s (resolve s p)); [discriminate|].
  destruct (_ && _); [discriminate|].
  intros _. unfold set_files. cbn [cwd dirs files readonly argv listing].
  rewrite insert_insert_eq. reflexivity.
Qed.

Lemma sim_makedirs_existing p s :
  is_dir s (resolve s p) = true -> sim_makedirs p true s = (Ok tt, s).
Proof. unfold sim_makedirs. cbv zeta. intros ->. reflexivity. Qed.

(** The end of a run of [process_image] that saved: [makedirs] and then
    [save], both without error. *)
Lemma sim_makedirs_save d p x f s s1 s2 :
  sim_makedirs d true s = (Ok tt, s1) ->
  sim_save x p f s1 = (Ok tt, s2) ->
  cwd s2 = cwd s /\ readonly s2 = readonly s
  /\ dirs s ⊆ dirs s2
  /\ is_dir s2 (resolve s d) = true
  /\ files s2 = <[ resolve s p := ImageFile (SimImage (s_mode x) f (s_size x)) ]>
                  (files s)
  /\ sim_makedirs d true s2 = (Ok tt, s2)
  /\ sim_save x p f s2 = (Ok tt, s2).
Proof.
  intros Hm Hs.
  destruct (sim_makedirs_ok _ _ _ Hm) as (Hc & Hf & Hr & Hd & Hi).
  pose proof (sim_save_again _ _ _ _ _ Hs) as Hagain.
  destruct (sim_save_ok _ _ _ _ _ Hs) as [-> _].
  assert (Hres : forall q, resolve s1 q = resolve s q)
    by (intros q; unfold resolve; rewrite Hc; reflexivity).
  split; [exact Hc|]. split; [exact Hr|]. split; [exact Hd|].
  split; [exact Hi|].
  split; [cbn [files set_files]; rewrite Hres, Hf; reflexivity|].
  split; [|exact Hagain].
  apply sim_makedirs_existing.
  change (is_dir s1 (resolve s1 d) = true). rewrite Hres. exact Hi.
Qed.

End SimFileSystem.

Section PositionRun.

Context {S : Type}.

(** [get_watermark_position] reads nothing of the world: its result and
    what it logs are the same in every world. *)
Lemma get_watermark_position_run position isz wsz :
  exists pos l,
    forall w : world S,
      get_watermark_position position isz wsz w
      = (Ok pos, World (ext w) (log w ++ l) (trace w)).
Proof.
  destruct isz as [iw ih], wsz as [ww wh]. unfold get_watermark_position.
  repeat (match goal with
          | |- context [if ?b then _ else _] =>
              destruct b;
              [eexists _, []; intros [s l t]; cbn; rewrite app_nil_r; reflexivity|]
          end).
  eexists _, [_]. intros [s l t]. reflexivity.
Qed.

Lemma wp_get_watermark_position_run position isz wsz Q (s : S) L l T t :
  (forall pos l',
     (forall w : world S,
        get_watermark_position position isz wsz w
        = (Ok pos, World (ext w) (log w ++ l') (trace w))) ->
     Q (Ok pos) (World s (L ++ (l ++ l')) (T ++ t))) ->
  wp (get_watermark_position position isz wsz) Q (World s (L ++ l) (T ++ t)).
Proof.
  intros HQ.
  destruct (get_watermark_position_run position isz wsz) as (pos & l' & H).
  unfold wp. rewrite H. cbn [ext log trace]. rewrite <- app_assoc.
  apply HQ, H.
Qed.

(** An equation for a run, from the rules. *)
Lemma wp_eq {A} (m : M S A) (w : world S) x :
  wp m (fun r w' => (r, w') = x) w -> m w = x.
Proof. unfold wp. destruct (m w). exact (fun H => H). Qed.

(** A call whose outcome on the current state is known. *)
Lemma wp_call_known {A} c (op : S -> result A * S) Q (s : S) L l T t a s' :
  op s = (Ok a, s') ->
  Q (Ok a) (World s' (L ++ l) (T ++ (t ++ [Event c None]))) ->
  wp (do_call c op) Q (World s (L ++ l) (T ++ t)).
Proof.
  intros E HQ. apply wp_call_acc. intros r s1 E1.
  rewrite E in E1. injection E1 as <- <-. exact HQ.
Qed.

Lemma wp_get_watermark_position_known position isz wsz Q (s : S) L l T t pos l' :
  (forall w : world S,
     get_watermark_position position isz wsz w
     = (Ok pos, World (ext w) (log w ++ l') (trace w))) ->
  Q (Ok pos) (World s (L ++ (l ++ l')) (T ++ t)) ->
  wp (get_watermark_position position isz wsz) Q (World s (L ++ l) (T ++ t)).
Proof.
  intros H HQ. unfold wp. rewrite H. cbn [ext log trace].
  rewrite <- app_assoc. exact HQ.
Qed.

End PositionRun.

(** Running a computation again, every step of which has an outcome that is
    known from the context. *)
Ltac wp_replay :=
  repeat (lazymatch goal with
          | |- wp (bind _ _) _ _ => apply wp_bind
          | |- wp (ret _) _ _ => apply wp_ret
          | |- wp (lift ?r) _ _ =>
              match goal with
              | H : r = Ok _ |- _ => rewrite H; apply wp_lift
              end
          | |- wp (query _) _ _ => apply wp_query
          | |- wp (logging _ _) _ _ => apply wp_logging_acc
          | |- wp (do_call _ _) _ _ => eapply wp_call_known; [eassumption|]
          | |- wp (get_watermark_position _ _ _) _ _ =>
              eapply wp_get_watermark_position_known; [eassumption|]
          | |- wp (if ?b then _ else _) _ _ =>
              match goal with
              | H : b = _ |- _ => rewrite H
              end
          | |- wp (let '(_, _) := ?p in _) _ _ =>
              match goal with
              | H : p = _ |- _ => rewrite H
              end
          | |- wp (match ?p with (_, _) => _ end) _ _ =>
              match goal with
              | H : p = _ |- _ => rewrite H
              end
          end; cbn beta iota; cbn [ext exn_of app]).

(** As [wp_go], keeping what [get_watermark_position] computes. *)
Ltac wp_go_run :=
  repeat first
    [ lazymatch goal with
      | |- wp (get_watermark_position _ _ _) _ _ =>
          apply wp_get_watermark_position_run; intros ? ? ?;
          cbn beta iota; cbn [ext exn_of app]
      end
    | wp_step ].

(** The calls of the reference implementation that leave the state alone:
    the state after the call is the state before it, and the outcome is the
    same on every state. *)
Ltac sim_stateless :=
  repeat match goal with
         | H : ?op ?s = (_, ?s') |- _ =>
             is_var s';
             let Hp := fresh "Hp" in
             assert (Hp : stateless op) by
               first [ exact (sim_exif_transpose_stateless _)
                     | exact (sim_resize_stateless _ _)
                     | exact (sim_convert_stateless _ _)
                     | exact (sim_new_stateless _ _ _)
                     | exact (sim_paste_stateless _ _ _)
                     | exact (sim_alpha_composite_stateless _ _) ];
             let Hs := fresh "Hs" in
             let Hg := fresh "Hg" in
             destruct (stateless_inv op s _ s' Hp H) as [Hs Hg];
             clear H Hp; subst s'
         end.

Section SimRun.

Import Sim.

(** A run of the body of [process_image] on the reference file system that
    resized the watermark and returned: what it leaves on the file system,
    and what a second run does on the state it left. *)
Lemma process_image_body_sim image_path watermark args (w : world state) :
  wp (process_image_body image_path watermark args)
     (fun r w' =>
        r = Ok tt ->
        (exists sz o, In (Event (Call_resize sz) o) (new_events w w')) ->
        exists rel out,
          posixpath.relpath (cwd (ext w)) (posixpath.dirname image_path)
                            (source_dir args) = Ok rel
          /\ let d := posixpath.join (dest_dir args) rel in
             let p := posixpath.join d (posixpath.basename image_path) in
             is_dir (ext w') (resolve (ext w) d) = true
             /\ dirs (ext w) ⊆ dirs (ext w')
             /\ files (ext w') = <[ resolve (ext w) p := ImageFile out ]> (files (ext w))
             /\ cwd (ext w') = cwd (ext w)
             /\ sim_makedirs d true (ext w') = (Ok tt, ext w')
             /\ (resolve (ext w) p <> resolve (ext w) image_path ->
                 forall W, ext W = ext w' ->
                   process_image_body image_path watermark args W
                   = (Ok tt, World (ext w') (log W ++ new_log w w')
                                   (trace W ++ new_events w w')))) w.
Proof.
  apply wp_start. unfold process_image_body at 1.
  wp_go_run.
  all: rewrite new_events_app, new_log_app; cbn [ext].
  all: intros Hok; try discriminate Hok.
  all: intros (sz & o1 & Hin); cbn [In] in Hin.
  all: try (exfalso; in_cases Hin; fail).
  all: clear Hin Hok.
  all: repeat match goal with
              | u : unit |- _ => destruct u
              end.
  all: match goal with
       | H : Image_open _ _ = (Ok _, ?s') |- _ =>
           pose proof (sim_open_state _ _ _ _ H); subst s'
       end.
  all: sim_stateless.
  all: match goal with
       | Hrel : posixpath.relpath _ _ _ = Ok ?rel,
         Hm : os_makedirs ?d true ?s = (Ok tt, ?s1),
         Hsv : Image_save ?x ?p ?f ?s1 = (Ok tt, ?s2) |- _ =>
           destruct (sim_makedirs_save d p x f s s1 s2 Hm Hsv)
             as (Hc & Hr & Hd & Hi & Hf & Hm2 & Hsv2);
           exists rel, (SimImage (s_mode x) f (s_size x));
           split; [exact Hrel|]; cbv zeta;
           split; [exact Hi|]; split; [exact Hd|]; split; [exact Hf|];
           split; [exact Hc|]; split; [exact Hm2|];
           intros Hne W HW;
           assert (Hopen2 : Image_open image_path s2 = (Ok a, s2))
             by (eapply sim_open_again;
                 [eassumption | exact Hc | exact Hr
                 | rewrite Hf; apply lookup_insert_ne; exact Hne]);
           assert (Hc2 : os_getcwd s2 = os_getcwd s) by exact Hc;
           assert (Hm3 : os_makedirs d true s2 = (Ok tt, s2)) by exact Hm2;
           assert (Hsv3 : Image_save x p f s2 = (Ok tt, s2)) by exact Hsv2;
           clear Hc Hr Hd Hi Hf Hm2 Hsv2 Hm Hsv Hne;
           repeat match goal with
                  | Hg : forall t : state, _ |- _ => specialize (Hg s2)
                  end
       end.
  all: match goal with
       | Ho : Image_open _ (ext _) = _ |- _ => clear Ho
       end.
  all: apply wp_eq, wp_start; rewrite HW; unfold process_image_body.
  all: wp_replay.
  all: rewrite Hc2; wp_replay.
  all: repeat match goal with
              | Hsz : im_size _ = (_, _) |- _ => rewrite Hsz
              end.
  all: reflexivity.
Qed.

End SimRun.

Section MirrorRun.

Context {S : Type} `{PIL : Imaging S} `{Os : OS S}.

(** A run of the body of [process_image] that resized the watermark and
    returned: the calls it ended with, and the states they ran on. *)
Lemma process_image_body_writes image_path watermark args (w : world S) :
  wp (process_image_body image_path watermark args)
     (fun r w' =>
        r = Ok tt ->
        (exists sz o, In (Event (Call_resize sz) o) (new_events w w')) ->
        exists s s1 rel wm f pre,
          posixpath.relpath (os_getcwd s) (posixpath.dirname image_path)
                            (source_dir args) = Ok rel
          /\ os_makedirs (posixpath.join (dest_dir args) rel) true s = (Ok tt, s1)
          /\ Image_save wm (posixpath.join (posixpath.join (dest_dir args) rel)
                                           (posixpath.basename image_path)) f s1
             = (Ok tt, ext w')
          /\ new_events w w'
             = (pre ++ [Event (Call_makedirs
                                 (posixpath.join (dest_dir args) rel) true) None;
                        Event (Call_save
                                 (posixpath.join (posixpath.join (dest_dir args) rel)
                                                 (posixpath.basename image_path))
                                 f (im_mode wm)) None])%list
          /\ saved_paths pre = []) w.
Proof.
  apply wp_start. unfold process_image_body.
  wp_go.
  all: rewrite new_events_app.
  all: intros Hok; try discriminate Hok.
  all: intros (sz & o1 & Hin); cbn [In] in Hin.
  all: try (exfalso; in_cases Hin; fail).
  all: clear Hin Hok.
  all: repeat match goal with
              | u : unit |- _ => destruct u
              end.
  all: eexists _, _, _, _, _, _; split; [eassumption|]; split; [eassumption|];
    split; [eassumption|].
  all: split; [match goal with
               | |- ?l = _ => instantiate (1 := take (length l - 2) l); reflexivity
               end|reflexivity].
Qed.

End MirrorRun.

Section MirrorClaims.

(** C9.  First part, for every library and operating system.  When the body
    of [process_image] has resized the watermark and returned, it has
    called [os.makedirs(dest_path, exist_ok=True)] and then [save] on
    [dest_image_path], both without error and as its last two calls;
    [dest_path] is the destination root joined with the directory of the
    image relative to the source root (relative to the current directory
    [os.getcwd()] of the state [makedirs] ran on), and [dest_image_path] is
    [dest_path] joined with the name of the image; nothing else was saved,
    and [process_image] returns the same.  When that current directory is
    absolute and the image is what [os.walk] finds ([file] in the directory
    [names] below the source root), the path of the copy relative to the
    destination root is the path of the image relative to the source root.
    Second part, on the reference file system: after such a run the
    directory exists, no directory was removed, the one file written is the
    copy, [makedirs] of the directory succeeds again and changes nothing,
    and when the copy is not the image itself a second run on the state the
    first one left returns without error, makes the same calls, logs the
    same records and leaves the state as it is. *)
Theorem destination_path_mirrors_source :
  (forall (S : Type) (PIL : Imaging S) (Os : OS S)
          image_path (watermark : image) args (w w' : world S),
     process_image_body image_path watermark args w = (Ok tt, w') ->
     (exists sz o, In (Event (Call_resize sz) o) (new_events w w')) ->
     exists s s1 rel out f pre,
       let dest_path := posixpath.join (dest_dir args) rel in
       let dest_image_path :=
         posixpath.join dest_path (posixpath.basename image_path) in
       posixpath.relpath (os_getcwd s) (posixpath.dirname image_path)
                         (source_dir args) = Ok rel
       /\ os_makedirs dest_path true s = (Ok tt, s1)
       /\ Image_save out dest_image_path f s1 = (Ok tt, ext w')
       /\ new_events w w'
          = (pre ++ [Event (Call_makedirs dest_path true) None;
                     Event (Call_save dest_image_path f (im_mode out)) None])%list
       /\ saved_paths (new_events w w') = [dest_image_path]
       /\ process_image image_path watermark args w = (Ok tt, w')
       /\ (forall names file,
             posixpath.isabs (os_getcwd s) = true ->
             source_dir args <> "" ->
             Forall (fun x => name_ok x = true) names ->
             name_ok file = true ->
             image_path
             = posixpath.join (fold_left posixpath.join names (source_dir args))
                              file ->
             posixpath.relpath (os_getcwd s) dest_image_path (dest_dir args)
             = Ok (posixpath.join_list (names ++ [file]))
             /\ posixpath.relpath (os_getcwd s) image_path (source_dir args)
                = Ok (posixpath.join_list (names ++ [file]))))
  /\ (forall image_path watermark args (w w' : world Sim.state),
        process_image_body image_path watermark args w = (Ok tt, w') ->
        (exists sz o, In (Event (Call_resize sz) o) (new_events w w')) ->
        exists rel out,
          let dest_path := posixpath.join (dest_dir args) rel in
          let dest_image_path :=
            posixpath.join dest_path (posixpath.basename image_path) in
          posixpath.relpath (Sim.cwd (ext w)) (posixpath.dirname image_path)
                            (source_dir args) = Ok rel
          /\ Sim.is_dir (ext w') (Sim.resolve (ext w) dest_path) = true
          /\ Sim.dirs (ext w) ⊆ Sim.dirs (ext w')
          /\ Sim.files (ext w')
             = <[ Sim.resolve (ext w) dest_image_path := Sim.ImageFile out ]>
                 (Sim.files (ext w))
          /\ Sim.sim_makedirs dest_path true (ext w') = (Ok tt, ext w')
          /\ (Sim.resolve (ext w) dest_image_path
              <> Sim.resolve (ext w) image_path ->
              process_image_body image_path watermark args w'
              = (Ok tt, World (ext w') (log w' ++ new_log w w')
                              (trace w' ++ new_events w w')))).
Proof.
  split.
  - intros S PIL Os image_path watermark args w w' Hrun Hres.
    pose proof (process_image_body_writes image_path watermark args w) as H.
    apply (wp_elim _ _ _ _ _ H Hrun) in Hres; [|reflexivity]. clear H.
    destruct Hres as (s & s1 & rel & out & f & pre & Hrel & Hmk & Hsv & Hev & Hpre).
    exists s, s1, rel, out, f, pre. cbv zeta.
    split; [exact Hrel|]. split; [exact Hmk|]. split; [exact Hsv|].
    split; [exact Hev|].
    split; [rewrite Hev, saved_paths_app, Hpre; reflexivity|].
    split; [unfold process_image, try_except; rewrite Hrun; reflexivity|].
    intros names file Hcwd Hsrc Hnames Hfile ->.
    destruct (destination_mirrors_source (os_getcwd s) (source_dir args)
                (dest_dir args) names file Hcwd Hsrc Hnames Hfile)
      as (Hd & Hs & Hdest).
    cbv zeta in Hd, Hs, Hdest. rewrite Hd in Hrel. injection Hrel as <-.
    split; [exact Hdest|exact Hs].
  - intros image_path watermark args w w' Hrun Hres.
    pose proof (process_image_body_sim image_path watermark args w) as H.
    apply (wp_elim _ _ _ _ _ H Hrun) in Hres; [|reflexivity]. clear H.
    destruct Hres as (rel & out & Hrel & Hdir & Hsub & Hfiles & _ & Hmk & Hagain).
    exists rel, out. cbv zeta.
    split; [exact Hrel|]. split; [exact Hdir|]. split; [exact Hsub|].
    split; [exact Hfiles|]. split; [exact Hmk|].
    intros Hne. apply (Hagain Hne w' eq_refl).
Qed.

End MirrorClaims.

Lemma destination_path_mirrors_source_witness :
  let w0 := Scenario.w0 in
  let w' := snd (process_image_body "/src/sub/b.jpg" Scenario.overlay
                                    Scenario.args0 w0) in
  (saved_paths (new_events w0 w') = ["/dest/sub/b.jpg"]
   /\ posixpath.relpath "/home" "/dest/sub/b.jpg" "/dest"
      = posixpath.relpath "/home" "/src/sub/b.jpg" "/src")
  /\ (Sim.is_dir (ext w') "/dest/sub" = true
      /\ Sim.is_file (ext w') "/dest/sub/b.jpg" = true
      /\ process_image_body "/src/sub/b.jpg" Scenario.overlay Scenario.args0 w'
         = (Ok tt, World (ext w') (log w' ++ new_log w0 w')
                         (trace w' ++ new_events w0 w'))).
Proof.
  cbv zeta.
  set (w' := snd (process_image_body "/src/sub/b.jpg" Scenario.overlay
                                     Scenario.args0 Scenario.w0)).
  assert (Hrun : process_image_body "/src/sub/b.jpg" Scenario.overlay
                                    Scenario.args0 Scenario.w0 = (Ok tt, w'))
    by (vm_compute; reflexivity).
  assert (Hres : exists sz o,
             In (Event (Call_resize sz) o) (new_events Scenario.w0 w'))
    by (exists (128, 128), None; vm_compute; tauto).
  split.
  - destruct (proj1 destination_path_mirrors_source Sim.state Sim.sim_Imaging
                Sim.sim_OS "/src/sub/b.jpg" Scenario.overlay Scenario.args0
                Scenario.w0 w' Hrun Hres)
      as (s & s1 & rel & out & f & pre & Hrel & Hmk & Hsv & Hev & Hsaved & _ & Hmirror).
    cbv zeta in Hmk, Hsv, Hsaved, Hmirror.
    assert (Hcwd : os_getcwd s = "/home").
    { destruct (sim_makedirs_ok _ _ _ Hmk) as (Hc1 & _).
      destruct (sim_save_ok _ _ _ _ _ Hsv) as (Hs2 & _).
      change (Sim.cwd s = "/home"). rewrite <- Hc1.
      change (Sim.cwd s1) with (Sim.cwd (Sim.set_files s1
        (<[Sim.resolve s1 (posixpath.join (posixpath.join (dest_dir Scenario.args0) rel)
              (posixpath.basename "/src/sub/b.jpg")) :=
           Sim.ImageFile (Sim.SimImage (Sim.s_mode out) f (Sim.s_size out))]>
           (Sim.files s1)))).
      rewrite <- Hs2. vm_compute. reflexivity. }
    rewrite Hcwd in Hrel, Hmirror.
    assert (Hr : rel = "sub") by (vm_compute in Hrel; congruence).
    subst rel.
    destruct (Hmirror ["sub"] "b.jpg") as [Hd Hs];
      [reflexivity|discriminate|repeat constructor|reflexivity|reflexivity|].
    split.
    + rewrite Hsaved. vm_compute. reflexivity.
    + etransitivity; [|symmetry; exact Hs]. exact Hd.
  - destruct (proj2 destination_path_mirrors_source "/src/sub/b.jpg"
                Scenario.overlay Scenario.args0 Scenario.w0 w' Hrun Hres)
      as (rel & out & Hrel & Hdir & _ & Hfiles & _ & Hagain).
    cbv zeta in Hdir, Hfiles, Hagain.
    assert (Hr : rel = "sub") by (vm_compute in Hrel; congruence).
    subst rel.
    split; [|split].
    + exact Hdir.
    + unfold Sim.is_file. rewrite Hfiles.
      change (Sim.resolve (ext Scenario.w0)
                (posixpath.join (posixpath.join (dest_dir Scenario.args0) "sub")
                                (posixpath.basename "/src/sub/b.jpg")))
        with "/dest/sub/b.jpg".
      rewrite lookup_insert. reflexivity.
    + apply Hagain. vm_compute. discriminate.
Defined.

(** A second run over the tree the first run left: it ends with status 0
    and leaves the same directories and files. *)
Example second_run_same_tree :
  let s1 := ext (snd (script Scenario.w0)) in
  let r2 := script (Sim.start s1) in
  exit_status (fst (script Scenario.w0)) = 0
  /\ exit_status (fst r2) = 0
  /\ Sim.is_dir s1 "/dest/sub" = true
  /\ Sim.dirs (ext (snd r2)) = Sim.dirs s1
  /\ Sim.files (ext (snd r2)) = Sim.files s1.
Proof.
  cbv zeta. split; [|split; [|split; [|split]]]; vm_compute; reflexivity.
Qed.

(** ** The opacity of the overlay: single precision *)

Section Binary32.

Import PyFloat Pixel.

Lemma prec_pos32 : 0 < prec32. Proof. reflexivity. Qed.
Lemma prec_lt_emax32 : prec32 < emax32. Proof. reflexivity. Qed.
Lemma emax_ge32 : 2 <= emax32. Proof. unfold emax32. lia. Qed.

Lemma pow2_neg_IZR (k : Z) : 0 <= k -> pow2 (- k) = (/ IZR (2 ^ k))%R.
Proof. intros Hk. rewrite pow2_opp, pow2_IZR by exact Hk. reflexivity. Qed.

Lemma fval_one : fval one = 1%R.
Proof.
  unfold one. cbn [fval cond_Zopp]. change (-52) with (- (52)).
  rewrite pow2_neg_IZR by lia. change (2 ^ 52) with 4503599627370496. field.
Qed.

Lemma fval_one32 : fval one32 = 1%R.
Proof.
  unfold one32. cbn [fval cond_Zopp]. change (-23) with (- (23)).
  rewrite pow2_neg_IZR by lia. change (2 ^ 23) with 8388608. field.
Qed.

(** An opacity that passes the check [0 <= opacity <= 1]: a zero, 1.0, or a
    positive double below 1. *)
Lemma opacity_shape (o : float) :
  valid o = true -> le zero o = true -> le o one = true ->
  (exists s, o = S754_zero s) \/ o = one
  \/ exists m e, o = S754_finite false m e
       /\ Zdigits2 (Z.pos m) + e <= 0
       /\ (Zdigits2 (Z.pos m) = 53 \/ e = -1074).
Proof.
  intros Hv H0 H1.
  destruct o as [s|s| |s m e].
  - left. exists s. reflexivity.
  - destruct s; discriminate.
  - discriminate.
  - destruct s; [discriminate H0|]. right.
    unfold valid, valid_binary, bounded, canonical_mantissa in Hv.
    apply andb_true_iff in Hv as [Hc _]. apply Z.eqb_eq in Hc.
    change (Z.pos (digits2_pos m)) with (Zdigits2 (Z.pos m)) in Hc.
    unfold fexp, emin, prec, emax in Hc.
    unfold le, SFleb, SFcompare, one in H1.
    destruct (Z.compare_spec e (-52)) as [He|He|He]; try discriminate H1.
    + subst e.
      destruct (PosDef.Pos.compare_cont Eq m 4503599627370496) eqn:Hcmp;
        [| |discriminate H1].
      * left. apply (Pos.compare_eq m 4503599627370496) in Hcmp. subst m.
        reflexivity.
      * exfalso. apply (proj1 (Pos.compare_lt_iff m 4503599627370496)) in Hcmp.
        apply Pos2Z.pos_lt_pos in Hcmp.
        assert (Zdigits2 (Z.pos m) <= 52).
        { apply Zdigits2_le; [lia|]. change (2 ^ 52) with 4503599627370496. lia. }
        lia.
    + right. exists m, e. split; [reflexivity|]. lia.
Qed.

(** The C cast [(float)opacity]: within 2^-24 of the opacity, and a zero,
    1.0f, or a positive float below 1. *)
Lemma single_of_double_opacity (o : float) :
  valid o = true -> le zero o = true -> le o one = true ->
  (Rabs (fval (single_of_double o) - fval o) <= pow2 (-24))%R
  /\ ((exists s, single_of_double o = S754_zero s)
      \/ single_of_double o = one32
      \/ exists m e, single_of_double o = S754_finite false m e
                     /\ Z.pos m < 2 ^ 24 /\ e <= -24).
Proof.
  intros Hv H0 H1.
  destruct (opacity_shape o Hv H0 H1) as [[s ->]|[->|(m & e & -> & Hd & Hcan)]].
  - split; [|left; exists s; reflexivity].
    cbn [single_of_double fval]. rewrite Rminus_diag, Rabs_R0.
    apply Rlt_le, pow2_pos.
  - assert (E : single_of_double one = one32) by (vm_compute; reflexivity).
    rewrite E. split; [|right; left; reflexivity].
    rewrite fval_one, fval_one32, Rminus_diag, Rabs_R0. apply Rlt_le, pow2_pos.
  - pose proof (Zdigits2_pos m) as Hdp.
    set (E := fexp prec32 emax32 (Zdigits2 (Z.pos m) + e)).
    assert (HE : e <= E /\ E <= -24 /\ -149 <= E).
    { unfold E, fexp, emin, prec32, emax32. lia. }
    assert (Hround : single_of_double (S754_finite false m e)
                     = binary_round_aux prec32 emax32 false (Z.pos m) e loc_Exact).
    { unfold single_of_double, binary_round.
      change (Z.pos (digits2_pos m)) with (Zdigits2 (Z.pos m)). fold E.
      unfold shl_align. destruct (E - e) as [|k|k] eqn:Ek;
        [reflexivity|reflexivity|lia]. }
    rewrite Hround. split.
    + destruct (binary_round_aux_value prec32 emax32 prec_pos32 (Z.pos m) e
                  loc_Exact (fval (S754_finite false m e))) as [_ Herr].
      * lia.
      * fold E. lia.
      * fold E. unfold emax32, prec32. lia.
      * cbn [fval cond_Zopp]. pose proof (pow2_pos e). split; [lra|nra].
      * fold E in Herr. eapply Rle_trans; [exact Herr|]. apply pow2_le. lia.
    + destruct (binary_round_aux_spec prec32 emax32 prec_pos32 false (Z.pos m) e
                  loc_Exact) as (m2 & Hm2 & Hle2 & ->).
      * lia.
      * fold E. lia.
      * fold E. fold E in Hm2.
        assert (Hm1 : 0 <= Z.pos m / 2 ^ (E - e))
          by (apply Z.div_pos; [lia|apply Z.pow_pos_nonneg; lia]).
        destruct (Z.eqb_spec m2 0) as [Hz|Hz]; [left; eexists; reflexivity|].
        right.
        destruct (Z.ltb_spec m2 (2 ^ prec32)) as [Hlt|Hge].
        -- destruct (Z.leb_spec E (emax32 - prec32)) as [_|Hbad];
             [|unfold emax32, prec32 in Hbad; lia].
           right. exists (Z.to_pos m2), E.
           split; [reflexivity|]. rewrite Z2Pos.id by lia.
           split; [exact Hlt|lia].
        -- destruct (Z.leb_spec (E + 1) (emax32 - prec32)) as [_|Hbad];
             [|unfold emax32, prec32 in Hbad; lia].
           destruct (Z.eq_dec (E + 1) (-23)) as [H23|H23].
           ++ left. rewrite H23. reflexivity.
           ++ right. exists (Z.to_pos (2 ^ (prec32 - 1))), (E + 1).
              split; [reflexivity|]. split; [reflexivity|lia].
Qed.


Lemma pow2_m24 : pow2 (-24) = (/ 16777216)%R.
Proof. change (-24) with (- (24)). rewrite pow2_neg_IZR by lia. reflexivity. Qed.

Lemma pow2_m16 : pow2 (-16) = (/ 65536)%R.
Proof. change (-16) with (- (16)). rewrite pow2_neg_IZR by lia. reflexivity. Qed.

Lemma pow2_m14 : pow2 (-14) = (/ 16384)%R.
Proof. change (-14) with (- (14)). rewrite pow2_neg_IZR by lia. reflexivity. Qed.

(** A positive float below 1.0f has a value of at most 1. *)
Lemma fval_below_one (m : positive) (e : Z) :
  Z.pos m < 2 ^ 24 -> e <= -24 ->
  (0 < fval (S754_finite false m e) <= 1)%R.
Proof.
  intros Hm He. cbn [fval cond_Zopp].
  pose proof (pow2_pos e) as Hp.
  assert (Hm' : (0 < IZR (Z.pos m) <= 16777216)%R).
  { split; [apply IZR_lt; lia|apply IZR_le]. change (2 ^ 24) with 16777216 in Hm. lia. }
  assert (He' : (pow2 e <= / 16777216)%R).
  { rewrite <- pow2_m24. apply pow2_le, He. }
  split; [apply Rmult_lt_0_compat; lra|].
  replace 1%R with (16777216 * / 16777216)%R by field.
  apply Rmult_le_compat; lra.
Qed.

(** The product [alpha * a] in single precision, truncated: the value that
    the blend stores for the band value [a] against black. *)
Lemma interpolate_black (m : positive) (e a : Z) :
  Z.pos m < 2 ^ 24 -> e <= -24 -> 0 <= a <= 255 ->
  let v := interpolate (S754_finite false m e) 0 a in
  exists r : R,
    (IZR v <= r < IZR v + 1)%R /\ 0 <= v
    /\ (Rabs (r - fval (S754_finite false m e) * IZR a) <= / 65536)%R.
Proof.
  intros Hm He Ha. cbv zeta. unfold interpolate, blend_value.
  rewrite Z.sub_0_r.
  change (single_of_int 0) with (S754_zero false).
  destruct (Z.eq_dec a 0) as [->|Hna].
  - exists 0%R. change (single_of_int 0) with (S754_zero false).
    cbn [SFmul SFadd xorb uint8_of_single].
    rewrite Rmult_0_r, Rminus_diag, Rabs_R0. repeat split; try lra; lia.
  - destruct (binary_normalize_int prec32 emax32 prec_pos32 prec_lt_emax32
                emax_ge32 a) as (ma & ea & Ea & Da & Hea & _ & Va).
    { change (2 ^ prec32) with 16777216. lia. }
    unfold single_of_int. rewrite Ea. cbn [SFmul xorb].
    assert (Hda : Zdigits2 a <= 8) by (apply Zdigits2_le; [lia|change (2 ^ 8) with 256; lia]).
    assert (Hdm : Zdigits2 (Z.pos m) <= 24) by (apply Zdigits2_le; [lia|exact Hm]).
    pose proof (Zdigits2_pos m) as Hdmp.
    pose proof (Zdigits2_mul m ma) as Hdmul.
    set (E := fexp prec32 emax32 (Zdigits2 (Z.pos (m * ma)) + (e + ea))).
    assert (HE : e + ea <= E /\ E <= -16).
    { unfold E, fexp, emin, prec32, emax32 in *. lia. }
    destruct (binary_round_aux_value prec32 emax32 prec_pos32 (Z.pos (m * ma))
                (e + ea) loc_Exact
                (fval (S754_finite false m e) * IZR a)) as [Hshape Herr].
    { lia. }
    { fold E. lia. }
    { fold E. unfold emax32, prec32. lia. }
    { rewrite <- Va. cbn [fval cond_Zopp].
      rewrite Pos2Z.inj_mul, mult_IZR, pow2_add.
      pose proof (pow2_pos e). pose proof (pow2_pos ea).
      assert (0 < pow2 e * pow2 ea)%R by (apply Rmult_lt_0_compat; lra).
      split; [right; ring|].
      replace (IZR (Z.pos m) * pow2 e * (IZR (Z.pos ma) * pow2 ea))%R
        with (IZR (Z.pos m) * IZR (Z.pos ma) * (pow2 e * pow2 ea))%R by ring.
      nra. }
    fold E in Herr.
    assert (Herr' : (Rabs (fval (binary_round_aux prec32 emax32 false
                                   (Z.pos (m * ma)) (e + ea) loc_Exact)
                           - fval (S754_finite false m e) * IZR a) <= / 65536)%R).
    { eapply Rle_trans; [exact Herr|]. rewrite <- pow2_m16. apply pow2_le. lia. }
    destruct Hshape as [[Hz _]|(mr & er & Hr & _)].
    + rewrite Hz in *. cbn [SFadd uint8_of_single]. exists 0%R.
      cbn [fval] in Herr'. repeat split; try lra; try lia. exact Herr'.
    + rewrite Hr in *. cbn [SFadd uint8_of_single].
      exists (fval (S754_finite false mr er)).
      pose proof (shiftl_floor mr er) as Hfl.
      split; [exact Hfl|]. split; [apply Z.shiftl_nonneg; lia|exact Herr'].
Qed.

(** The alpha value that [adjust_opacity] stores for the alpha value [a]:
    not above [a], and within a little more than one level of
    [opacity * a]. *)
Lemma blend_band_bound (o : float) (a : Z) :
  valid o = true -> le zero o = true -> le o one = true ->
  0 <= a <= 255 ->
  let v := blend_band (single_of_double o) a in
  0 <= v <= a /\ (Rabs (IZR v - fval o * IZR a) < 1 + pow2 (-14))%R.
Proof.
  intros Hv H0 H1 Ha. cbv zeta.
  destruct (single_of_double_opacity o Hv H0 H1) as [Herr Hshape].
  rewrite pow2_m24 in Herr. rewrite pow2_m14.
  assert (HA : (0 <= IZR a <= 255)%R) by (split; apply IZR_le; lia).
  apply Rabs_le_bounds in Herr.
  destruct Hshape as [[s Hs]|[Hone|(m & e & Hf & Hm & He)]].
  - rewrite Hs in *. cbn [fval] in Herr.
    assert (Ez : blend_band (S754_zero s) a = 0) by (destruct s; reflexivity).
    rewrite Ez. split; [lia|].
    apply Rabs_def1; nra.
  - rewrite Hone in *. rewrite fval_one32 in Herr.
    assert (E1 : blend_band one32 a = a) by reflexivity.
    rewrite E1. split; [lia|].
    apply Rabs_def1; nra.
  - rewrite Hf in *.
    pose proof (fval_below_one m e Hm He) as Hal.
    assert (Eb : blend_band (S754_finite false m e) a
                 = interpolate (S754_finite false m e) 0 a).
    { unfold blend_band, SFeqb, SFleb, SFcompare, one32, zero.
      assert (Hc : (e ?= -23) = Lt) by (apply Z.compare_lt_iff; lia).
      rewrite Hc. reflexivity. }
    rewrite Eb.
    destruct (interpolate_black m e a Hm He Ha) as (r & Hfl & Hv0 & Hr).
    set (v := interpolate (S754_finite false m e) 0 a) in *.
    set (al := fval (S754_finite false m e)) in *.
    apply Rabs_le_bounds in Hr.
    split.
    + split; [exact Hv0|].
      assert (Hlt : (IZR v < IZR (a + 1))%R) by (rewrite plus_IZR; nra).
      apply lt_IZR in Hlt. lia.
    + apply Rabs_def1; nra.
Qed.

Lemma blend_band_zero (o : float) (a : Z) :
  is_zero o = true -> blend_band (single_of_double o) a = 0.
Proof. destruct o as [[|]| | |]; try discriminate; reflexivity. Qed.

Lemma blend_band_one (a : Z) : blend_band (single_of_double one) a = a.
Proof.
  assert (E : single_of_double one = one32) by (vm_compute; reflexivity).
  rewrite E. reflexivity.
Qed.

End Binary32.

(** ** The width against the exact product *)

Section ExactFloor.

Import PyFloat.

Lemma shiftl_neg_div (a j : Z) : 0 <= j -> Z.shiftl a (- j) = a / 2 ^ j.
Proof.
  intros Hj. rewrite <- Z.shiftr_opp_r, Z.opp_involutive.
  apply Z.shiftr_div_pow2, Hj.
Qed.

Lemma div_succ_range (a d : Z) :
  0 < d -> a / d <= (a + 1) / d <= a / d + 1.
Proof.
  intros Hd. split.
  - apply Z.div_le_mono; lia.
  - replace (a / d + 1) with ((a + 1 * d) / d) by (rewrite Z.div_add by lia; reflexivity).
    apply Z.div_le_mono; lia.
Qed.

(** [int(im_width * size)] against the floor of the exact product: the
    same, or one more. *)
Lemma wm_width_near_exact_floor (n : Z) (f : float) :
  0 <= n < 2 ^ 53 ->
  valid f = true -> lt zero f = true -> le f one = true ->
  exists prod wm_width k,
    int_mul_float n f = Ok prod
    /\ int_of_float prod = Ok wm_width
    /\ (IZR k <= IZR n * fval f < IZR k + 1)%R
    /\ (wm_width = k \/ wm_width = k + 1).
Proof.
  intros Hn Hv Hlt Hle.
  destruct (fraction_shape f Hv Hlt Hle) as (my & ey & -> & Hd1).
  destruct (Z.eq_dec n 0) as [->|Hn0].
  { exists (S754_zero false), 0, 0. repeat split; auto; lra. }
  assert (Hn53 : 0 < n < 2 ^ prec) by (unfold prec; lia).
  destruct (binary_normalize_int prec emax prec_pos64 prec_lt_emax64 emax_ge64 n Hn53)
    as (mn & en & En & Dn & Hen & _ & Vn).
  assert (Hdn : Zdigits2 n <= 53) by (apply Zdigits2_le; lia).
  pose proof (Zdigits2_pos my) as Hdy.
  pose proof (Zdigits2_mul mn my) as Hdmul.
  assert (Hey : ey <= -52).
  { unfold valid, valid_binary, bounded, canonical_mantissa in Hv.
    apply andb_true_iff in Hv as [Hc _]. apply Z.eqb_eq in Hc.
    change (Z.pos (digits2_pos my)) with (Zdigits2 (Z.pos my)) in Hc.
    unfold fexp, emin, prec, emax in Hc. lia. }
  set (mx := Z.pos (mn * my)). set (ex := en + ey).
  set (E := fexp prec emax (Zdigits2 mx + ex)).
  assert (Hsum : Zdigits2 mx + ex <= 53).
  { unfold mx, ex.
    destruct (opacity_shape (S754_finite false my ey) Hv eq_refl Hle)
      as [[s Hs]|[Hone|(m' & e' & Heq & Hd0 & _)]].
    - discriminate Hs.
    - injection Hone as -> ->.
      rewrite Pos2Z.inj_mul.
      change (Z.pos 4503599627370496) with (2 ^ 52).
      rewrite Zdigits2_mul_pow2 by lia. unfold prec in *. lia.
    - injection Heq as <- <-. unfold prec in *. lia. }
  assert (HE : ex <= E /\ E <= 0 /\ ex < 0).
  { unfold E, ex, mx, fexp, emin, prec, emax in *. lia. }
  exists (SFmul prec emax (S754_finite false mn en) (S754_finite false my ey)).
  assert (Hprod : int_mul_float n (S754_finite false my ey)
                  = Ok (SFmul prec emax (S754_finite false mn en)
                              (S754_finite false my ey))).
  { unfold int_mul_float, float_of_int. rewrite En. reflexivity. }
  set (k := Z.shiftl mx ex).
  assert (Hk : (IZR k <= IZR n * fval (S754_finite false my ey) < IZR k + 1)%R).
  { pose proof (shiftl_floor (mn * my) ex) as Hfl. fold mx k in Hfl.
    replace (IZR n * fval (S754_finite false my ey))%R
      with (fval (S754_finite false (mn * my) ex)); [exact Hfl|].
    rewrite <- Vn. cbn [fval cond_Zopp]. unfold ex.
    rewrite Pos2Z.inj_mul, mult_IZR, pow2_add. ring. }
  assert (Hkdiv : k = mx / 2 ^ (- ex)).
  { unfold k. replace ex with (- (- ex)) at 1 by lia. apply shiftl_neg_div. lia. }
  cbn [SFmul xorb]. fold mx ex.
  destruct (binary_round_aux_spec prec emax prec_pos64 false mx ex loc_Exact)
    as (m2 & Hm2 & Hle2 & Hr).
  { unfold mx. lia. }
  { fold E. lia. }
  fold E in Hm2, Hr.
  set (m1 := mx / 2 ^ (E - ex)) in *.
  assert (Hm1 : 0 <= m1).
  { unfold m1. apply Z.div_pos; [unfold mx; lia|apply Z.pow_pos_nonneg; lia]. }
  assert (Hpj : 0 < 2 ^ (- E)) by (apply Z.pow_pos_nonneg; lia).
  assert (Hm1k : m1 / 2 ^ (- E) = k).
  { unfold m1. rewrite Hkdiv.
    rewrite Z.div_div by (try apply Z.pow_nonzero; try apply Z.pow_pos_nonneg; lia).
    rewrite <- Z.pow_add_r by lia. f_equal. f_equal. lia. }
  assert (Hw : exists w,
             int_of_float (binary_round_aux prec emax false mx ex loc_Exact) = Ok w
             /\ w = m2 / 2 ^ (- E)).
  { rewrite Hr.
    destruct (Z.eqb_spec m2 0) as [H0|H0].
    { exists 0. split; [reflexivity|]. rewrite H0. rewrite Z.div_0_l by lia. reflexivity. }
    destruct (Z.ltb_spec m2 (2 ^ prec)) as [Hlt2|Hge2].
    - destruct (Z.leb_spec E (emax - prec)) as [_|Hbad];
        [|unfold emax, prec in Hbad; lia].
      eexists. split; [reflexivity|]. cbn [cond_Zopp].
      rewrite Z2Pos.id by lia.
      replace E with (- (- E)) at 1 by lia. apply shiftl_neg_div. lia.
    - destruct (Z.leb_spec (E + 1) (emax - prec)) as [_|Hbad];
        [|unfold emax, prec in Hbad; lia].
      eexists. split; [reflexivity|]. cbn [cond_Zopp].
      assert (Hm2e : m2 = 2 ^ prec) by lia.
      rewrite Z2Pos.id by (apply Z.pow_pos_nonneg; unfold prec; lia).
      rewrite Hm2e.
      destruct (Z.eq_dec E 0) as [HE0|HE0].
      + rewrite HE0. reflexivity.
      + replace (E + 1) with (- (- E - 1)) by lia.
        rewrite shiftl_neg_div by lia.
        replace (2 ^ prec) with (2 ^ (prec - 1) * 2 ^ 1) by (unfold prec; reflexivity).
        replace (2 ^ (- E)) with (2 ^ (- E - 1) * 2 ^ 1)
          by (rewrite <- Z.pow_add_r by lia; f_equal; lia).
        rewrite Z.div_mul_cancel_r; [reflexivity| |discriminate].
        apply Z.pow_nonzero; lia. }
  destruct Hw as (w & Hint & Hwd).
  exists w, k. split; [exact Hprod|]. split; [exact Hint|]. split; [exact Hk|].
  pose proof (div_succ_range m1 (2 ^ (- E)) Hpj) as Hrange.
  rewrite Hm1k in Hrange.
  destruct Hm2 as [-> | ->]; rewrite Hwd; [left; exact Hm1k|lia].
Qed.

End ExactFloor.

Section SkipClaims.

Context {S : Type} `{PIL : Imaging S} `{Os : OS S}.

Import PyFloat.

(** C2 (amended).  The target width of the watermark is
    [int(im_width * size)], the product being the float product that Python
    computes and rounds to a double before [int] truncates it: the width is
    the floor of the exact product [im_width * size] or that floor plus
    one, and [resize] is asked for no other width.  When the width is 0 the
    file is skipped: [process_image] returns normally after two library
    calls (open and EXIF transposition) and a warning, nothing is saved, no
    error is logged, and whatever follows [process_image] runs next.  On the
    reference implementation, a whole run in which every image is skipped
    or corrupt saves nothing and exits with status 0. *)
Theorem zero_width_is_skipped image_path watermark args (w : world S)
    im s1 im2 s2 :
  Image_open image_path (ext w) = (Ok im, s1) ->
  ImageOps_exif_transpose im s1 = (Ok im2, s2) ->
  0 <= fst (im_size im2) < 2 ^ 53 ->
  valid (size args) = true -> lt zero (size args) = true ->
  le (size args) one = true ->
  exists prod wm_width,
    int_mul_float (fst (im_size im2)) (size args) = Ok prod
    /\ int_of_float prod = Ok wm_width
    /\ (exists k,
          (IZR k <= IZR (fst (im_size im2)) * fval (size args) < IZR k + 1)%R
          /\ (wm_width = k \/ wm_width = k + 1))
    /\ (forall ww hh o,
          In (Event (Call_resize (ww, hh)) o)
             (new_events w (snd (process_image image_path watermark args w))) ->
          ww = wm_width)
    /\ (wm_width = 0 ->
        let w' :=
          World s2
            (log w ++ [LogRecord DEBUG ("Opened image '" +:+ image_path +:+ "'.");
                       LogRecord DEBUG ("Applied EXIF orientation to image '"
                                        +:+ image_path +:+ "'.");
                       LogRecord WARNING ("Calculated watermark width is 0 for image '"
                                          +:+ image_path +:+ "'. Skipping.")])
            (trace w ++ [Event (Call_open image_path) None;
                         Event Call_exif_transpose None]) in
        process_image image_path watermark args w = (Ok tt, w')
        /\ saved_paths (new_events w w') = []
        /\ forall (A : Type) (k : M S A),
             (process_image image_path watermark args ;;; k) w = k w')
    /\ (let run := script (Sim.start Scenario.state_tiny) in
        exit_status (fst run) = 0
        /\ opened_paths (trace (snd run))
           = ["/wm.png"; "/src/a.png"; "/src/bad.png"; "/src/sub/b.jpg"]
        /\ saved_paths (trace (snd run)) = []).
Proof.
  intros Hopen Hexif Hw Hv Hlt Hle.
  destruct (wm_width_near_exact_floor _ _ Hw Hv Hlt Hle)
    as (prod & wm_width & k & Hprod & Hint & Hk & Hnear).
  exists prod, wm_width.
  split; [exact Hprod|]. split; [exact Hint|].
  split; [exists k; split; [exact Hk|exact Hnear]|].
  split; [|split].
  - intros ww hh o Hin. rewrite process_image_new_events in Hin.
    pose proof (process_image_body_resize image_path watermark args w) as Hres.
    unfold wp in Hres.
    destruct (Hres ww hh o Hin)
      as (im' & s1' & im2' & s2' & prod' & _ & _ & _ & Ho & He & Hp & Hi & _).
    rewrite Hopen in Ho. injection Ho as <- <-.
    rewrite Hexif in He. injection He as <- <-.
    rewrite Hprod in Hp. injection Hp as <-.
    rewrite Hint in Hi. injection Hi as <-. reflexivity.
  - intros H0. subst wm_width. cbv zeta.
    pose proof (process_image_skip image_path watermark args w
                  im s1 im2 s2 prod Hopen Hexif Hprod Hint) as Hskip.
    split; [exact Hskip|]. split.
    + rewrite new_events_app. reflexivity.
    + intros A k0. unfold bind. rewrite Hskip. reflexivity.
  - vm_compute. repeat split; reflexivity.
Qed.

End SkipClaims.

Lemma zero_width_is_skipped_witness :
  exists prod wm_width k,
    PyFloat.int_mul_float 500 Scenario.tiny = Ok prod
    /\ PyFloat.int_of_float prod = Ok wm_width
    /\ (IZR k <= 500 * fval Scenario.tiny < IZR k + 1)%R
    /\ (wm_width = k \/ wm_width = k + 1).
Proof.
  destruct (zero_width_is_skipped (PIL := Sim.sim_Imaging) (Os := Sim.sim_OS)
              "/src/a.png" Scenario.overlay Scenario.args_tiny
              (Sim.start Scenario.state_tiny)
              (Sim.SimImage "RGBA" (Some "PNG") (500, 300)) Scenario.state_tiny
              (Sim.SimImage "RGBA" None (500, 300)) Scenario.state_tiny)
    as (prod & wm_width & Hprod & Hint & (k & Hk & Hnear) & _).
  - reflexivity.
  - reflexivity.
  - cbn. lia.
  - reflexivity.
  - reflexivity.
  - reflexivity.
  - exists prod, wm_width, k. auto.
Defined.

(** C2, as it was stated, fails: the width is not always the floor of the
    exact product.  An image 10 pixels wide, with the size 0.3 (the double
    nearest to it, a little below 0.3): the exact product is a little below
    3 and its floor is 2, while [process_image] computes
    [int(10 * 0.3) = 3] and asks [resize] for a watermark 3 pixels wide. *)
Lemma width_is_not_the_exact_floor :
  let w := Sim.start Scenario.state_narrow in
  let w' := snd (process_image "/src/n.png" Scenario.overlay Scenario.args_03 w) in
  Image_open "/src/n.png" (ext w) = (Ok Scenario.narrow, ext w)
  /\ fst (im_size Scenario.narrow) = 10
  /\ PyFloat.valid (size Scenario.args_03) = true
  /\ PyFloat.lt PyFloat.zero (size Scenario.args_03) = true
  /\ PyFloat.le (size Scenario.args_03) PyFloat.one = true
  /\ (2 <= 10 * fval (size Scenario.args_03) < 3)%R
  /\ PyFloat.int_mul_float 10 (size Scenario.args_03)
     = Ok (S754_finite false 6755399441055744 (-51))
  /\ PyFloat.int_of_float (S754_finite false 6755399441055744 (-51)) = Ok 3
  /\ In (Event (Call_resize (3, 3)) None) (new_events w w')
  /\ ~ (exists prod wm_width,
          PyFloat.int_mul_float (fst (im_size Scenario.narrow))
                                (size Scenario.args_03) = Ok prod
          /\ PyFloat.int_of_float prod = Ok wm_width
          /\ (IZR wm_width
              <= IZR (fst (im_size Scenario.narrow)) * fval (size Scenario.args_03)
              < IZR wm_width + 1)%R).
Proof.
  assert (Hval : (2 <= 10 * fval Scenario.f03 < 3)%R).
  { unfold Scenario.f03. cbn [fval cond_Zopp]. change (-54) with (- (54)).
    rewrite pow2_neg_IZR by lia. change (2 ^ 54) with 18014398509481984.
    split.
    - apply Rmult_le_reg_r with (r := 18014398509481984%R); [lra|].
      field_simplify; lra.
    - apply Rmult_lt_reg_r with (r := 18014398509481984%R); [lra|].
      field_simplify; lra. }
  cbv zeta.
  split; [reflexivity|]. split; [reflexivity|]. split; [reflexivity|].
  split; [reflexivity|]. split; [reflexivity|]. split; [exact Hval|].
  split; [vm_compute; reflexivity|]. split; [reflexivity|].
  split; [vm_compute; tauto|].
  intros (prod & wm_width & Hprod & Hint & Hfloor).
  assert (Hp : PyFloat.int_mul_float 10 Scenario.f03
               = Ok (S754_finite false 6755399441055744 (-51)))
    by (vm_compute; reflexivity).
  change (PyFloat.int_mul_float 10 Scenario.f03 = Ok prod) in Hprod.
  rewrite Hp in Hprod. injection Hprod as <-.
  assert (Hi : PyFloat.int_of_float (S754_finite false 6755399441055744 (-51)) = Ok 3)
    by reflexivity.
  rewrite Hi in Hint. injection Hint as <-.
  change (IZR (fst (im_size Scenario.narrow))) with 10%R in Hfloor.
  change (size Scenario.args_03) with Scenario.f03 in Hfloor.
  lra.
Qed.

Section OpacityPixels.

Import PyFloat Pixel.

Lemma zip_with_map {A B C D} (f : B -> C -> D) (g : A -> B) (h : A -> C) l :
  zip_with f (map g l) (map h l) = map (fun x => f (g x) (h x)) l.
Proof. induction l as [|x l IH]; simpl; [reflexivity|rewrite IH; reflexivity]. Qed.

(** [Brightness(alpha).enhance(factor)] on the data of an alpha band. *)
Lemma ImagingBlend_band (data : list (list Z)) (al : float) :
  ImagingBlend (map (degenerate_pixel "L") (map (fun px => [nth 3 px 0]) data))
               (map (fun px => [nth 3 px 0]) data) al
  = map (fun px => [blend_band al (nth 3 px 0)]) data.
Proof.
  unfold ImagingBlend, blend_band. rewrite !map_map.
  destruct (SFeqb al zero); [reflexivity|].
  destruct (SFeqb al one32); [reflexivity|].
  destruct (SFleb zero al && SFleb al one32);
    rewrite zip_with_map; reflexivity.
Qed.

Lemma bands_of_mode_inv (mode : string) (n : nat) :
  bands_of_mode mode = Some n ->
  mode = "RGBA" /\ n = 4%nat \/ mode = "RGB" /\ n = 3%nat
  \/ mode = "LA" /\ n = 2%nat \/ mode = "L" /\ n = 1%nat.
Proof.
  unfold bands_of_mode.
  destruct (String.eqb_spec mode "RGBA"); [intros [= <-]; auto|].
  destruct (String.eqb_spec mode "RGB"); [intros [= <-]; auto|].
  destruct (String.eqb_spec mode "LA"); [intros [= <-]; auto|].
  destruct (String.eqb_spec mode "L"); [intros [= <-]; auto 6|].
  discriminate.
Qed.

(** What [adjust_opacity] returns for an image of the pixel model, and what
    it logs and calls. *)
Lemma adjust_opacity_pix (im : pix_image) (o : float) (w : world unit) :
  le zero o && le o one = true ->
  bands_of_mode (p_mode im) <> None ->
  exists l t,
    adjust_opacity im o w
    = (Ok (PixImage "RGBA" (p_size im)
             (map (scale_alpha (single_of_double o))
                  (if String.eqb (p_mode im) "RGBA" then p_data im
                   else map (to_RGBA (p_mode im)) (p_data im)))),
       World (ext w) (log w ++ l) (trace w ++ t)).
Proof.
  intros Hle Hmode.
  destruct (bands_of_mode (p_mode im)) as [n|] eqn:Hn; [|congruence].
  destruct im as [mode size data]. cbn [p_mode p_size p_data] in *.
  unfold adjust_opacity. rewrite Hle.
  apply bands_of_mode_inv in Hn as [[-> _]|[[-> _]|[[-> _]|[-> _]]]];
    unfold try_except, bind, ret, raise, do_call, logging; cbn;
    unfold same_size, getband; cbn [p_size p_data p_mode];
    rewrite !Z.eqb_refl; cbn;
    rewrite ImagingBlend_band, !zip_with_map;
    eexists _, _; rewrite <- !app_assoc; reflexivity.
Qed.


(** The RGBA form of a pixel of a well-formed image: four bytes, the pixel
    itself for an RGBA image, alpha 255 for a mode without alpha. *)
Lemma to_RGBA_wf (mode : string) (n : nat) (px : list Z) :
  bands_of_mode mode = Some n ->
  Nat.eqb (length px) n && forallb byte_range px = true ->
  length (to_RGBA mode px) = 4%nat
  /\ forallb byte_range (to_RGBA mode px) = true
  /\ (mode = "RGBA" -> to_RGBA mode px = px)
  /\ (has_alpha mode = false -> alpha_of (to_RGBA mode px) = 255).
Proof.
  intros Hn Hpx. apply andb_prop in Hpx as [Hlen Hb].
  apply Nat.eqb_eq in Hlen.
  apply bands_of_mode_inv in Hn as [[-> ->]|[[-> ->]|[[-> ->]|[-> ->]]]].
  - destruct px as [|a [|b [|c [|d [|? ?]]]]]; try discriminate Hlen.
    repeat split; auto; discriminate.
  - destruct px as [|a [|b [|c [|? ?]]]]; try discriminate Hlen.
    cbn in Hb |- *. apply andb_prop in Hb as [Ha Hb].
    apply andb_prop in Hb as [Hb' Hc]. apply andb_prop in Hc as [Hc _].
    rewrite Ha, Hb', Hc. repeat split; auto; discriminate.
  - destruct px as [|a [|b [|? ?]]]; try discriminate Hlen.
    cbn in Hb |- *. apply andb_prop in Hb as [Ha Hb].
    apply andb_prop in Hb as [Hb' _].
    rewrite Ha, Hb'. repeat split; auto; discriminate.
  - destruct px as [|a [|? ?]]; try discriminate Hlen.
    cbn in Hb |- *. apply andb_prop in Hb as [Ha _].
    rewrite Ha. repeat split; auto; discriminate.
Qed.

Lemma byte_range_nth (px : list Z) (i : nat) :
  forallb byte_range px = true -> 0 <= nth i px 0 <= 255.
Proof.
  intros H. destruct (Nat.lt_ge_cases i (length px)) as [Hi|Hi].
  - rewrite forallb_forall in H. specialize (H (nth i px 0) (nth_In px 0 Hi)).
    unfold byte_range in H. lia.
  - rewrite nth_overflow by exact Hi. lia.
Qed.

(** X1.  The overlay of [adjust_opacity]: an RGBA image of the same size, with
    the colours of the image, and with every alpha value [a] (255 where the
    image has no alpha band) replaced by a value that is not above [a] and
    is within a little more than one level of [opacity * a]; by 0 for
    opacity 0 and by [a] itself for opacity 1. *)
Theorem adjust_opacity_scales_alpha (im : pix_image) (o : float) (w : world unit) :
  wf_image im = true ->
  valid o = true -> le zero o = true -> le o one = true ->
  exists out w',
    adjust_opacity im o w = (Ok out, w')
    /\ p_mode out = "RGBA" /\ p_size out = p_size im
    /\ length (p_data out) = length (p_data im)
    /\ forall i px,
         nth_error (p_data im) i = Some px ->
         exists px',
           nth_error (p_data out) i = Some px'
           /\ length px' = 4%nat
           /\ rgb_of px' = rgb_of (to_RGBA (p_mode im) px)
           /\ (has_alpha (p_mode im) = false ->
               alpha_of (to_RGBA (p_mode im) px) = 255)
           /\ 0 <= alpha_of px' <= alpha_of (to_RGBA (p_mode im) px)
           /\ (Rabs (IZR (alpha_of px')
                     - fval o * IZR (alpha_of (to_RGBA (p_mode im) px)))
               < 1 + pow2 (-14))%R
           /\ (is_zero o = true -> alpha_of px' = 0)
           /\ (o = one -> alpha_of px' = alpha_of (to_RGBA (p_mode im) px)).
Proof.
  intros Hwf Hv H0 H1.
  unfold wf_image in Hwf.
  destruct (bands_of_mode (p_mode im)) as [n|] eqn:Hn; [|discriminate].
  apply andb_prop in Hwf as [_ Hpx].
  destruct (adjust_opacity_pix im o w) as (l & t & Hrun).
  { rewrite H0, H1. reflexivity. }
  { congruence. }
  assert (Hdata : (if String.eqb (p_mode im) "RGBA" then p_data im
                   else map (to_RGBA (p_mode im)) (p_data im))
                  = map (to_RGBA (p_mode im)) (p_data im)).
  { destruct (String.eqb_spec (p_mode im) "RGBA") as [Hm|_]; [|reflexivity].
    rewrite <- (map_id (p_data im)) at 1. apply map_ext_in. intros px Hin.
    rewrite forallb_forall in Hpx.
    destruct (to_RGBA_wf _ _ px Hn (Hpx px Hin)) as (_ & _ & Hid & _).
    symmetry. apply Hid, Hm. }
  rewrite Hdata in Hrun.
  eexists _, _. split; [exact Hrun|]. cbn [p_mode p_size p_data].
  split; [reflexivity|]. split; [reflexivity|].
  split; [rewrite !length_map; reflexivity|].
  intros i px Hi.
  exists (scale_alpha (single_of_double o) (to_RGBA (p_mode im) px)).
  split; [apply map_nth_error, map_nth_error, Hi|].
  rewrite forallb_forall in Hpx.
  destruct (to_RGBA_wf _ _ px Hn (Hpx px (nth_error_In _ _ Hi)))
    as (Hlen & Hbytes & _ & Hopaque).
  pose proof (byte_range_nth _ 3 Hbytes) as Ha.
  destruct (blend_band_bound o (nth 3 (to_RGBA (p_mode im) px) 0) Hv H0 H1 Ha)
    as [Hle Herr].
  split; [reflexivity|]. split.
  { destruct (to_RGBA (p_mode im) px) as [|a [|b [|c [|d [|? ?]]]]];
      try discriminate Hlen. reflexivity. }
  split; [exact Hopaque|]. split; [exact Hle|]. split; [exact Herr|]. split.
  - intros Hz. apply blend_band_zero, Hz.
  - intros ->. apply blend_band_one.
Qed.

End OpacityPixels.

Lemma adjust_opacity_scales_alpha_witness :
  exists out w',
    adjust_opacity (PIL := Pixel.pix_Imaging)
      (Pixel.PixImage "RGB" (2, 1) [[10; 20; 30]; [200; 100; 0]])
      Scenario.f05 (World tt [] [])
    = (Ok out, w')
    /\ Pixel.p_mode out = "RGBA".
Proof.
  destruct (adjust_opacity_scales_alpha
              (Pixel.PixImage "RGB" (2, 1) [[10; 20; 30]; [200; 100; 0]])
              Scenario.f05 (World tt [] []))
    as (out & w' & Hrun & Hmode & _).
  - reflexivity.
  - reflexivity.
  - reflexivity.
  - reflexivity.
  - exists out, w'. split; assumption.
Defined.

Section OpacityClaims.

Import PyFloat Pixel.




End OpacityClaims.


(** ** The checks on the opacity and the size *)

Section RangeChecks.

Import PyFloat.

Lemma pow2_0 : pow2 0 = 1%R.
Proof. reflexivity. Qed.

Lemma pow2_m52 : pow2 (-52) = (/ 4503599627370496)%R.
Proof. change (-52) with (- (52)). rewrite pow2_neg_IZR by lia. reflexivity. Qed.

(** [x <= 1.0] on a positive double is the comparison of the values. *)
Lemma le_one_iff (m : positive) (e : Z) :
  valid (S754_finite false m e) = true ->
  le (S754_finite false m e) one = true
  <-> (fval (S754_finite false m e) <= 1)%R.
Proof.
  intros Hv. split.
  - intros Hle.
    destruct (opacity_shape _ Hv eq_refl Hle)
      as [[s Hs]|[Hone|(m' & e' & Heq & Hd & _)]].
    + discriminate Hs.
    + rewrite Hone, fval_one. lra.
    + injection Heq as <- <-. cbn [fval cond_Zopp].
      pose proof (Zdigits2_bounds m) as [_ Hm].
      pose proof (Zdigits2_pos m) as Hdp.
      assert (Hm' : (IZR (Z.pos m) <= pow2 (Zdigits2 (Z.pos m)))%R).
      { rewrite pow2_IZR by lia. apply IZR_le. lia. }
      pose proof (pow2_pos e) as Hpe.
      assert (Hp : (pow2 (Zdigits2 (Z.pos m)) * pow2 e <= 1)%R).
      { rewrite <- pow2_add, <- pow2_0. apply pow2_le. exact Hd. }
      eapply Rle_trans; [|exact Hp]. apply Rmult_le_compat_r; lra.
  - intros Hval. cbn [fval cond_Zopp] in Hval.
    unfold valid, valid_binary, bounded, canonical_mantissa in Hv.
    apply andb_true_iff in Hv as [Hc _]. apply Z.eqb_eq in Hc.
    change (Z.pos (digits2_pos m)) with (Zdigits2 (Z.pos m)) in Hc.
    unfold fexp, emin, prec, emax in Hc.
    assert (Hmp : (0 < IZR (Z.pos m))%R) by (apply IZR_lt; lia).
    unfold le, SFleb, SFcompare, one.
    destruct (Z.compare_spec e (-52)) as [He|He|He]; [|reflexivity|].
    + subst e. rewrite pow2_m52 in Hval.
      destruct (PosDef.Pos.compare_cont Eq m 4503599627370496) eqn:Hcmp;
        [reflexivity|reflexivity|].
      exfalso. apply (proj1 (Pos.compare_gt_iff m 4503599627370496)) in Hcmp.
      apply Pos2Z.pos_lt_pos in Hcmp. apply IZR_lt in Hcmp.
      assert (IZR (Z.pos m) * / 4503599627370496 > 1)%R; [|lra].
      apply Rlt_gt. replace 1%R with (4503599627370496 * / 4503599627370496)%R by field.
      apply Rmult_lt_compat_r; lra.
    + exfalso.
      assert (Hd : Zdigits2 (Z.pos m) = 53) by lia.
      pose proof (Zdigits2_bounds m) as [Hlo _]. rewrite Hd in Hlo.
      change (2 ^ (53 - 1)) with 4503599627370496 in Hlo.
      apply IZR_le in Hlo.
      assert (Hpe : (pow2 (-51) <= pow2 e)%R) by (apply pow2_le; lia).
      assert (H51 : pow2 (-51) = (/ 2251799813685248)%R).
      { change (-51) with (- (51)). rewrite pow2_neg_IZR by lia. reflexivity. }
      rewrite H51 in Hpe.
      assert (2 <= IZR (Z.pos m) * pow2 e)%R; [|lra].
      replace 2%R with (4503599627370496 * / 2251799813685248)%R by field.
      apply Rmult_le_compat; lra.
Qed.

(** The check [0 <= opacity <= 1] accepts the finite doubles from 0 to 1
    (among them -0.0) and no other: not NaN, not an infinity. *)
Lemma opacity_check_iff (o : float) :
  valid o = true ->
  le zero o && le o one = true
  <-> is_finite o = true /\ (0 <= fval o <= 1)%R.
Proof.
  intros Hv. destruct o as [s|s| |s m e].
  - split; [|destruct s; reflexivity]. intros _. cbn [is_finite fval]. split; [reflexivity|lra].
  - split; [destruct s; discriminate|intros [H _]; discriminate H].
  - split; [discriminate|intros [H _]; discriminate H].
  - destruct s.
    + split; [discriminate|]. intros [_ [H _]]. exfalso.
      assert (Hn : (IZR (cond_Zopp true (Z.pos m)) < 0)%R)
        by (apply IZR_lt, Pos2Z.neg_is_neg).
      cbn [fval] in H. pose proof (pow2_pos e). nra.
    + change (le zero (S754_finite false m e)) with true. cbn [andb].
      rewrite (le_one_iff m e Hv). split.
      * intros H. split; [reflexivity|]. split; [|exact H].
        cbn [fval cond_Zopp]. pose proof (pow2_pos e).
        assert (0 < IZR (Z.pos m))%R by (apply IZR_lt; lia). nra.
      * intros [_ [_ H]]. exact H.
Qed.

(** The check [0 < size <= 1] accepts the finite doubles above 0 and up to
    1, and no other. *)
Lemma size_check_iff (f : float) :
  valid f = true ->
  lt zero f && le f one = true
  <-> is_finite f = true /\ (0 < fval f <= 1)%R.
Proof.
  intros Hv. destruct f as [s|s| |s m e].
  - split; [destruct s; discriminate|]. intros [_ [H _]]. cbn [fval] in H. lra.
  - split; [destruct s; discriminate|intros [H _]; discriminate H].
  - split; [discriminate|intros [H _]; discriminate H].
  - destruct s.
    + split; [discriminate|]. intros [_ [H _]]. exfalso.
      assert (Hn : (IZR (cond_Zopp true (Z.pos m)) < 0)%R)
        by (apply IZR_lt, Pos2Z.neg_is_neg).
      cbn [fval] in H. pose proof (pow2_pos e). nra.
    + change (lt zero (S754_finite false m e)) with true. cbn [andb].
      rewrite (le_one_iff m e Hv). split.
      * intros H. split; [reflexivity|]. split; [|exact H].
        cbn [fval cond_Zopp]. pose proof (pow2_pos e).
        assert (0 < IZR (Z.pos m))%R by (apply IZR_lt; lia). nra.
      * intros [_ [_ H]]. exact H.
Qed.

End RangeChecks.

(** ** The script: start-up and the watermark *)

Section StartUp.

Context {S : Type} `{PIL : Imaging S} `{Os : OS S}.

Import PyFloat.

Lemma ke_main_rest args (w : world S) : wp (main_rest args) (known_exits w) w.
Proof.
  unfold main_rest.
  ke_step; [apply ke_validate_arguments|].
  ke_step; [apply ke_load_watermark|]. ke_step; [ke_step|].
  ke_step; [ke_step|]. ke_step; [apply ke_walk_loop|]. ke_step.
Qed.

(** X2.  A [SystemExit] of [argparse] (status 2 for a malformed command
    line, 0 for [--help]) is not touched by the handlers of the script: it
    ends the run with its own status, nothing is logged, and no other call
    is made. *)
Theorem usage_error_keeps_its_status (w : world S) (c : Z) (s1 : S) :
  parse_args (ext w) = (Raise (SystemExit c), s1) ->
  script w
  = (Raise (SystemExit c),
     World s1 (log w)
           (trace w ++ [Event Call_parse_args (Some (SystemExit c))]))
  /\ exit_status (fst (script w)) = c.
Proof.
  intros H.
  assert (E : script w
              = (Raise (SystemExit c),
                 World s1 (log w)
                       (trace w ++ [Event Call_parse_args (Some (SystemExit c))]))).
  { unfold script, try_except, main, parse_arguments.
    unfold bind at 1. unfold do_call. rewrite H. reflexivity. }
  rewrite E. split; reflexivity.
Qed.

(** X3.  The log file is opened right after the command line is parsed,
    before any argument is validated.  When it cannot be opened, the run
    ends with status 1 after that one call, and the only record logged is
    the critical one of the top-level handler. *)
Theorem log_file_is_opened_before_validation (w : world S) args (s1 : S) f :
  parse_args (ext w) = (Ok args, s1) ->
  log_file args = Some f -> f <> "" ->
  (exists r rest,
     trace (snd (main w))
     = (trace w ++ Event Call_parse_args None
                   :: Event (Call_FileHandler f) r :: rest)%list)
  /\ (forall e s2,
        FileHandler f s1 = (Raise e, s2) -> is_Exception e = true ->
        script w
        = (Raise (SystemExit 1),
           World s2
             (log w ++ [LogRecord CRITICAL
                          ("An unexpected error occurred: " +:+ str_exn e)])
             (trace w ++ [Event Call_parse_args None;
                          Event (Call_FileHandler f) (Some e)]))).
Proof.
  intros Hparse Hf Hne.
  assert (Hfe : String.eqb f "" = false) by (apply String.eqb_neq, Hne).
  destruct (FileHandler f s1) as [r s2] eqn:Hfh.
  assert (Hsetup : setup_logging (log_file args) (verbose args)
                     (World s1 (log w) (trace w ++ [Event Call_parse_args None]))
                   = (r, World s2 (log w)
                           ((trace w ++ [Event Call_parse_args None])
                            ++ [Event (Call_FileHandler f) (exn_of r)]))).
  { unfold setup_logging. rewrite Hf, Hfe. unfold do_call. cbn [ext log trace].
    rewrite Hfh. reflexivity. }
  split.
  - destruct r as [[]|e].
    + cbn [exn_of] in Hsetup.
      rewrite (main_after_setup w _ args s1 Hparse Hsetup).
      pose proof (ke_main_rest args
                    (World (ext (World s2 (log w)
                                   ((trace w ++ [Event Call_parse_args None])
                                    ++ [Event (Call_FileHandler f) None])))
                           (log w ++ [LogRecord DEBUG "Logging is set up."])
                           ((trace w ++ [Event Call_parse_args None])
                            ++ [Event (Call_FileHandler f) None])))
        as [[Ht _] _].
      cbn [trace ext log] in Ht |- *. rewrite Ht.
      eexists _, _. rewrite <- !app_assoc. reflexivity.
    + exists (Some e), [].
      unfold main, parse_arguments. unfold bind at 1. unfold do_call.
      rewrite Hparse. cbn [exn_of]. unfold bind at 1. rewrite Hsetup.
      cbn [snd trace exn_of]. rewrite <- app_assoc. reflexivity.
  - intros e s2' [= -> ->] He.
    unfold script, try_except, main, parse_arguments.
    unfold bind at 1. unfold do_call. rewrite Hparse. cbn [exn_of].
    unfold bind at 1. rewrite Hsetup. cbn [exn_of].
    destruct e; try discriminate He; cbn [is_Exception];
      unfold bind, logging, sys_exit, raise; cbn [ext log trace];
      rewrite <- app_assoc; reflexivity.
Qed.

(** X4.  [load_watermark]: every [Exception] of [Image.open] becomes
    [SystemExit(1)] after one error record; an exception that is no
    [Exception] passes through; and the opacity is adjusted outside the
    [try], so that an exception of the conversion to RGBA leaves
    [load_watermark] as it is, not as [SystemExit(1)]. *)
Theorem load_watermark_failures path o (w : world S) :
  (forall e s',
     Image_open path (ext w) = (Raise e, s') -> is_Exception e = true ->
     exists msg,
       load_watermark path o w
       = (Raise (SystemExit 1),
          World s' (log w ++ [LogRecord ERROR msg])
                (trace w ++ [Event (Call_open path) (Some e)])))
  /\ (forall e s',
        Image_open path (ext w) = (Raise e, s') -> is_Exception e = false ->
        load_watermark path o w
        = (Raise e,
           World s' (log w) (trace w ++ [Event (Call_open path) (Some e)])))
  /\ (forall im s',
        Image_open path (ext w) = (Ok im, s') ->
        load_watermark path o w
        = adjust_opacity im o
            (World s'
               (log w ++ [LogRecord DEBUG
                            ("Watermark image '" +:+ path
                             +:+ "' loaded successfully.")])
               (trace w ++ [Event (Call_open path) None])))
  /\ (forall im s' e s2,
        Image_open path (ext w) = (Ok im, s') ->
        le zero o && le o one = true ->
        im_mode im <> "RGBA" ->
        Image_convert im "RGBA" s' = (Raise e, s2) ->
        fst (load_watermark path o w) = Raise e).
Proof.
  assert (Hok : forall im s',
             Image_open path (ext w) = (Ok im, s') ->
             load_watermark path o w
             = adjust_opacity im o
                 (World s'
                    (log w ++ [LogRecord DEBUG
                                 ("Watermark image '" +:+ path
                                  +:+ "' loaded successfully.")])
                    (trace w ++ [Event (Call_open path) None]))).
  { intros im s' Hopen. unfold load_watermark.
    unfold bind at 1. unfold try_except. unfold bind at 1. unfold do_call.
    rewrite Hopen. reflexivity. }
  split; [|split; [|split; [exact Hok|]]].
  - intros e s' Hopen He. unfold load_watermark.
    unfold bind at 1. unfold try_except. unfold bind at 1. unfold do_call.
    rewrite Hopen. cbn [exn_of].
    destruct e; try discriminate He; cbn [is_Exception];
      eexists; reflexivity.
  - intros e s' Hopen He. unfold load_watermark.
    unfold bind at 1. unfold try_except. unfold bind at 1. unfold do_call.
    rewrite Hopen. cbn [exn_of].
    destruct e; try discriminate He; reflexivity.
  - intros im s' e s2 Hopen Hle Hmode Hconv.
    rewrite (Hok im s' Hopen). unfold adjust_opacity. rewrite Hle.
    assert (Hm : String.eqb (im_mode im) "RGBA" = false)
      by (apply String.eqb_neq, Hmode).
    rewrite Hm. cbn [negb].
    unfold bind at 1. unfold try_except, ret. cbn beta iota.
    unfold bind at 1. unfold bind at 1. unfold do_call. cbn [ext].
    rewrite Hconv. reflexivity.
Qed.

End StartUp.

(** ** The script: the checks in context *)

Section Checks.

Context {S : Type} `{PIL : Imaging S} `{Os : OS S}.

Import PyFloat.

(** X5.  [validate_arguments] accepts the arguments exactly when the source
    is a directory, the watermark is a file, the opacity is a finite number
    from 0 to 1 and the size a finite number above 0 and up to 1 (NaN and
    the infinities are refused).  It exits with code 1 otherwise; either
    way it calls nothing, leaves the outside world as it is and logs one
    record, an error exactly when it refuses. *)
Theorem validate_arguments_accepts_exactly (args : Namespace) (w : world S) :
  valid (opacity args) = true -> valid (size args) = true ->
  let r := fst (validate_arguments args w) in
  let w' := snd (validate_arguments args w) in
  (r = Ok tt <->
     os_path_isdir (source_dir args) (ext w) = true
     /\ os_path_isfile (watermark args) (ext w) = true
     /\ is_finite (opacity args) = true
     /\ (0 <= fval (opacity args) <= 1)%R
     /\ is_finite (size args) = true
     /\ (0 < fval (size args) <= 1)%R)
  /\ (r = Ok tt \/ r = Raise (SystemExit 1))
  /\ ext w' = ext w /\ trace w' = trace w
  /\ exists rec,
       log w' = (log w ++ [rec])%list
       /\ (levelno rec = ERROR <-> r <> Ok tt).
Proof.
  intros Hvo Hvs. cbv zeta.
  destruct (validate_arguments_spec args w) as [msg E]. rewrite E.
  pose proof (opacity_check_iff (opacity args) Hvo) as Ho.
  pose proof (size_check_iff (size args) Hvs) as Hs.
  unfold Spec.args_valid.
  destruct (os_path_isdir (source_dir args) (ext w)) eqn:Hd; cbn [andb];
    [|cbn [fst snd ext log trace]; split; [split; [discriminate|intros [H _]; discriminate H]|];
      split; [right; reflexivity|]; split; [reflexivity|]; split; [reflexivity|];
      eexists; split; [reflexivity|]; cbn [levelno]; split; [discriminate|reflexivity]].
  destruct (os_path_isfile (watermark args) (ext w)) eqn:Hf; cbn [andb];
    [|cbn [fst snd ext log trace]; split; [split; [discriminate|intros (_ & H & _); discriminate H]|];
      split; [right; reflexivity|]; split; [reflexivity|]; split; [reflexivity|];
      eexists; split; [reflexivity|]; cbn [levelno]; split; [discriminate|reflexivity]].
  destruct (le zero (opacity args) && le (opacity args) one) eqn:Hco; cbn [andb];
    [|cbn [fst snd ext log trace];
      split; [split; [discriminate|
                      intros (_ & _ & H1 & H2 & _);
                      assert (false = true) by (apply Ho; auto); discriminate]|];
      split; [right; reflexivity|]; split; [reflexivity|]; split; [reflexivity|];
      eexists; split; [reflexivity|]; cbn [levelno]; split; [discriminate|reflexivity]].
  destruct (lt zero (size args) && le (size args) one) eqn:Hcs;
    [|cbn [fst snd ext log trace];
      split; [split; [discriminate|
                      intros (_ & _ & _ & _ & H1 & H2);
                      assert (false = true) by (apply Hs; auto); discriminate]|];
      split; [right; reflexivity|]; split; [reflexivity|]; split; [reflexivity|];
      eexists; split; [reflexivity|]; cbn [levelno]; split; [discriminate|reflexivity]].
  cbn [fst snd ext log trace].
  destruct (proj1 Ho eq_refl) as [Ho1 Ho2]. destruct (proj1 Hs eq_refl) as [Hs1 Hs2].
  split; [split; [intros _; auto 8|reflexivity]|].
  split; [left; reflexivity|]. split; [reflexivity|]. split; [reflexivity|].
  eexists. split; [reflexivity|]. cbn [levelno].
  split; [discriminate|intros H; exfalso; apply H; reflexivity].
Qed.

(** After the check of the opacity has passed, [adjust_opacity] fails only
    where a library call fails, or where [split] does not return four
    bands. *)
Lemma adjust_opacity_raises im o (w : world S) :
  le zero o && le o one = true ->
  wp (adjust_opacity im o)
     (fun r w' =>
        forall e, r = Raise e ->
          (exists c, In (Event c (Some e)) (new_events w w'))
          \/ e = ValueError "wrong number of values to unpack") w.
Proof.
  intros Hle. apply wp_start. unfold adjust_opacity. rewrite Hle.
  wp_go.
  all: try match goal with
           | |- wp (match ?l with [] => _ | _ :: _ => _ end) _ _ =>
               destruct l as [|r [|g [|b [|alpha [|x rest]]]]]; wp_go
           end.
  all: rewrite new_events_app; intros e' He'; try discriminate He';
    injection He' as <-.
  all: first [ right; reflexivity
             | left; eexists; cbn [In]; eauto 12 ].
Qed.

(** X6.  The assertion of [adjust_opacity]: an opacity that is NaN,
    infinite, negative or above 1 ends in [SystemExit(1)] after the error
    record of the assertion, before the image is touched.  [main] never
    gets there: an opacity that [validate_arguments] has accepted passes
    the assertion, and [adjust_opacity] then fails only where a library
    call fails or [split] does not return four bands. *)
Theorem adjust_opacity_assertion im o (w : world S) :
  valid o = true ->
  (is_finite o = false \/ (fval o < 0)%R \/ (1 < fval o)%R ->
   adjust_opacity im o w
   = (Raise (SystemExit 1),
      World (ext w)
            (log w ++ [LogRecord ERROR "Opacity must be between 0 and 1."])
            (trace w)))
  /\ (forall args (w0 : world S),
        opacity args = o ->
        fst (validate_arguments args w0) = Ok tt ->
        forall e, fst (adjust_opacity im o w) = Raise e ->
          (exists c, In (Event c (Some e))
                        (new_events w (snd (adjust_opacity im o w))))
          \/ e = ValueError "wrong number of values to unpack").
Proof.
  intros Hv. pose proof (opacity_check_iff o Hv) as Ho. split.
  - intros Hbad.
    assert (Hle : le zero o && le o one = false).
    { destruct (le zero o && le o one); [|reflexivity].
      destruct (proj1 Ho eq_refl) as [Hfin Hrange].
      destruct Hbad as [Hb|[Hb|Hb]]; [congruence|lra|lra]. }
    unfold adjust_opacity. rewrite Hle. reflexivity.
  - intros args w0 Hargs Hok.
    destruct (validate_arguments_spec args w0) as [msg E]. rewrite E in Hok.
    unfold Spec.args_valid in Hok. rewrite Hargs in Hok.
    destruct (le zero o && le o one) eqn:Hle.
    + apply (adjust_opacity_raises im o w Hle).
    + rewrite !andb_false_r in Hok. cbn [andb] in Hok.
      rewrite ?andb_false_r in Hok. discriminate Hok.
Qed.

End Checks.

(** ** The placement, once more, and a walk without images *)

Section Placement.

Context {S : Type}.

(** X7.  Where the resized watermark leaves a margin of 10 pixels on every
    side, every position, named or not, puts it inside the image with that
    margin.  The coordinate is not clamped: at the right-hand positions it
    is negative as soon as the watermark is wider than the image less the
    margin. *)
Theorem watermark_position_inside position im_w im_h wm_w wm_h (w : world S) :
  (wm_w + 2 * margin <= im_w -> wm_h + 2 * margin <= im_h ->
   exists x y w',
     get_watermark_position position (im_w, im_h) (wm_w, wm_h) w
     = (Ok (x, y), w')
     /\ margin <= x /\ x + wm_w <= im_w - margin
     /\ margin <= y /\ y + wm_h <= im_h - margin)
  /\ (position = "top-right" \/ position = "bottom-right" ->
      exists y w',
        get_watermark_position position (im_w, im_h) (wm_w, wm_h) w
        = (Ok (im_w - wm_w - margin, y), w')
        /\ (im_w - wm_w - margin < 0 <-> im_w < wm_w + margin)).
Proof.
  split.
  - intros Hw Hh. unfold get_watermark_position, margin in *.
    unfold bind, ret, logging.
    destruct (String.eqb position "top-left");
      [eexists _, _, _; split; [reflexivity|lia]|].
    destruct (String.eqb position "top-right");
      [eexists _, _, _; split; [reflexivity|lia]|].
    destruct (String.eqb position "bottom-left");
      [eexists _, _, _; split; [reflexivity|lia]|].
    destruct (String.eqb position "bottom-right");
      [eexists _, _, _; split; [reflexivity|lia]|].
    destruct (String.eqb position "center");
      [eexists _, _, _; split; [reflexivity|];
       pose proof (Z.div_mod (im_w - wm_w) 2 ltac:(lia));
       pose proof (Z.mod_pos_bound (im_w - wm_w) 2 ltac:(lia));
       pose proof (Z.div_mod (im_h - wm_h) 2 ltac:(lia));
       pose proof (Z.mod_pos_bound (im_h - wm_h) 2 ltac:(lia)); lia|].
    eexists _, _, _; split; [reflexivity|lia].
  - intros [-> | ->]; unfold get_watermark_position, ret; cbn;
      eexists _, _; (split; [reflexivity|unfold margin; lia]).
Qed.

End Placement.

Section EmptyWalk.

Context {S : Type} `{PIL : Imaging S} `{Os : OS S}.

Lemma selected_in_nil root files :
  selected_in root files = [] ->
  forall file, In file files -> Spec.extension_allowed file = false.
Proof.
  unfold selected_in. intros Hnil file Hin.
  destruct (Spec.extension_allowed file) eqn:Ha; [|reflexivity].
  exfalso.
  assert (Hj : In (posixpath.join root file)
                  (flat_map (fun file => if Spec.extension_allowed file
                                         then [posixpath.join root file] else [])
                            files)).
  { apply in_flat_map. exists file. split; [exact Hin|]. rewrite Ha. left.
    reflexivity. }
  rewrite Hnil in Hj. exact Hj.
Qed.

Lemma files_skipped watermark args root files :
  (forall file, In file files -> Spec.extension_allowed file = false) ->
  forall w : world S,
    exists l,
      for_each files (visit_file watermark args root) w
      = (Ok tt, World (ext w) (log w ++ l) (trace w))
      /\ Forall (fun r => levelno r = DEBUG) l
      /\ length l = length files.
Proof.
  induction files as [|file files IH]; intros Hall w.
  - exists []. rewrite app_nil_r, <- world_eta. repeat split. constructor.
  - destruct (IH (fun f Hf => Hall f (or_intror Hf))
                 (World (ext w)
                    (log w ++ [LogRecord DEBUG
                                 ("Skipped non-image file: '"
                                  +:+ posixpath.join root file +:+ "'.")])
                    (trace w))) as (l & Hrun & Hdebug & Hlen).
    eexists (_ :: l). split; [|split].
    + cbn [for_each]. unfold bind at 1. unfold visit_file at 1.
      rewrite endswith_any_extension, (Hall file (or_introl eq_refl)).
      unfold logging at 1. rewrite Hrun. cbn [ext log trace].
      rewrite <- app_assoc. reflexivity.
    + constructor; [reflexivity|exact Hdebug].
    + cbn [length]. rewrite Hlen. reflexivity.
Qed.

(** X8.  A walk that selects no file calls nothing: no image is opened, no
    directory is made (the destination root is not created either) and
    nothing is saved; it logs one debug record for every file it passes
    over, and ends normally. *)
Theorem walk_without_images_calls_nothing watermark args triples (w : world S) :
  selected_paths triples = [] ->
  exists l,
    walk_loop watermark args triples w
    = (Ok tt, World (ext w) (log w ++ l) (trace w))
    /\ Forall (fun r => levelno r = DEBUG) l
    /\ length l = length (flat_map (fun '(_, _, files) => files) triples).
Proof.
  unfold walk_loop, selected_paths. revert w.
  induction triples as [|[[root dirs] files] triples IH]; intros w Hnil.
  - exists []. rewrite app_nil_r, <- world_eta. repeat split. constructor.
  - cbn [flat_map] in Hnil. apply app_eq_nil in Hnil as [Hhere Hrest].
    destruct (files_skipped watermark args root files
                (selected_in_nil root files Hhere) w) as (l1 & Hrun1 & Hd1 & Hl1).
    destruct (IH (World (ext w) (log w ++ l1) (trace w)) Hrest)
      as (l2 & Hrun2 & Hd2 & Hl2).
    exists (l1 ++ l2)%list. split; [|split].
    + cbn [for_each]. unfold bind at 1. rewrite Hrun1, Hrun2.
      cbn [ext log trace]. rewrite <- app_assoc. reflexivity.
    + apply Forall_app. split; assumption.
    + cbn [flat_map]. rewrite !length_app, Hl1, Hl2. reflexivity.
Qed.

End EmptyWalk.

(** ** A run that completes *)

Section CompletedRun.

Context {S : Type} `{PIL : Imaging S} `{Os : OS S}.

Lemma adjust_opacity_opens_nothing im o (w : world S) :
  wp (adjust_opacity im o)
     (fun r w' => extends w w' /\ opened_paths (new_events w w') = []) w.
Proof.
  apply wp_start. unfold adjust_opacity. wp_go.
  all: try match goal with
           | |- wp (match ?l with [] => _ | _ :: _ => _ end) _ _ =>
               destruct l as [|r [|g [|b [|alpha [|x rest]]]]]; wp_go
           end.
  all: unfold extends; rewrite new_events_app, new_log_app; cbn [log trace].
  all: split; [split; reflexivity|reflexivity].
Qed.

Lemma load_watermark_opens path o (w : world S) :
  wp (load_watermark path o)
     (fun r w' => extends w w' /\ opened_paths (new_events w w') = [path]) w.
Proof.
  unfold load_watermark. apply wp_bind, wp_try, wp_bind, wp_call.
  intros [im|e] s' Hopen.
  - apply wp_bind, wp_logging, wp_ret. cbn [ext log trace].
    eapply wp_mono; [apply adjust_opacity_opens_nothing|].
    intros r w' [Hext Hop].
    destruct (extends_trans w _ w' (extends_build w s' _ _) Hext)
      as (Hext' & Hev & _).
    split; [exact Hext'|].
    rewrite Hev, opened_paths_app, Hop, new_events_app. reflexivity.
  - assert (Hq : forall l,
               extends w (World s' (log w ++ l)
                                (trace w ++ [Event (Call_open path) (Some e)]))
               /\ opened_paths
                    (new_events w (World s' (log w ++ l)
                                     (trace w ++ [Event (Call_open path) (Some e)])))
                  = [path]).
    { intros l. split; [apply extends_build|].
      rewrite new_events_app. reflexivity. }
    cbn [exn_of].
    destruct e; cbn [is_Exception];
      first [ apply wp_bind, wp_logging, wp_raise; cbn [ext log trace]; apply Hq
            | rewrite <- (app_nil_r (log w)); apply Hq ].
Qed.

(** X9.  A run that completes has opened the watermark once, first, and
    then exactly the files that the walk selects, each once and in the
    order of [os.walk]; it has opened nothing else. *)
Theorem completed_run_opens (w w' : world S) :
  main w = (Ok tt, w') ->
  exists args s,
    fst (parse_args (ext w)) = Ok args
    /\ opened_paths (new_events w w')
       = watermark args :: selected_paths (os_walk (source_dir args) s).
Proof.
  intros Hmain.
  destruct (parse_args (ext w)) as [[args|e] s1] eqn:Hparse;
    [|unfold main, parse_arguments in Hmain; unfold bind at 1 in Hmain;
      unfold do_call in Hmain; rewrite Hparse in Hmain; discriminate Hmain].
  set (w1 := World s1 (log w) (trace w ++ [Event Call_parse_args None])).
  destruct (setup_logging (log_file args) (verbose args) w1)
    as [[[]|e] w2] eqn:Hsetup;
    [|unfold main, parse_arguments in Hmain; unfold bind at 1 in Hmain;
      unfold do_call in Hmain; rewrite Hparse in Hmain; cbn [exn_of] in Hmain;
      unfold bind at 1 in Hmain; fold w1 in Hmain; rewrite Hsetup in Hmain;
      discriminate Hmain].
  rewrite (main_after_setup w w2 args s1 Hparse Hsetup) in Hmain.
  destruct (setup_logging_opens_nothing _ _ _ _ _ Hsetup) as [Hext12 Hop12].
  unfold main_rest in Hmain. unfold bind at 1 in Hmain.
  destruct (validate_arguments_spec args
              (World (ext w2) (log w2 ++ [LogRecord DEBUG "Logging is set up."])
                     (trace w2))) as (msg & Hval).
  rewrite Hval in Hmain. cbn [ext log trace] in Hmain.
  destruct (Spec.args_valid args (ext w2)); [|discriminate Hmain].
  set (wv := World (ext w2)
               ((log w2 ++ [LogRecord DEBUG "Logging is set up."])
                ++ [LogRecord DEBUG "All arguments validated successfully."])
               (trace w2)) in *.
  unfold bind at 1 in Hmain.
  destruct (load_watermark (watermark args) (opacity args) wv)
    as [[wm|e] w3] eqn:Hload; [|discriminate Hmain].
  destruct (wp_elim _ _ _ _ _ (load_watermark_opens _ _ wv) Hload)
    as [Hextv3 Hopv3].
  unfold bind at 1 in Hmain. unfold logging at 1 in Hmain.
  unfold bind at 1 in Hmain. unfold query at 1 in Hmain. cbn [ext] in Hmain.
  unfold bind at 1 in Hmain.
  match type of Hmain with
  | context [walk_loop wm args ?t ?w4] =>
      destruct (walk_loop wm args t w4) as [[[]|e] w5] eqn:Hwalk;
        [|discriminate Hmain];
      destruct (wp_elim _ _ _ _ _ (walk_loop_run wm args t w4) Hwalk)
        as (Hext45 & _ & Hop45 & _)
  end.
  unfold logging in Hmain. injection Hmain as <-.
  exists args, (ext w3). split; [reflexivity|].
  specialize (Hop45 eq_refl).
  destruct Hext12 as [Ht12 _]. destruct Hextv3 as [Htv3 _].
  destruct Hext45 as [Ht45 _].
  match type of Hop45 with opened_paths ?E = _ => set (E3 := E) in * end.
  set (E2 := new_events wv w3) in *. set (E1 := new_events w1 w2) in *.
  clearbody E1 E2 E3. subst wv w1. cbn [trace] in Ht12, Htv3, Ht45.
  unfold new_events at 1. cbn [trace].
  rewrite Ht45, Htv3, Ht12, <- !app_assoc, drop_length_app.
  cbn [app opened_paths]. rewrite !opened_paths_app, Hop12, Hopv3, Hop45.
  reflexivity.
Qed.

End CompletedRun.

(** ** The width of the resized watermark, once more *)

Section WidthBound.

Import PyFloat.

(** [int(im_width * size)] for a size in (0, 1]: never above the width. *)
Lemma wm_width_at_most (n : Z) (f : float) :
  0 <= n < 2 ^ 52 ->
  valid f = true -> lt zero f = true -> le f one = true ->
  exists prod wm_width,
    int_mul_float n f = Ok prod
    /\ int_of_float prod = Ok wm_width
    /\ 0 <= wm_width <= n.
Proof.
  intros Hn Hv Hlt Hle.
  destruct (Z.eq_dec n 0) as [->|Hn0].
  { destruct (wm_width_floor 0 f ltac:(lia) Hv Hlt Hle) as (prod & ww & H1 & H2 & _ & H4).
    exists prod, ww. repeat split; auto.
    destruct (fraction_shape f Hv Hlt Hle) as (my & ey & -> & _).
    vm_compute in H1. injection H1 as <-. injection H2 as <-. lia. }
  assert (Hn53 : 0 < n < 2 ^ prec).
  { change (2 ^ prec) with 9007199254740992. change (2 ^ 52) with 4503599627370496 in Hn. lia. }
  destruct (binary_normalize_int prec emax prec_pos64 prec_lt_emax64 emax_ge64 n Hn53)
    as (mn & en & En & Dn & Hen & _ & Vn).
  assert (Hdn : Zdigits2 n <= 52) by (apply Zdigits2_le; lia).
  destruct (fraction_shape f Hv Hlt Hle) as (my & ey & -> & Hd1).
  pose proof (proj1 (le_one_iff my ey Hv) Hle) as Hf1.
  assert (Hf0 : (0 < fval (S754_finite false my ey))%R).
  { cbn [fval cond_Zopp]. apply Rmult_lt_0_compat; [apply IZR_lt; lia|apply pow2_pos]. }
  pose proof (Zdigits2_pos my) as Hdy.
  pose proof (Zdigits2_mul mn my) as Hdmul.
  set (E := fexp prec emax (Zdigits2 (Z.pos (mn * my)) + (en + ey))).
  assert (Hsum : Zdigits2 (Z.pos (mn * my)) + (en + ey) <= 52).
  { destruct (opacity_shape (S754_finite false my ey) Hv eq_refl Hle)
      as [[s Hs]|[Hone|(m' & e' & Heq & Hd0 & _)]].
    - discriminate Hs.
    - injection Hone as -> ->.
      rewrite Pos2Z.inj_mul.
      change (Z.pos 4503599627370496) with (2 ^ 52).
      rewrite Zdigits2_mul_pow2 by lia. unfold prec in *. lia.
    - injection Heq as <- <-. unfold prec in *. lia. }
  assert (HE : en + ey <= E /\ E <= -1).
  { unfold E, fexp, emin, prec, emax in *. lia. }
  unfold int_mul_float, float_of_int. rewrite En. unfold mul. cbn [SFmul xorb].
  destruct (binary_round_aux_value prec emax prec_pos64 (Z.pos (mn * my))
              (en + ey) loc_Exact
              (IZR n * fval (S754_finite false my ey))) as [Hshape Herr].
  { lia. }
  { fold E. lia. }
  { fold E. unfold emax, prec. lia. }
  { rewrite <- Vn. cbn [fval cond_Zopp].
    rewrite Pos2Z.inj_mul, mult_IZR, pow2_add.
    pose proof (pow2_pos en). pose proof (pow2_pos ey).
    assert (0 < pow2 en * pow2 ey)%R by (apply Rmult_lt_0_compat; lra).
    split; [right; ring|].
    replace (IZR (Z.pos mn) * pow2 en * (IZR (Z.pos my) * pow2 ey))%R
      with (IZR (Z.pos mn) * IZR (Z.pos my) * (pow2 en * pow2 ey))%R by ring.
    nra. }
  fold E in Herr.
  assert (Hhalf : (pow2 E <= / 2)%R).
  { assert (H1 : pow2 (-1) = (/ 2)%R).
    { change (-1) with (- (1)). rewrite pow2_neg_IZR by lia. reflexivity. }
    rewrite <- H1. apply pow2_le. lia. }
  assert (Hnr : (0 < IZR n)%R) by (apply IZR_lt; lia).
  apply Rabs_le_bounds in Herr.
  destruct Hshape as [[Hz _]|(mr & er & Hr & _)].
  - rewrite Hz. exists (S754_zero false), 0. repeat split; auto; lia.
  - rewrite Hr in *. eexists _, _. split; [reflexivity|]. split; [reflexivity|].
    cbn [cond_Zopp].
    pose proof (shiftl_floor mr er) as [Hfl _].
    split; [apply Z.shiftl_nonneg; lia|].
    assert (Hlt' : (IZR (Z.shiftl (Z.pos mr) er) < IZR (n + 1))%R).
    { rewrite plus_IZR. nra. }
    apply lt_IZR in Hlt'. lia.
Qed.

End WidthBound.

Section WidthClaims.

Context {S : Type} `{PIL : Imaging S} `{Os : OS S}.

Import PyFloat.

(** X10.  With a size fraction in (0, 1], the width that [process_image]
    asks [resize] for is at least 1 and at most the width of the image
    (after the EXIF transposition), for every image less than 2^52 pixels
    wide. *)
Theorem watermark_not_wider_than_image image_path watermark args (w : world S)
    wm_width wm_height o :
  valid (size args) = true ->
  lt zero (size args) = true -> le (size args) one = true ->
  (forall im s im2 s2,
     Image_open image_path (ext w) = (Ok im, s) ->
     ImageOps_exif_transpose im s = (Ok im2, s2) ->
     0 <= fst (im_size im2) < 2 ^ 52) ->
  In (Event (Call_resize (wm_width, wm_height)) o)
     (new_events w (snd (process_image image_path watermark args w))) ->
  exists im s im2 s2,
    Image_open image_path (ext w) = (Ok im, s)
    /\ ImageOps_exif_transpose im s = (Ok im2, s2)
    /\ 1 <= wm_width <= fst (im_size im2).
Proof.
  intros Hv Hlt Hle Hsize Hin.
  rewrite process_image_new_events in Hin.
  pose proof (process_image_body_resize image_path watermark args w) as H.
  unfold wp in H.
  destruct (H _ _ _ Hin)
    as (im & s1 & im2 & s2 & prod & _ & _ & _ & Hopen & Hexif & Hprod & Hint
        & Hne & _).
  exists im, s1, im2, s2. split; [exact Hopen|]. split; [exact Hexif|].
  destruct (wm_width_at_most (fst (im_size im2)) (size args)
              (Hsize _ _ _ _ Hopen Hexif) Hv Hlt Hle)
    as (prod' & ww & Hprod' & Hint' & Hrange).
  rewrite Hprod in Hprod'. injection Hprod' as <-.
  rewrite Hint in Hint'. injection Hint' as <-. lia.
Qed.

End WidthClaims.

(** ** The destination path of a walked image *)

Section DestinationPath.

Import posixpath.

Lemma fold_join_nonempty names src :
  src <> "" -> fold_left join names src <> "".
Proof.
  revert src. induction names as [|f names IH]; intros src Hsrc; [exact Hsrc|].
  simpl. apply IH. unfold join. destruct (isabs f) eqn:Hf.
  - destruct f; [discriminate Hf|discriminate].
  - destruct src as [|c src]; [contradiction|].
    destruct (String.eqb (String c src) "" || ends_with_sep (String c src));
      rewrite append_cons; discriminate.
Qed.

(** X11.  The path that [process_image] builds for the copy of an image
    that the walk found: the destination root, then the names of the
    directories between the source root and the image, then the name of the
    image.  For an image directly in the source root the relative
    directory is [.], so the path has a [.] component; it names the same
    file as the destination root joined with the name. *)
Theorem destination_path_of_walked_image cwd src dest names file :
  isabs cwd = true -> src <> "" ->
  Forall (fun x => name_ok x = true) names -> name_ok file = true ->
  let image_path := join (fold_left join names src) file in
  forall rel,
    relpath cwd (dirname image_path) src = Ok rel ->
    join (join dest rel) (basename image_path)
    = join (join dest (render_rel names)) file
    /\ components cwd (join (join dest rel) (basename image_path))
       = (components cwd dest ++ names ++ [file])%list
    /\ (names = [] ->
        join (join dest rel) (basename image_path) = join (join dest ".") file
        /\ components cwd (join (join dest rel) (basename image_path))
           = components cwd (join dest file)).
Proof.
  intros Hcwd Hsrc Hnames Hfile. cbv zeta. intros rel Hrel.
  destruct (destination_mirrors_source cwd src dest names file
              Hcwd Hsrc Hnames Hfile) as (Hd & _ & _).
  cbv zeta in Hd. rewrite Hd in Hrel. injection Hrel as <-.
  destruct (split_join (fold_left join names src) file
              (fold_join_nonempty names src Hsrc) Hfile) as (Hbase & _).
  rewrite Hbase.
  assert (Hcomp : components cwd (join (join dest (render_rel names)) file)
                  = (components cwd dest ++ names ++ [file])%list).
  { destruct (render_rel_names true names (rev (components cwd dest)) Hnames)
      as [Hrabs Hrwalk].
    rewrite components_join_name, components_join by assumption.
    rewrite Hrwalk, rev_app_distr, !rev_involutive, <- app_assoc. reflexivity. }
  split; [reflexivity|]. split; [exact Hcomp|].
  intros ->. split; [reflexivity|].
  rewrite Hcomp, components_join_name by assumption. reflexivity.
Qed.

End DestinationPath.

(** ** The properties above on concrete runs *)

Lemma usage_error_keeps_its_status_witness :
  exit_status (fst (script (Sim.start Scenario.state_usage))) = 2.
Proof.
  exact (proj2 (usage_error_keeps_its_status
                  (PIL := Sim.sim_Imaging) (Os := Sim.sim_OS)
                  (Sim.start Scenario.state_usage) 2 Scenario.state_usage
                  eq_refl)).
Defined.

Lemma log_file_is_opened_before_validation_witness :
  exit_status (fst (script (Sim.start Scenario.state_log))) = 1.
Proof.
  destruct (log_file_is_opened_before_validation
              (PIL := Sim.sim_Imaging) (Os := Sim.sim_OS)
              (Sim.start Scenario.state_log) Scenario.args_log
              Scenario.state_log "/nolog/run.log") as [_ H].
  - reflexivity.
  - reflexivity.
  - discriminate.
  - rewrite (H FileNotFoundError Scenario.state_log); reflexivity.
Defined.

Lemma load_watermark_failures_witness :
  fst (load_watermark (PIL := Sim.sim_Imaging) "/missing.png" Scenario.f05
                      Scenario.w0)
  = Raise (SystemExit 1).
Proof.
  destruct (load_watermark_failures (PIL := Sim.sim_Imaging)
              "/missing.png" Scenario.f05 Scenario.w0) as (H & _).
  destruct (H FileNotFoundError Scenario.state0) as [msg ->];
    reflexivity.
Defined.

Lemma validate_arguments_accepts_exactly_witness :
  fst (validate_arguments (Os := Sim.sim_OS) Scenario.args0 Scenario.w0) = Ok tt
  \/ fst (validate_arguments (Os := Sim.sim_OS) Scenario.args0 Scenario.w0)
     = Raise (SystemExit 1).
Proof.
  destruct (validate_arguments_accepts_exactly (Os := Sim.sim_OS)
              Scenario.args0 Scenario.w0) as (_ & H & _).
  - reflexivity.
  - reflexivity.
  - exact H.
Defined.

Lemma adjust_opacity_assertion_witness :
  adjust_opacity (PIL := Sim.sim_Imaging) Scenario.overlay S754_nan Scenario.w0
  = (Raise (SystemExit 1),
     World Scenario.state0
           [LogRecord ERROR "Opacity must be between 0 and 1."] []).
Proof.
  destruct (adjust_opacity_assertion (PIL := Sim.sim_Imaging) (Os := Sim.sim_OS)
              Scenario.overlay S754_nan Scenario.w0) as [H _].
  - reflexivity.
  - apply H. left. reflexivity.
Defined.

Lemma watermark_position_inside_witness :
  exists x y w',
    get_watermark_position "center" (500, 300) (100, 100) Scenario.w0
    = (Ok (x, y), w')
    /\ margin <= x /\ x + 100 <= 500 - margin
    /\ margin <= y /\ y + 100 <= 300 - margin.
Proof.
  apply (watermark_position_inside "center" 500 300 100 100 Scenario.w0);
    unfold margin; lia.
Defined.

Lemma walk_without_images_calls_nothing_witness :
  exists l,
    walk_loop (PIL := Sim.sim_Imaging) (Os := Sim.sim_OS)
              Scenario.overlay Scenario.args0
              [("/src", [], ["readme.txt"; "notes.md"])] Scenario.w0
    = (Ok tt, World Scenario.state0 l [])
    /\ length l = 2%nat.
Proof.
  destruct (walk_without_images_calls_nothing
              (PIL := Sim.sim_Imaging) (Os := Sim.sim_OS)
              Scenario.overlay Scenario.args0
              [("/src", [], ["readme.txt"; "notes.md"])] Scenario.w0)
    as (l & Hrun & _ & Hlen).
  - reflexivity.
  - exists l. split; [exact Hrun|exact Hlen].
Defined.

Lemma completed_run_opens_witness :
  exists args s,
    fst (Sim.sim_OS.(parse_args) (ext Scenario.w0)) = Ok args
    /\ opened_paths (new_events Scenario.w0 (snd (main Scenario.w0)))
       = watermark args
         :: selected_paths (Sim.sim_OS.(os_walk) (source_dir args) s).
Proof.
  apply (completed_run_opens (PIL := Sim.sim_Imaging) (Os := Sim.sim_OS)
           Scenario.w0 (snd (main Scenario.w0))).
  vm_compute. reflexivity.
Defined.

Lemma watermark_not_wider_than_image_witness :
  exists im s im2 s2,
    Sim.sim_open "/src/a.png" Scenario.state0 = (Ok im, s)
    /\ Sim.sim_exif_transpose im s = (Ok im2, s2)
    /\ 1 <= 100 <= fst (Sim.s_size im2).
Proof.
  apply (watermark_not_wider_than_image (PIL := Sim.sim_Imaging)
           (Os := Sim.sim_OS) "/src/a.png" Scenario.overlay Scenario.args0
           Scenario.w0 100 100 None).
  - reflexivity.
  - reflexivity.
  - reflexivity.
  - intros im s im2 s2 Hopen Hexif. vm_compute in Hopen.
    injection Hopen as <- <-. vm_compute in Hexif. injection Hexif as <- _.
    cbn. lia.
  - vm_compute. repeat (first [left; reflexivity | right]).
Defined.

Lemma destination_path_of_walked_image_witness :
  posixpath.join (posixpath.join "/dest" ".") (posixpath.basename "/src/a.png")
  = "/dest/./a.png".
Proof.
  destruct (destination_path_of_walked_image "/home" "/src" "/dest" [] "a.png")
    with (rel := ".") as [H _].
  - reflexivity.
  - discriminate.
  - constructor.
  - reflexivity.
  - reflexivity.
  - exact H.
Defined.

(** ** What [process_image] logs and when it makes directories *)

Section ImageLog.

Context {S : Type} `{PIL : Imaging S} `{Os : OS S}.

Lemma process_image_log image_path watermark args (w : world S) :
  exists l,
    log (snd (process_image image_path watermark args w))
    = (log (snd (process_image_body image_path watermark args w)) ++ l)%list
    /\ Forall (fun r => levelno r = ERROR) l.
Proof.
  unfold process_image, try_except.
  destruct (process_image_body image_path watermark args w) as [[[]|e] w1].
  - exists []. rewrite app_nil_r. split; [reflexivity|constructor].
  - unfold process_image_handler.
    destruct e; cbn [is_Exception snd log];
      first [ eexists [_]; split; [reflexivity|repeat constructor]
            | exists []; rewrite app_nil_r; split; [reflexivity|constructor] ].
Qed.

(** [get_watermark_position] logs nothing but a warning. *)
Lemma wp_get_watermark_position_warns position isz wsz Q (s : S) L l T t :
  (forall pos l',
     Forall (fun r => levelno r = WARNING) l' ->
     Q (Ok pos) (World s (L ++ (l ++ l')) (T ++ t))) ->
  wp (get_watermark_position position isz wsz) Q (World s (L ++ l) (T ++ t)).
Proof.
  intros HQ. destruct isz as [iw ih], wsz as [ww wh].
  assert (Hret : forall pos, wp (ret pos) Q (World s (L ++ l) (T ++ t))).
  { intros pos. apply wp_ret. specialize (HQ pos [] (List.Forall_nil _)).
    rewrite app_nil_r in HQ. exact HQ. }
  unfold get_watermark_position.
  repeat (match goal with
          | |- wp (if ?b then _ else _) _ _ => destruct b; [apply Hret|]
          end).
  apply wp_bind, wp_logging_acc, wp_ret.
  apply HQ. repeat constructor.
Qed.

End ImageLog.

Ltac wp_go_log :=
  repeat first
    [ lazymatch goal with
      | |- wp (get_watermark_position _ _ _) _ _ =>
          apply wp_get_watermark_position_warns; intros ? ? ?;
          cbn beta iota; cbn [ext exn_of app]
      end
    | wp_step ].

Ltac log_cases H :=
  repeat match type of H with
         | In _ (_ ++ _) => apply in_app_or in H; destruct H as [H|H]
         | In _ (_ :: _) => destruct H as [H|H]; [try discriminate H|]
         | In _ [] => contradiction H
         end.

Section ImageLogClaims.

Context {S : Type} `{PIL : Imaging S} `{Os : OS S}.

Lemma process_image_body_info image_path watermark args (w : world S) :
  wp (process_image_body image_path watermark args)
     (fun r w' =>
        extends w w'
        /\ forall m,
             In (LogRecord INFO m) (new_log w w')
             <-> exists p,
                   m = "Saved watermarked image to: " +:+ p
                   /\ In p (saved_paths (new_events w w'))) w.
Proof.
  apply wp_start. unfold process_image_body.
  wp_go_log.
  all: split; [apply extends_build|].
  all: rewrite new_events_app, new_log_app; cbn [saved_paths].
  all: intros m; split;
    [ intros Hin
    | intros (p & -> & Hin); cbn [In] in Hin; in_cases Hin;
      try (subst p;
           repeat first [ left; reflexivity | right
                        | apply in_or_app; right; left; reflexivity ]) ].
  all: cbn [app] in Hin.
  all: log_cases Hin.
  all: try match goal with
           | HF : Forall _ ?l, H : In _ ?l |- _ =>
               rewrite List.Forall_forall in HF; apply HF in H; discriminate H
           end.
  all: try (injection Hin as <-; eexists; split; [reflexivity|left; reflexivity]).
Qed.


(** X12.  [process_image] reports an image as saved exactly when [save]
    has returned: its info records are the records of the saved paths, one
    for each, and it logs no other info record. *)
Theorem saved_is_logged_exactly image_path watermark args (w : world S) :
  let w' := snd (process_image image_path watermark args w) in
  forall m,
    In (LogRecord INFO m) (new_log w w')
    <-> exists p,
          m = "Saved watermarked image to: " +:+ p
          /\ In p (saved_paths (new_events w w')).
Proof.
  cbv zeta. intros m.
  rewrite process_image_new_events.
  pose proof (process_image_body_info image_path watermark args w) as [Hext Hinfo].
  destruct (process_image_log image_path watermark args w) as (l & Hlog & Hl).
  assert (Hnl : new_log w (snd (process_image image_path watermark args w))
                = (new_log w (snd (process_image_body image_path watermark args w))
                   ++ l)%list).
  { unfold new_log at 1. rewrite Hlog. destruct Hext as [_ Hl0].
    rewrite Hl0 at 1. rewrite <- app_assoc. apply drop_length_app. }
  rewrite Hnl, <- Hinfo, in_app_iff. split; [|auto].
  intros [H|H]; [exact H|].
  rewrite List.Forall_forall in Hl. apply Hl in H. discriminate H.
Qed.

Lemma process_image_body_makedirs image_path watermark args (w : world S) :
  wp (process_image_body image_path watermark args)
     (fun r w' =>
        forall d ok o,
          In (Event (Call_makedirs d ok) o) (new_events w w') ->
          ok = true
          /\ In (Event (Call_open image_path) None) (new_events w w')
          /\ In (Event Call_alpha_composite None) (new_events w w')
          /\ forall c e,
               In (Event c (Some e)) (new_events w w') ->
               c = Call_makedirs d true
               \/ exists p f m, c = Call_save p f m) w.
Proof.
  apply wp_start. unfold process_image_body.
  wp_go.
  all: rewrite new_events_app.
  all: intros d ok o0 Hin; cbn [In] in Hin; in_cases Hin.
  all: injection Hin as <- <- <-.
  all: split; [reflexivity|].
  all: split; [cbn [In]; repeat (first [left; reflexivity | right])|].
  all: split; [cbn [In]; repeat (first [left; reflexivity | right])|].
  all: intros c e' Hc; cbn [In] in Hc; in_cases Hc.
  all: injection Hc as <- <-.
  all: first [ left; reflexivity | right; eexists _, _, _; reflexivity ].
Qed.

(** X13.  [process_image] makes a destination directory only for an image
    that it has opened and composited: when [os.makedirs] is called, it is
    called with [exist_ok=True], [Image.open] and [alpha_composite] have
    returned, and no call has failed except, possibly, [makedirs] itself or
    the [save] after it.  An image that cannot be read or processed leaves
    no directory behind; one that cannot be saved does. *)
Theorem makedirs_only_after_compositing image_path watermark args (w : world S) :
  let w' := snd (process_image image_path watermark args w) in
  forall d ok o,
    In (Event (Call_makedirs d ok) o) (new_events w w') ->
    ok = true
    /\ In (Event (Call_open image_path) None) (new_events w w')
    /\ In (Event Call_alpha_composite None) (new_events w w')
    /\ forall c e,
         In (Event c (Some e)) (new_events w w') ->
         c = Call_makedirs d true \/ exists p f m, c = Call_save p f m.
Proof.
  cbv zeta. rewrite process_image_new_events.
  exact (process_image_body_makedirs image_path watermark args w).
Qed.

End ImageLogClaims.

Lemma makedirs_only_after_compositing_witness :
  In (Event Call_alpha_composite None)
     (new_events Scenario.w0
        (snd (process_image (PIL := Sim.sim_Imaging) (Os := Sim.sim_OS)
                "/src/a.png" Scenario.overlay Scenario.args0 Scenario.w0))).
Proof.
  destruct (makedirs_only_after_compositing
              (PIL := Sim.sim_Imaging) (Os := Sim.sim_OS)
              "/src/a.png" Scenario.overlay Scenario.args0 Scenario.w0
              "/dest/." true None) as (_ & _ & H & _).
  - vm_compute. repeat (first [left; reflexivity | right]).
  - exact H.
Defined.

(** ** How the script ends *)

Section CleanEnd.

Context {S : Type} `{PIL : Imaging S} `{Os : OS S}.

(** X14.  The script never ends in an uncaught exception: it runs to its
    end, or it ends in a [SystemExit], with code 1 or with the code of a
    [SystemExit] that a library call raised.  The top-level handlers make
    no library call. *)
Theorem script_ends_in_exit_only (w : world S) :
  trace (snd (script w)) = trace (snd (main w))
  /\ (fst (script w) = Ok tt
      \/ exists c,
           fst (script w) = Raise (SystemExit c)
           /\ (c = 1
               \/ exists call,
                    In (Event call (Some (SystemExit c)))
                       (new_events w (snd (script w))))).
Proof.
  destruct (script_of_main w) as (Hok & Hexit & Hother).
  pose proof (ke_main w) as [_ Hsrc].
  destruct (main w) as [[[]|e] w'] eqn:Hmain; cbn [fst snd] in *.
  - rewrite (Hok w' eq_refl). split; [reflexivity|left; reflexivity].
  - assert (Hcases : (exists c, e = SystemExit c) \/ forall c, e <> SystemExit c).
    { destruct e; try (right; intros c Hc; discriminate Hc). left. eauto. }
    destruct Hcases as [[c ->]|Hne].
    + rewrite (Hexit c w' eq_refl). split; [reflexivity|]. right. exists c.
      split; [reflexivity|]. cbn [snd].
      destruct (Hsrc _ eq_refl) as [H1|[H2|(call & Hc)]].
      * injection H1 as ->. left. reflexivity.
      * discriminate H2.
      * right. exists call. exact Hc.
    + destruct (Hother e w' eq_refl Hne) as (lv & msg & ->).
      split; [reflexivity|]. right. exists 1. split; [reflexivity|].
      left. reflexivity.
Qed.

End CleanEnd.

Lemma saved_is_logged_exactly_witness :
  In (LogRecord INFO "Saved watermarked image to: /dest/./a.png")
     (new_log Scenario.w0
        (snd (process_image (PIL := Sim.sim_Imaging) (Os := Sim.sim_OS)
                "/src/a.png" Scenario.overlay Scenario.args0 Scenario.w0))).
Proof.
  apply (proj2 (saved_is_logged_exactly
                  (PIL := Sim.sim_Imaging) (Os := Sim.sim_OS)
                  "/src/a.png" Scenario.overlay Scenario.args0 Scenario.w0
                  "Saved watermarked image to: /dest/./a.png")).
  exists "/dest/./a.png". split; [reflexivity|].
  vm_compute. left. reflexivity.
Defined.
